(** * Pet store and pet-order services: a shallow embedding

    The development follows the layout of the repository:
    - [Py]       : the Python values and containers the services rely on
                   (strings, JSON atoms, insertion-ordered dictionaries);
    - [Dates]    : [parse_date] and [compare_dates] of [petstore/models.py];
    - [Models]   : the in-memory catalogue of [petstore/models.py];
    - [Ninja]    : the taxonomy resolver of [petstore/ninja_client.py];
    - [Petstore] : the request handlers of [petstore/app.py];
    - [PetOrder] : the purchase flow of [pet-order/app.py], written against
                   an interface for the two remote catalogue instances, whose
                   requests are answered or raise;
    - [Deploy]   : the two catalogue instances plugged into that interface,
                   and the histories of requests an instance can serve;
    - [Scripted] : remote instances that answer from a fixed table;
    - [Consistency], [Tidiness] : the invariants of the catalogue;
    - [Listing]  : GET /pet-types with query parameters, of [petstore/app.py];
    - [Transactions] : GET /transactions of [pet-order/app.py];
    - [Text]     : texts of ASCII characters and the numbers written in them;
    - [Traffic]  : vocabulary for the requests of a purchase.
    The properties follow the definitions.

    Strings are sequences of 8-bit characters and stand for Python strings
    of ASCII characters: [str.lower], [str.strip], [str.split], [\d] and
    [int] are modelled on the ASCII range.  Handlers are functions from the
    state before a request to the answer and the state after it; what a
    handler asks of the outside world is an argument ([env], [Remote]) and
    what it does to it is returned as a list of effects or a trace.  An
    exception that no handler catches is answered 500. *)

From Stdlib Require Import String Ascii List ZArith NArith Lia Bool Arith.
From Stdlib Require Import DecimalString DecimalN DecimalPos.
Import ListNotations.
Open Scope string_scope.

(* ================================================================= *)
(** * Python values *)

Module Py.

Definition code (c : ascii) : nat := nat_of_ascii c.

Definition between (lo hi : nat) (c : ascii) : bool :=
  (lo <=? code c)%nat && (code c <=? hi)%nat.

Definition is_upper : ascii -> bool := between 65 90.
Definition is_digit : ascii -> bool := between 48 57.

(** [str.isspace] on one character: tab, LF, VT, FF, CR, the four
    separators FS..US, and the space. *)
Definition is_space (c : ascii) : bool :=
  between 9 13 c || between 28 32 c.

(** The 32 characters of [string.punctuation]. *)
Definition is_punct (c : ascii) : bool :=
  between 33 47 c || between 58 64 c || between 91 96 c || between 123 126 c.

Definition lower_ascii (c : ascii) : ascii :=
  if is_upper c then ascii_of_nat (code c + 32) else c.

(** [s.lower()] *)
Fixpoint lower (s : string) : string :=
  match s with
  | EmptyString => EmptyString
  | String c r => String (lower_ascii c) (lower r)
  end.

Fixpoint lstrip (s : string) : string :=
  match s with
  | String c r => if is_space c then lstrip r else s
  | EmptyString => EmptyString
  end.

Fixpoint rev_acc (s acc : string) : string :=
  match s with
  | EmptyString => acc
  | String c r => rev_acc r (String c acc)
  end.

Definition rev (s : string) : string := rev_acc s EmptyString.

(** [s.strip()] *)
Definition strip (s : string) : string := rev (lstrip (rev (lstrip s))).

(** [needle in hay] on strings. *)
Fixpoint contains (needle hay : string) : bool :=
  String.prefix needle hay ||
  match hay with
  | EmptyString => false
  | String _ r => contains needle r
  end.

(** [s.split(sep)] for a one-character separator. *)
Fixpoint split_on (sep : ascii) (s : string) : list string :=
  match s with
  | EmptyString => [EmptyString]
  | String c r =>
      if Ascii.eqb c sep then EmptyString :: split_on sep r
      else match split_on sep r with
           | [] => [String c EmptyString]
           | w :: ws => String c w :: ws
           end
  end.

Definition digit_val (c : ascii) : Z := Z.of_nat (code c - 48).

(** [int(s)] for a string of decimal digits. *)
Fixpoint int_of_digits (acc : Z) (s : string) : Z :=
  match s with
  | EmptyString => acc
  | String c r => int_of_digits (10 * acc + digit_val c) r
  end.

Fixpoint all_digits (s : string) : bool :=
  match s with
  | EmptyString => true
  | String c r => is_digit c && all_digits r
  end.

(** [str(n)] for a non-negative integer. *)
Definition str_of_N (n : N) : string := NilZero.string_of_uint (N.to_uint n).

(** ** JSON atoms

    The values a field of a request body can hold.  Arrays, objects and
    floating-point numbers as field values are outside the model. *)
Inductive json : Type :=
| JNull
| JBool (b : bool)
| JInt (z : Z)
| JStr (s : string).

(** Truth value of a Python object in a condition. *)
Definition truthy (v : json) : bool :=
  match v with
  | JNull => false
  | JBool b => b
  | JInt z => negb (z =? 0)%Z
  | JStr s => negb (s =? "")
  end.

Definition as_int (v : json) : option Z :=
  match v with
  | JBool b => Some (if b then 1 else 0)%Z
  | JInt z => Some z
  | _ => None
  end.

(** [a == b]: booleans compare as the integers 0 and 1. *)
Definition eqb (a b : json) : bool :=
  match a, b with
  | JNull, JNull => true
  | JStr s, JStr t => (s =? t)
  | _, _ =>
      match as_int a, as_int b with
      | Some x, Some y => (x =? y)%Z
      | _, _ => false
      end
  end.

(** ** Dictionaries

    A [dict] keeps its keys in insertion order; assigning to a key that is
    present keeps the key's position. *)
Definition dict (V : Type) : Type := list (string * V).

Fixpoint get {V} (d : dict V) (k : string) : option V :=
  match d with
  | [] => None
  | (k', v) :: r => if k' =? k then Some v else get r k
  end.

Definition mem {V} (d : dict V) (k : string) : bool :=
  match get d k with Some _ => true | None => false end.

(** [d[k] = v] *)
Fixpoint set {V} (d : dict V) (k : string) (v : V) : dict V :=
  match d with
  | [] => [(k, v)]
  | (k', v') :: r => if k' =? k then (k', v) :: r else (k', v') :: set r k v
  end.

(** The dictionary left by [d.pop(k, None)]. *)
Fixpoint pop {V} (d : dict V) (k : string) : dict V :=
  match d with
  | [] => []
  | (k', v') :: r => if k' =? k then r else (k', v') :: pop r k
  end.

Definition keys {V} (d : dict V) : list string := map fst d.
Definition values {V} (d : dict V) : list V := map snd d.

(** [x in l] on a list of strings. *)
Fixpoint inb (x : string) (l : list string) : bool :=
  match l with
  | [] => false
  | y :: r => (y =? x) || inb x r
  end.

(** ** Exceptions

    A call either returns or raises; the exceptions are the ones the two
    services raise or catch. *)
Inductive exn : Type :=
| KeyError
| ValueError
| TypeError
| AttributeError
| RuntimeError
| NinjaNotFound
| NinjaApiError (status_code : N)
| RequestError.

Inductive result (A : Type) : Type :=
| Return (a : A)
| Raise (e : exn).
Arguments Return {A} a.
Arguments Raise {A} e.

Definition bind {A B} (r : result A) (k : A -> result B) : result B :=
  match r with
  | Return a => k a
  | Raise e => Raise e
  end.

End Py.

Notation "x <- c ;; k" := (Py.bind c (fun x => k))
  (at level 61, c at next level, right associativity).

(* ================================================================= *)
(** * Dates: [parse_date], [compare_dates] *)

Module Dates.
Import Py.
#[local] Open Scope Z_scope.

Record date : Type := mkDate { year : Z; month : Z; day : Z }.

Definition is_leap (y : Z) : bool :=
  (y mod 4 =? 0) && (negb (y mod 100 =? 0) || (y mod 400 =? 0)).

Definition days_in_month (y m : Z) : Z :=
  if m =? 2 then (if is_leap y then 29 else 28)
  else if (m =? 4) || (m =? 6) || (m =? 9) || (m =? 11) then 30
  else 31.

Definition days_before_year (y : Z) : Z :=
  let p := y - 1 in p * 365 + p / 4 - p / 100 + p / 400.

Fixpoint days_before_month_aux (y : Z) (n : nat) : Z :=
  match n with
  | O => 0
  | S k => days_before_month_aux y k + days_in_month y (Z.of_nat n)
  end.

Definition days_before_month (y m : Z) : Z :=
  days_before_month_aux y (Z.to_nat (m - 1)).

(** [date.toordinal()]: 1 for 01-01-0001. *)
Definition toordinal (d : date) : Z :=
  days_before_year (year d) + days_before_month (year d) (month d) + day d.

(** [datetime.date(y, m, d)]; [None] stands for the [ValueError]. *)
Definition make_date (y m d : Z) : option date :=
  if (1 <=? y) && (y <=? 9999) && (1 <=? m) && (m <=? 12)
     && (1 <=? d) && (d <=? days_in_month y m)
  then Some (mkDate y m d) else None.

Definition nonzero_digit (c : ascii) : bool := between 49 57 c.

(** The day directive [%d]: [3[0-1]|[1-2]\d|0[1-9]|[1-9]| [1-9]]. *)
Definition match_day (s : string) : option Z :=
  match s with
  | String a EmptyString =>
      if nonzero_digit a then Some (digit_val a) else None
  | String a (String b EmptyString) =>
      if (Ascii.eqb a "3" && between 48 49 b)
         || (between 49 50 a && is_digit b)
         || (Ascii.eqb a "0" && nonzero_digit b)
      then Some (10 * digit_val a + digit_val b)
      else if Ascii.eqb a " " && nonzero_digit b then Some (digit_val b)
      else None
  | _ => None
  end.

(** The month directive [%m]: [1[0-2]|0[1-9]|[1-9]]. *)
Definition match_month (s : string) : option Z :=
  match s with
  | String a EmptyString =>
      if nonzero_digit a then Some (digit_val a) else None
  | String a (String b EmptyString) =>
      if (Ascii.eqb a "1" && between 48 50 b)
         || (Ascii.eqb a "0" && nonzero_digit b)
      then Some (10 * digit_val a + digit_val b)
      else None
  | _ => None
  end.

(** The year directive [%Y]: exactly four digits. *)
Definition match_year (s : string) : option Z :=
  if (String.length s =? 4)%nat && all_digits s
  then Some (int_of_digits 0 s) else None.

(** [parse_date]: [strptime(date_str, "%d-%m-%Y").date()].  The three
    directives match no dash, so the whole string matches the format
    exactly when it splits at its dashes into a day, a month and a year. *)
Definition parse_date (date_str : string) : option date :=
  match split_on "-" date_str with
  | [ds; ms; ys] =>
      match match_day ds, match_month ms, match_year ys with
      | Some d, Some m, Some y => make_date y m d
      | _, _, _ => None
      end
  | _ => None
  end.

(** [compare_dates]: [(d1 - d2).days]; [None] when a string does not
    parse. *)
Definition compare_dates (d1_str d2_str : string) : option Z :=
  match parse_date d1_str, parse_date d2_str with
  | Some d1, Some d2 => Some (toordinal d1 - toordinal d2)
  | _, _ => None
  end.

(** A valid day-month-year string is one [parse_date] accepts. *)
Definition valid_date (s : string) : Prop := parse_date s <> None.

End Dates.

(* ================================================================= *)
(** * The catalogue store: [petstore/models.py] *)

Module Models.
Import Py.

(** A pet-type JSON object. *)
Record pet_type : Type := mkPetType {
  pt_id : string;
  pt_type : string;
  pt_family : string;
  pt_genus : string;
  pt_attributes : list string;
  pt_lifespan : option Z;
  pt_pets : list string
}.

(** An internal pet dictionary: keys name, birthdate, picture, picture_url.
    The birthdate and the picture are strings, ["NA"] when unset; the
    picture URL is whatever the request body held ([JNull] when absent). *)
Record pet : Type := mkPet {
  name : string;
  birthdate : string;
  picture : string;
  picture_url : json
}.

(** The JSON representation of a pet. *)
Record pet_json : Type := mkPetJson {
  pj_name : string;
  pj_birthdate : string;
  pj_picture : string
}.

(** The module's globals. *)
Record catalog : Type := mkCatalog {
  pet_types : dict pet_type;
  pets_by_type : dict (dict pet);
  type_name_to_id : dict string;
  next_pet_type_id : N
}.

Definition empty_catalog : catalog := mkCatalog [] [] [] 1.

Definition with_pets (pt : pet_type) (l : list string) : pet_type :=
  mkPetType (pt_id pt) (pt_type pt) (pt_family pt) (pt_genus pt)
            (pt_attributes pt) (pt_lifespan pt) l.

Definition generate_pet_type_id (c : catalog) : string * catalog :=
  (str_of_N (next_pet_type_id c),
   mkCatalog (pet_types c) (pets_by_type c) (type_name_to_id c)
             (next_pet_type_id c + 1)).

Definition pet_type_exists_by_name (c : catalog) (type_name : string) : bool :=
  mem (type_name_to_id c) (lower type_name).

Definition register_pet_type (c : catalog) (pet_type_obj : pet_type) : catalog :=
  mkCatalog
    (set (pet_types c) (pt_id pet_type_obj) pet_type_obj)
    (set (pets_by_type c) (pt_id pet_type_obj) [])
    (set (type_name_to_id c) (lower (pt_type pet_type_obj)) (pt_id pet_type_obj))
    (next_pet_type_id c).

Definition remove_pet_type (c : catalog) (pet_type_id : string) : catalog :=
  match get (pet_types c) pet_type_id with
  | None => c
  | Some pt =>
      mkCatalog
        (pop (pet_types c) pet_type_id)
        (pop (pets_by_type c) pet_type_id)
        (pop (type_name_to_id c) (lower (pt_type pt)))
        (next_pet_type_id c)
  end.

Definition get_pets_for_type (c : catalog) (pet_type_id : string) : dict pet :=
  match get (pets_by_type c) pet_type_id with
  | Some pets => pets
  | None => []
  end.

(** [add_pet]: the pet is stored under its lower-cased name, then its name
    is appended to the type's list unless the list holds that very string.
    [pet_types[pet_type_id]] raises [KeyError] for an unknown id, after the
    pet was stored. *)
Definition add_pet (c : catalog) (pet_type_id : string) (internal_pet : pet)
  : result unit * catalog :=
  let pets := get_pets_for_type c pet_type_id in
  let name_lower := lower (name internal_pet) in
  let pbt := set (pets_by_type c) pet_type_id (set pets name_lower internal_pet) in
  match get (pet_types c) pet_type_id with
  | None =>
      (Raise KeyError,
       mkCatalog (pet_types c) pbt (type_name_to_id c) (next_pet_type_id c))
  | Some pt =>
      let pt' :=
        if inb (name internal_pet) (pt_pets pt) then pt
        else with_pets pt (pt_pets pt ++ [name internal_pet]) in
      (Return tt,
       mkCatalog (set (pet_types c) pet_type_id pt') pbt
                 (type_name_to_id c) (next_pet_type_id c))
  end.

(** [delete_pet]: returns the removed pet, [None] when there was none. *)
Definition delete_pet (c : catalog) (pet_type_id pet_name : string)
  : result (option pet) * catalog :=
  let name_lower := lower pet_name in
  match get (pets_by_type c) pet_type_id with
  | None => (Return None, c)
  | Some pets =>
      match get pets name_lower with
      | None => (Return None, c)
      | Some p =>
          let pbt := set (pets_by_type c) pet_type_id (pop pets name_lower) in
          match get (pet_types c) pet_type_id with
          | None =>
              (Raise KeyError,
               mkCatalog (pet_types c) pbt (type_name_to_id c)
                         (next_pet_type_id c))
          | Some pt =>
              let kept :=
                filter (fun n => negb (lower n =? name_lower)) (pt_pets pt) in
              (Return (Some p),
               mkCatalog (set (pet_types c) pet_type_id (with_pets pt kept))
                         pbt (type_name_to_id c) (next_pet_type_id c))
          end
      end
  end.

Definition pet_to_json (internal_pet : pet) : pet_json :=
  mkPetJson (name internal_pet) (birthdate internal_pet) (picture internal_pet).

End Models.

(* ================================================================= *)
(** * The taxonomy resolver: [petstore/ninja_client.py] *)

Module Ninja.
Import Py.

(** What [fetch_pet_type_data] returns. *)
Record info : Type := mkInfo {
  family : string;
  genus : string;
  attributes : list string;
  lifespan : option Z
}.

(** The deterministic mapping, keyed by lower-cased type name. *)
Definition ASSN4_PETTYPE_MAP : dict info :=
  [ ("golden retriever", mkInfo "Canidae" "Canis" [] (Some 12%Z));
    ("australian shepherd",
      mkInfo "Canidae" "Canis" ["Loyal"; "outgoing"; "and"; "friendly"] (Some 15%Z));
    ("abyssinian",
      mkInfo "Felidae" "Felis" ["Intelligent"; "and"; "curious"] (Some 13%Z));
    ("bulldog",
      mkInfo "Canidae" "Canis" ["Gentle"; "calm"; "and"; "affectionate"] None) ].

(** One (non-empty) entry of the upstream answer, after the [.get] defaults: the name
    and the taxonomy fields default to the empty string, the
    characteristics to [None]. *)
Record entry : Type := mkEntry {
  e_name : string;
  e_family : string;
  e_genus : string;
  e_temperament : option string;
  e_group_behavior : option string;
  e_lifespan : option string
}.

Record http_response : Type := mkHttp {
  status_code : N;
  entries : list entry
}.

(** The process environment and the upstream service. *)
Record upstream : Type := mkUpstream {
  NINJA_API_KEY : option string;
  ninja_get : string -> string -> result http_response
}.

(** [text.split()]: the maximal runs of non-space characters. *)
Fixpoint words_acc (cur : string) (s : string) : list string :=
  match s with
  | EmptyString => if cur =? "" then [] else [rev cur]
  | String c r =>
      if is_space c
      then (if cur =? "" then words_acc "" r else rev cur :: words_acc "" r)
      else words_acc (String c cur) r
  end.

Definition words (s : string) : list string := words_acc "" s.

Fixpoint remove_punct (s : string) : string :=
  match s with
  | EmptyString => EmptyString
  | String c r => if is_punct c then remove_punct r else String c (remove_punct r)
  end.

(** [temperament_to_attributes] of [models.py]. *)
Definition temperament_to_attributes (text : option string) : list string :=
  match text with
  | None => []
  | Some t => if t =? "" then [] else words (remove_punct (lower t))
  end.

(** [re.findall(r"\d+", s)]: the maximal runs of digits. *)
Fixpoint digit_runs_acc (cur : string) (s : string) : list string :=
  match s with
  | EmptyString => if cur =? "" then [] else [rev cur]
  | String c r =>
      if is_digit c then digit_runs_acc (String c cur) r
      else (if cur =? "" then digit_runs_acc "" r
            else rev cur :: digit_runs_acc "" r)
  end.

Definition minimum (l : list Z) : option Z :=
  match l with
  | [] => None
  | x :: r => Some (fold_left Z.min r x)
  end.

Definition parse_lifespan (raw : option string) : option Z :=
  match raw with
  | None => None
  | Some s => minimum (map (int_of_digits 0) (digit_runs_acc "" s))
  end.

Definition _get_api_key (u : upstream) : result string :=
  match NINJA_API_KEY u with
  | Some key => if key =? "" then Raise RuntimeError else Return key
  | None => Raise RuntimeError
  end.

Definition nonempty (o : option string) : bool :=
  match o with Some s => negb (s =? "") | None => false end.

Definition entry_info (chosen : entry) : info :=
  let attributes_str :=
    if nonempty (e_temperament chosen) then e_temperament chosen
    else if nonempty (e_group_behavior chosen) then e_group_behavior chosen
    else None in
  mkInfo (e_family chosen) (e_genus chosen)
         (temperament_to_attributes attributes_str)
         (parse_lifespan (e_lifespan chosen)).

(** [fetch_pet_type_data]: the deterministic mapping first, the live
    service otherwise.  The second component tells whether the live service
    was called. *)
Definition fetch_pet_type_data (u : upstream) (type_name : string)
  : result info * bool :=
  let key := lower (strip type_name) in
  match get ASSN4_PETTYPE_MAP key with
  | Some i => (Return i, false)
  | None =>
      match _get_api_key u with
      | Raise e => (Raise e, false)
      | Return api_key =>
          (resp <- ninja_get u type_name api_key ;;
           if (status_code resp =? 400)%N then Raise NinjaNotFound
           else if negb (status_code resp =? 200)%N
                then Raise (NinjaApiError (status_code resp))
           else match find (fun e => lower (e_name e) =? lower type_name)
                           (entries resp) with
                | None => Raise NinjaNotFound
                | Some chosen => Return (entry_info chosen)
                end,
           true)
      end
  end.

End Ninja.

(* ================================================================= *)
(** * The catalogue service: [petstore/app.py] *)

Module Petstore.
Import Py Models.

(** What a handler does to the outside world, in order: a call of
    [fetch_pet_type_data], the request that call sends to the live
    service, the GET of a picture URL, the write of a picture file, the
    [os.remove] of one. *)
Inductive effect : Type :=
| Resolve (type_name : string)
| NinjaRequest (type_name : string)
| Download (url : json)
| WriteFile (file_name : string)
| RemoveFile (file_name : string).

(** The outside world of one catalogue instance: the taxonomy service, the
    answer (status code, content type) to the GET of a picture URL, or the
    exception [requests.get] raises for it, and the interpreter's [hash].
    Writing the downloaded file does not fail. *)
Record env : Type := mkEnv {
  ninja : Ninja.upstream;
  picture_get : json -> result (N * string);
  py_hash : json -> Z
}.

Inductive body : Type :=
| Empty
| Error (message : string)
| ServerError (message : string)
| PetTypeObject (pt : pet_type)
| PetTypeArray (l : list pet_type)
| PetObject (p : pet_json)
| PetArray (l : list pet_json)
| Unhandled (e : exn).

Definition response : Type := (body * N)%type.

(** The body of a request as [request.get_json(silent=True)] returns it: a
    JSON object, or nothing usable.  Bodies that parse to a JSON value
    other than an object are outside the model. *)
Inductive payload : Type :=
| NoObject
| Object (data : dict json).

Record request : Type := mkRequest {
  is_json : bool;
  get_json : payload
}.

Definition json_error (message : string) (status : N) : response :=
  (Error message, status).

Definition server_error_from_ninja (status_code : N) : response :=
  (ServerError ("API response code " ++ str_of_N status_code), 500%N).

(** An exception no handler catches becomes a 500 answer. *)
Definition unhandled (e : exn) : response := (Unhandled e, 500%N).

Definition media_type_error : response :=
  json_error "Expected application/json media type" 415.

(** ** /pet-types *)

Definition create_pet_type (ev : env) (c : catalog) (rq : request)
  : response * catalog * list effect :=
  if negb (is_json rq) then (media_type_error, c, [])
  else
    match get_json rq with
    | NoObject => (json_error "Malformed data" 400, c, [])
    | Object data =>
        match data, get data "type" with
        | _ :: _, Some (JStr type_name) =>
            if pet_type_exists_by_name c type_name
            then (json_error "Malformed data" 400, c, [])
            else
              let '(fetched, called) := Ninja.fetch_pet_type_data (ninja ev) type_name in
              let effects :=
                Resolve type_name :: if called then [NinjaRequest type_name] else [] in
              match fetched with
              | Raise NinjaNotFound => (json_error "Malformed data" 400, c, effects)
              | Raise (NinjaApiError code) => (server_error_from_ninja code, c, effects)
              | Raise _ => ((ServerError "API call failed", 500%N), c, effects)
              | Return info =>
                  let '(pet_type_id, c1) := generate_pet_type_id c in
                  let pet_type_obj :=
                    mkPetType pet_type_id type_name (Ninja.family info)
                              (Ninja.genus info) (Ninja.attributes info)
                              (Ninja.lifespan info) [] in
                  ((PetTypeObject pet_type_obj, 201%N),
                   register_pet_type c1 pet_type_obj, effects)
              end
        | _, _ => (json_error "Malformed data" 400, c, [])
        end
    end.

(** [list_pet_types] for a request without query parameters. *)
Definition list_pet_types (c : catalog) : response :=
  (PetTypeArray (values (pet_types c)), 200%N).

Definition get_pet_type (c : catalog) (pet_type_id : string) : response :=
  match get (pet_types c) pet_type_id with
  | None => json_error "Not found" 404
  | Some pt => (PetTypeObject pt, 200%N)
  end.

Definition delete_pet_type (c : catalog) (pet_type_id : string)
  : response * catalog :=
  match get (pet_types c) pet_type_id with
  | None => (json_error "Not found" 404, c)
  | Some pt =>
      match pt_pets pt with
      | _ :: _ => (json_error "Malformed data" 400, c)
      | [] => ((Empty, 204%N), remove_pet_type c pet_type_id)
      end
  end.

Definition put_pet_type_not_allowed (pet_type_id : string) : response :=
  (Empty, 405%N).

(** ** /pet-types/{id}/pets *)

Definition _download_picture (ev : env) (picture_url : json)
  : result string * list effect :=
  match picture_get ev picture_url with
  | Raise e => (Raise e, [Download picture_url])
  | Return (status_code, content_type) =>
      if negb (status_code =? 200)%N
      then (Raise (NinjaApiError status_code), [Download picture_url])
      else
        let ext := if contains "png" (lower content_type) then ".png" else ".jpg" in
        let file_name :=
          "pet_" ++ str_of_N (Z.abs_N (py_hash ev picture_url)) ++ ext in
        (Return file_name, [Download picture_url; WriteFile file_name])
  end.

(** The birthdate check: anything but the string ["NA"] must parse. *)
Definition check_birthdate (v : json) : result string :=
  match v with
  | JStr s =>
      if s =? "NA" then Return s
      else match Dates.parse_date s with
           | Some _ => Return s
           | None => Raise ValueError
           end
  | _ => Raise ValueError
  end.

Definition field_or (data : dict json) (k : string) (default : json) : json :=
  match get data k with Some v => v | None => default end.

Definition _build_or_update_pet (ev : env) (data : dict json)
           (existing_pet : option pet) : result pet * list effect :=
  match get data "name" with
  | Some (JStr name) =>
      let picture_url := field_or data "picture-url" JNull in
      match check_birthdate (field_or data "birthdate" (JStr "NA")) with
      | Raise e => (Raise e, [])
      | Return birthdate =>
          (* starting values, then the values kept from the existing pet *)
          let '(birthdate, picture, picture_url, old_picture_file) :=
            match existing_pet with
            | None => (birthdate, "NA", picture_url, None)
            | Some ex =>
                let birthdate :=
                  if mem data "birthdate" then birthdate else Models.birthdate ex in
                if negb (mem data "picture-url")
                then (birthdate, Models.picture ex, Models.picture_url ex, None)
                else if eqb picture_url (Models.picture_url ex)
                     then (birthdate, Models.picture ex, picture_url, None)
                     else (birthdate, "NA", picture_url, Some (Models.picture ex))
            end in
          let changed :=
            match existing_pet with
            | None => true
            | Some ex => negb (picture =? Models.picture ex)
            end in
          let '(downloaded, effects) :=
            if truthy picture_url && changed
            then _download_picture ev picture_url
            else (Return picture, []) in
          match downloaded with
          | Raise e => (Raise e, effects)
          | Return picture =>
              let removal :=
                match old_picture_file with
                | Some f =>
                    if negb (f =? "") && negb (f =? "NA") then [RemoveFile f] else []
                | None => []
                end in
              (Return (mkPet name birthdate picture picture_url),
               (effects ++ removal)%list)
          end
      end
  | _ => (Raise ValueError, [])
  end.

Definition create_pet (ev : env) (c : catalog) (pet_type_id : string)
           (rq : request) : response * catalog * list effect :=
  if negb (mem (pet_types c) pet_type_id) then (json_error "Not found" 404, c, [])
  else if negb (is_json rq) then (media_type_error, c, [])
  else
    match get_json rq with
    | NoObject => (json_error "Malformed data" 400, c, [])
    | Object data =>
        match _build_or_update_pet ev data None with
        | (Raise ValueError, effects) => (json_error "Malformed data" 400, c, effects)
        | (Raise (NinjaApiError code), effects) =>
            (server_error_from_ninja code, c, effects)
        | (Raise e, effects) => (unhandled e, c, effects)
        | (Return internal_pet, effects) =>
            match add_pet c pet_type_id internal_pet with
            | (Raise e, c') => (unhandled e, c', effects)
            | (Return _, c') =>
                ((PetObject (pet_to_json internal_pet), 201%N), c', effects)
            end
        end
    end.

(** The filter of [list_pets]: a pet without birthdate never passes. *)
Definition birthdate_passes (test : Z -> bool) (bound : string) (p : pet_json)
  : result bool :=
  if pj_birthdate p =? "NA" then Return false
  else match Dates.compare_dates (pj_birthdate p) bound with
       | Some days => Return (test days)
       | None => Raise ValueError
       end.

Fixpoint filter_pets (keep : pet_json -> result bool) (l : list pet_json)
  : result (list pet_json) :=
  match l with
  | [] => Return []
  | p :: r =>
      k <- keep p ;;
      r' <- filter_pets keep r ;;
      Return (if k then p :: r' else r')
  end.

Definition given (arg : option string) : option string :=
  match arg with
  | Some s => if s =? "" then None else Some s
  | None => None
  end.

Definition parses (arg : option string) : bool :=
  match given arg with
  | Some s => match Dates.parse_date s with Some _ => true | None => false end
  | None => true
  end.

Definition list_pets (c : catalog) (pet_type_id : string)
           (birthdateGT birthdateLT : option string) : response :=
  if negb (mem (pet_types c) pet_type_id) then json_error "Not found" 404
  else
    let pets_map := get_pets_for_type c pet_type_id in
    let pets_list := map pet_to_json (values pets_map) in
    if negb (parses birthdateGT && parses birthdateLT)
    then json_error "Malformed data" 400
    else
      let filtered :=
        l1 <- match given birthdateGT with
              | Some gt => filter_pets (birthdate_passes (fun d => 0 <? d)%Z gt) pets_list
              | None => Return pets_list
              end ;;
        match given birthdateLT with
        | Some lt => filter_pets (birthdate_passes (fun d => d <? 0)%Z lt) l1
        | None => Return l1
        end in
      match filtered with
      | Return l => (PetArray l, 200%N)
      | Raise e => unhandled e
      end.

(** ** /pet-types/{id}/pets/{name} *)

Definition get_pet (c : catalog) (pet_type_id name : string) : response :=
  if negb (mem (pet_types c) pet_type_id) then json_error "Not found" 404
  else
    match get (get_pets_for_type c pet_type_id) (lower name) with
    | None => json_error "Not found" 404
    | Some pet => (PetObject (pet_to_json pet), 200%N)
    end.

Definition delete_pet_route (c : catalog) (pet_type_id name : string)
  : response * catalog * list effect :=
  if negb (mem (pet_types c) pet_type_id) then (json_error "Not found" 404, c, [])
  else
    match delete_pet c pet_type_id name with
    | (Raise e, c') => (unhandled e, c', [])
    | (Return None, c') => (json_error "Not found" 404, c', [])
    | (Return (Some pet), c') =>
        ((Empty, 204%N), c',
         if picture pet =? "NA" then [] else [RemoveFile (picture pet)])
    end.

Definition update_pet (ev : env) (c : catalog) (pet_type_id name : string)
           (rq : request) : response * catalog * list effect :=
  if negb (mem (pet_types c) pet_type_id) then (json_error "Not found" 404, c, [])
  else if negb (is_json rq) then (media_type_error, c, [])
  else
    match get_json rq with
    | NoObject => (json_error "Malformed data" 400, c, [])
    | Object data =>
        match get (get_pets_for_type c pet_type_id) (lower name) with
        | None => (json_error "Not found" 404, c, [])
        | Some existing =>
            match _build_or_update_pet ev data (Some existing) with
            | (Raise ValueError, effects) =>
                (json_error "Malformed data" 400, c, effects)
            | (Raise (NinjaApiError code), effects) =>
                (server_error_from_ninja code, c, effects)
            | (Raise e, effects) => (unhandled e, c, effects)
            | (Return internal_pet, effects) =>
                match add_pet c pet_type_id internal_pet with
                | (Raise e, c') => (unhandled e, c', effects)
                | (Return _, c') =>
                    ((PetObject (pet_to_json internal_pet), 200%N), c', effects)
                end
            end
        end
    end.

(** A pet has a picture file when its picture is a file name: the test
    [old_picture_file and old_picture_file != "NA"]. *)
Definition has_picture (p : pet) : bool :=
  negb (picture p =? "") && negb (picture p =? "NA").

(** ** Counting effects *)

Definition is_download (e : effect) : bool :=
  match e with Download _ => true | _ => false end.

Definition is_removal (e : effect) : bool :=
  match e with RemoveFile _ => true | _ => false end.

Definition downloads (fx : list effect) : nat :=
  List.length (filter is_download fx).

Definition removals (fx : list effect) : nat :=
  List.length (filter is_removal fx).

End Petstore.

(* ================================================================= *)
(** * The order service: [pet-order/app.py] *)

Module PetOrder.
Import Py Models.

Definition PETSTORE1 : string := "http://petstore1:5001".
Definition PETSTORE2 : string := "http://petstore2:5001".

Record transaction : Type := mkTransaction {
  purchaser : string;
  pet_type : string;
  store : Z;
  pet_name : string;
  purchase_id : string
}.

(** The outside world of the order service, as state [W] with the calls
    the handler makes: the three HTTP requests to a catalogue instance,
    the index [random.choice] draws for a list of the given length, and
    [uuid.uuid4].  A request either returns a status code (with the decoded
    array of objects, for the two GETs) or raises: the exception of
    [requests] when no answer arrives or the URL is refused, or the one
    that decoding or indexing the body raises when a body answered with 200
    is no array of objects with the expected keys. *)
Class Remote (W : Type) : Type := {
  http_get_pet_types : string -> W -> result (N * list Models.pet_type) * W;
  http_get_pets : string -> string -> W -> result (N * list pet_json) * W;
  http_delete_pet : string -> string -> string -> W -> result N * W;
  random_index : nat -> W -> nat * W;
  uuid4 : W -> string * W
}.

(** The requests sent to the catalogue instances, oldest first. *)
Inductive call : Type :=
| GetPetTypes (store_url : string)
| GetPets (store_url pet_type_id : string)
| DeletePet (store_url pet_type_id pet_name : string).

Definition call_url (k : call) : string :=
  match k with
  | GetPetTypes u => u
  | GetPets u _ => u
  | DeletePet u _ _ => u
  end.

Inductive body : Type :=
| Empty
| Error (msg : string)
| TransactionObject (t : transaction)
| Unhandled (e : exn).

Definition response : Type := (body * N)%type.

Inductive payload : Type :=
| NoObject
| Object (data : dict json).

Record request : Type := mkRequest {
  is_json : bool;
  get_json : payload
}.

(** The dict [transaction] of the handler.  It is built with the five keys
    of a transaction; [insert_one] adds the key [_id] to the very dict it is
    given, with the [ObjectId] under which the document is stored. *)
Inductive document : Type :=
| Built (t : transaction)
| WithId (t : transaction).

(** [transactions.insert_one(transaction)]: the collection grows by the
    document, and the dict now carries [_id].  The collection is kept as
    the list of its documents without their [_id], which is how
    [list_transactions] reads them back. *)
Definition insert_one (d : document) (collection : list transaction)
  : document * list transaction :=
  match d with
  | Built t => (WithId t, (collection ++ [t])%list)
  | WithId t => (WithId t, (collection ++ [t])%list)
  end.

(** [jsonify(transaction)]: strings and integers are encoded; an [ObjectId]
    is not, the encoder raises [TypeError] on it. *)
Definition jsonify (d : document) : result body :=
  match d with
  | Built t => Return (TransactionObject t)
  | WithId _ => Raise TypeError
  end.

(** The service's state: the transactions collection, the outside world,
    and the trace of requests sent. *)
Record state (W : Type) : Type := mkState {
  transactions : list transaction;
  world : W;
  trace : list call
}.
Arguments mkState {W}.
Arguments transactions {W}.
Arguments world {W}.
Arguments trace {W}.

Definition json_error (msg : string) (code : N) : response := (Error msg, code).

(** An exception no handler catches becomes a 500 answer. *)
Definition unhandled (e : exn) : response := (Unhandled e, 500%N).

Definition field (data : dict json) (k : string) : json :=
  match get data k with Some v => v | None => JNull end.

Section Handlers.
Context {W : Type} {R : Remote W}.

Definition sent (k : call) (w : W) (s : state W) : state W :=
  mkState (transactions s) w (trace s ++ [k])%list.

Definition get_pet_type_id (store_url pet_type : string) (s : state W)
  : result (option string) * state W :=
  let '(r, w) := http_get_pet_types store_url (world s) in
  let s' := sent (GetPetTypes store_url) w s in
  match r with
  | Raise e => (Raise e, s')
  | Return (status_code, types) =>
      if negb (status_code =? 200)%N then (Return None, s')
      else
        (Return (option_map pt_id
                   (find (fun pt => lower (pt_type pt) =? lower pet_type) types)),
         s')
  end.

Definition get_pets (store_url pet_type_id : string) (s : state W)
  : result (list pet_json) * state W :=
  let '(r, w) := http_get_pets store_url pet_type_id (world s) in
  let s' := sent (GetPets store_url pet_type_id) w s in
  match r with
  | Raise e => (Raise e, s')
  | Return (status_code, pets) =>
      if negb (status_code =? 200)%N then (Return [], s') else (Return pets, s')
  end.

Definition delete_pet (store_url pet_type_id pet_name : string) (s : state W)
  : result N * state W :=
  let '(r, w) := http_delete_pet store_url pet_type_id pet_name (world s) in
  (r, sent (DeletePet store_url pet_type_id pet_name) w s).

(** [random.choice(pets)] on a non-empty list. *)
Definition random_choice (p0 : pet_json) (pets : list pet_json) (s : state W)
  : pet_json * state W :=
  let '(i, w) := random_index (length (p0 :: pets)) (world s) in
  (nth (i mod length (p0 :: pets)) (p0 :: pets) p0,
   mkState (transactions s) w (trace s)).

(** A selection: store id, store URL, pet-type id, pet name. *)
Definition selection : Type := (Z * string * string * string)%type.

(** The inner loop over the listed pets when a name was asked for;
    [.lower()] on a name that is not a string raises. *)
Definition find_named (pet_name : json) (pets : list pet_json)
  : result (option pet_json) :=
  match pets with
  | [] => Return None
  | _ :: _ =>
      match pet_name with
      | JStr wanted =>
          Return (find (fun p => lower (pj_name p) =? lower wanted) pets)
      | _ => Raise AttributeError
      end
  end.

(** The loop over [stores_to_check].  An exception leaves the loop and the
    handler. *)
Fixpoint choose (stores_to_check : list (Z * string)) (pet_type : string)
         (pet_name : json) (s : state W) : result (option selection) * state W :=
  match stores_to_check with
  | [] => (Return None, s)
  | (store_id, store_url) :: rest =>
      let '(found, s1) := get_pet_type_id store_url pet_type s in
      match found with
      | Raise e => (Raise e, s1)
      | Return None => choose rest pet_type pet_name s1
      | Return (Some pet_type_id) =>
          if pet_type_id =? "" then choose rest pet_type pet_name s1
          else
            let '(listed, s2) := get_pets store_url pet_type_id s1 in
            match listed with
            | Raise e => (Raise e, s2)
            | Return [] => choose rest pet_type pet_name s2
            | Return (p0 :: others) =>
                if truthy pet_name then
                  match find_named pet_name (p0 :: others) with
                  | Raise e => (Raise e, s2)
                  | Return (Some p) =>
                      (Return (Some (store_id, store_url, pet_type_id, pj_name p)), s2)
                  | Return None => choose rest pet_type pet_name s2
                  end
                else
                  let '(p, s3) := random_choice p0 others s2 in
                  (Return (Some (store_id, store_url, pet_type_id, pj_name p)), s3)
            end
      end
  end.

Definition stores_for (store : json) : list (Z * string) :=
  if eqb store (JInt 1) then [(1%Z, PETSTORE1)]
  else if eqb store (JInt 2) then [(2%Z, PETSTORE2)]
  else [(1%Z, PETSTORE1); (2%Z, PETSTORE2)].

Definition is_none (v : json) : bool :=
  match v with JNull => true | _ => false end.

Definition create_purchase (rq : request) (s : state W) : response * state W :=
  if negb (is_json rq)
  then (json_error "Expected application/json media type" 415, s)
  else
    match get_json rq with
    | NoObject => (json_error "Malformed data" 400, s)
    | Object data =>
        let store := field data "store" in
        let pet_name := field data "pet-name" in
        match field data "purchaser", field data "pet-type" with
        | JStr purchaser, JStr pet_type =>
            if negb (is_none store)
               && negb (eqb store (JInt 1) || eqb store (JInt 2))
            then (json_error "Malformed data" 400, s)
            else if is_none store && negb (is_none pet_name)
            then (json_error "Malformed data" 400, s)
            else
              match choose (stores_for store) pet_type pet_name s with
              | (Raise e, s1) => (unhandled e, s1)
              | (Return None, s1) =>
                  (json_error "No pet of this type is available" 400, s1)
              | (Return (Some (store_id, store_url, pet_type_id, pet_name)), s1) =>
                  let '(deleted, s2) := delete_pet store_url pet_type_id pet_name s1 in
                  match deleted with
                  | Raise e => (unhandled e, s2)
                  | Return status =>
                      if negb (status =? 204)%N
                      then (json_error "No pet of this type is available" 400, s2)
                      else
                        let '(purchase_id, w) := uuid4 (world s2) in
                        let transaction :=
                          Built (mkTransaction purchaser pet_type store_id pet_name
                                               purchase_id) in
                        let '(transaction, collection) :=
                          insert_one transaction (transactions s2) in
                        let s3 := mkState collection w (trace s2) in
                        match jsonify transaction with
                        | Return b => ((b, 201%N), s3)
                        | Raise e => (unhandled e, s3)
                        end
                  end
              end
        | _, _ => (json_error "Malformed data" 400, s)
        end
    end.

End Handlers.

End PetOrder.

(* ================================================================= *)
(** * The deployment: two catalogue instances behind the order service *)

Module Deploy.
Import Py Models.

(** ** From the URL the order service builds to the handler that serves it

    The order service pastes the pet-type id and the pet name into the URL
    as they are.  A segment made of ASCII letters, digits, [-] and [_]
    reaches the handler unchanged.  Any other segment (empty, or with [/],
    [?], [#], [%], a dot, a space, ...) goes through the URL handling of
    the HTTP client and the routing of the server, which are no code of the
    repository: what the instance then serves is an argument, the [wire]. *)
Definition plain_char (c : ascii) : bool :=
  between 48 57 c || between 65 90 c || between 97 122 c
  || (code c =? 45)%nat || (code c =? 95)%nat.

Definition plain (segment : string) : bool :=
  negb (segment =? "") && forallb plain_char (list_ascii_of_string segment).

(** What a DELETE is delivered to: the route of a pet, the route of a
    pet-type, no route at all (the server answers with a status of its
    own), or nothing because the client refuses the URL. *)
Inductive delivery : Type :=
| PetRoute (pet_type_id name : string)
| TypeRoute (pet_type_id : string)
| Unrouted (status : N)
| Refused (e : exn).

Record wire : Type := mkWire {
  stray_pets : string -> catalog -> result (N * list pet_json);
  stray_delete : string -> string -> delivery
}.

(** The world the order service talks to: the catalogues of the two
    instances, the numbers [random] will draw, the number of identifiers
    [uuid4] has issued, the picture files the instances removed, and the
    wire.  Requests and answers are not lost. *)
Record world : Type := mkWorld {
  petstore1 : catalog;
  petstore2 : catalog;
  draws : list nat;
  issued : N;
  removed : list Petstore.effect;
  wiring : wire
}.

Definition instance_at (store_url : string) (w : world) : option catalog :=
  if store_url =? PetOrder.PETSTORE1 then Some (petstore1 w)
  else if store_url =? PetOrder.PETSTORE2 then Some (petstore2 w)
  else None.

Definition put_instance (store_url : string) (c : catalog)
           (fx : list Petstore.effect) (w : world) : world :=
  if store_url =? PetOrder.PETSTORE1
  then mkWorld c (petstore2 w) (draws w) (issued w) (removed w ++ fx)%list (wiring w)
  else mkWorld (petstore1 w) c (draws w) (issued w) (removed w ++ fx)%list (wiring w).


Definition get_pets (store_url pet_type_id : string) (w : world)
  : result (N * list pet_json) * world :=
  match instance_at store_url w with
  | None => (Raise RequestError, w)
  | Some c =>
      if plain pet_type_id then
        match Petstore.list_pets c pet_type_id None None with
        | (Petstore.PetArray l, status) => (Return (status, l), w)
        | (_, status) => (Return (status, []), w)
        end
      else (stray_pets (wiring w) pet_type_id c, w)
  end.

(** Where the DELETE for a pet arrives. *)
Definition deliver (w : world) (pet_type_id pet_name : string) : delivery :=
  if plain pet_type_id && plain pet_name then PetRoute pet_type_id pet_name
  else stray_delete (wiring w) pet_type_id pet_name.

(** The instance serving what was delivered to it. *)
Definition serve (c : catalog) (d : delivery)
  : result N * catalog * list Petstore.effect :=
  match d with
  | PetRoute pet_type_id name =>
      let '(resp, c', fx) := Petstore.delete_pet_route c pet_type_id name in
      (Return (snd resp), c', fx)
  | TypeRoute pet_type_id =>
      let '(resp, c') := Petstore.delete_pet_type c pet_type_id in
      (Return (snd resp), c', [])
  | Unrouted status => (Return status, c, [])
  | Refused e => (Raise e, c, [])
  end.

Definition delete_pet (store_url pet_type_id pet_name : string) (w : world)
  : result N * world :=
  match instance_at store_url w with
  | None => (Raise RequestError, w)
  | Some c =>
      let '(r, c', fx) := serve c (deliver w pet_type_id pet_name) in
      (r, put_instance store_url c' fx w)
  end.




(** ** Histories of one catalogue instance

    The requests that change a catalogue, each with the outside world it
    ran in. *)
Inductive op : Type :=
| CreatePetType (ev : Petstore.env) (rq : Petstore.request)
| DeletePetType (pet_type_id : string)
| CreatePet (ev : Petstore.env) (pet_type_id : string) (rq : Petstore.request)
| UpdatePet (ev : Petstore.env) (pet_type_id name : string) (rq : Petstore.request)
| DeletePet (pet_type_id name : string).

Definition step (c : catalog) (o : op) : catalog :=
  match o with
  | CreatePetType ev rq => snd (fst (Petstore.create_pet_type ev c rq))
  | DeletePetType tid => snd (Petstore.delete_pet_type c tid)
  | CreatePet ev tid rq => snd (fst (Petstore.create_pet ev c tid rq))
  | UpdatePet ev tid n rq => snd (fst (Petstore.update_pet ev c tid n rq))
  | DeletePet tid n => snd (fst (Petstore.delete_pet_route c tid n))
  end.

(** The catalogue a fresh instance holds after serving [ops] in order. *)
Definition run (ops : list op) : catalog := fold_left step ops empty_catalog.

(** Deleting the pets called [names] of one type, one request each. *)
Definition delete_pets (c : catalog) (pet_type_id : string) (names : list string)
  : catalog :=
  fold_left step (map (DeletePet pet_type_id) names) c.

(** ** Sample requests and worlds *)

(** An instance without API key whose every outgoing request fails. *)
Definition offline : Petstore.env :=
  Petstore.mkEnv (Ninja.mkUpstream None (fun _ _ => Raise RequestError))
                 (fun _ => Raise RequestError) (fun _ => 0%Z).

(** An instance whose picture downloads succeed with a PNG. *)
Definition pictures_ok : Petstore.env :=
  Petstore.mkEnv (Ninja.mkUpstream None (fun _ _ => Raise RequestError))
                 (fun _ => Return (200%N, "image/png"))
                 (fun v => match v with
                           | JStr s => Z.of_nat (String.length s)
                           | _ => 0%Z
                           end).

(** An instance whose picture downloads are answered 404. *)
Definition pictures_missing : Petstore.env :=
  Petstore.mkEnv (Ninja.mkUpstream None (fun _ _ => Raise RequestError))
                 (fun _ => Return (404%N, "text/html")) (fun _ => 0%Z).

Definition post (data : dict json) : Petstore.request :=
  Petstore.mkRequest true (Petstore.Object data).

Definition purchase (data : dict json) : PetOrder.request :=
  PetOrder.mkRequest true (PetOrder.Object data).

Definition new_type (type_name : string) : op :=
  CreatePetType offline (post [("type", JStr type_name)]).

Definition new_pet (pet_type_id name : string) : op :=
  CreatePet offline pet_type_id (post [("name", JStr name)]).

Definition new_pet_with_picture (pet_type_id name url : string) : op :=
  CreatePet pictures_ok pet_type_id
            (post [("name", JStr name); ("picture-url", JStr url)]).

(** A wire for the examples, whose ids and names are all plain: it is not
    consulted there.  On it a segment that is not plain finds no route. *)
Definition no_route : wire :=
  mkWire (fun _ _ => Return (404%N, [])) (fun _ _ => Unrouted 404).

Definition start (c1 c2 : catalog) : PetOrder.state world :=
  PetOrder.mkState [] (mkWorld c1 c2 [] 0 [] no_route) [].

End Deploy.

(* ================================================================= *)
(** * A scripted remote: catalogue instances that answer from a table *)

Module Scripted.
Import Py Models.

(** The answers of the instances, fixed in advance; nothing changes when a
    request is served.  With such a world an instance can list a pet and
    then refuse to delete it, as when another purchase took it in
    between, or not answer at all. *)
Record script : Type := mkScript {
  types_answer : string -> result (N * list pet_type);
  pets_answer : string -> string -> result (N * list pet_json);
  delete_answer : string -> string -> string -> result N
}.

#[global] Instance answers : PetOrder.Remote script := {
  http_get_pet_types := fun url w => (types_answer w url, w);
  http_get_pets := fun url tid w => (pets_answer w url tid, w);
  http_delete_pet := fun url tid n w => (delete_answer w url tid n, w);
  random_index := fun _ w => (O, w);
  uuid4 := fun w => ("0b5a8c1e-7f2d-4e3a-9c46-1d2e3f4a5b6c", w)
}.

Definition bulldog : pet_type :=
  mkPetType "1" "Bulldog" "Canidae" "Canis"
            ["Gentle"; "calm"; "and"; "affectionate"] None ["Rex"].

(** Both instances list the bulldog Rex; deleting it answers [status]. *)
Definition rex_everywhere (status : N) : script :=
  mkScript (fun _ => Return (200%N, [bulldog]))
           (fun _ _ => Return (200%N, [mkPetJson "Rex" "NA" "NA"]))
           (fun _ _ _ => Return status).


(** Instance 1 has no pet-type; instance 2 lists the bulldog Max and
    deletes it with 204. *)
Definition max_at_store_2 : script :=
  mkScript (fun url => if url =? PetOrder.PETSTORE2
                       then Return (200%N, [mkPetType "1" "Bulldog" "Canidae" "Canis"
                                              ["Gentle"; "calm"; "and"; "affectionate"]
                                              None ["Max"]])
                       else Return (200%N, []))
           (fun url _ => if url =? PetOrder.PETSTORE2
                         then Return (200%N, [mkPetJson "Max" "NA" "NA"])
                         else Return (404%N, []))
           (fun url _ n => if (url =? PetOrder.PETSTORE2) && (n =? "Max")
                           then Return 204%N else Return 404%N).

Definition start (w : script) : PetOrder.state script :=
  PetOrder.mkState [] w [].

End Scripted.

(* ================================================================= *)
(** * Consistency of a catalogue *)

Module Consistency.
Import Py Models.

(** What the three dictionaries and the per-type name lists of a catalogue
    have to do with one another. *)
Record consistent (c : catalog) : Prop := mkConsistent {
  types_keys : NoDup (keys (pet_types c));
  type_ids : forall tid pt,
    get (pet_types c) tid = Some pt -> pt_id pt = tid /\ tid <> "";
  type_names_unique : forall t1 p1 t2 p2,
    get (pet_types c) t1 = Some p1 -> get (pet_types c) t2 = Some p2 ->
    lower (pt_type p1) = lower (pt_type p2) -> t1 = t2;
  type_names_indexed : forall tid pt,
    get (pet_types c) tid = Some pt ->
    mem (type_name_to_id c) (lower (pt_type pt)) = true;
  stores_keys : NoDup (keys (pets_by_type c));
  pets_keys : forall tid pets,
    get (pets_by_type c) tid = Some pets -> NoDup (keys pets);
  pet_key : forall tid pets k p,
    get (pets_by_type c) tid = Some pets -> get pets k = Some p ->
    k = lower (name p);
  stored_listed : forall tid pt k p,
    get (pet_types c) tid = Some pt ->
    get (get_pets_for_type c tid) k = Some p ->
    In (name p) (pt_pets pt);
  listed_stored : forall tid pt n,
    get (pet_types c) tid = Some pt -> In n (pt_pets pt) ->
    mem (get_pets_for_type c tid) (lower n) = true;
  listed_once : forall tid pt,
    get (pet_types c) tid = Some pt -> NoDup (pt_pets pt)
}.

(** The names of the pets stored for a type, in dictionary order. *)
Definition stored_names (c : catalog) (pet_type_id : string) : list string :=
  map name (values (get_pets_for_type c pet_type_id)).

(** A type registered under a name that equals [type_name] up to case. *)
Definition registered (c : catalog) (type_name : string) : Prop :=
  exists tid pt,
    get (pet_types c) tid = Some pt /\ lower (pt_type pt) = lower type_name.

(** [c] has a pet of the species in stock. *)
Definition in_stock (c : catalog) (type_name : string) : Prop :=
  exists tid pt,
    get (pet_types c) tid = Some pt /\ lower (pt_type pt) = lower type_name /\
    get_pets_for_type c tid <> [].

(** [c] has no such type, or no pet of it. *)
Definition out_of_stock (c : catalog) (type_name : string) : Prop :=
  forall tid pt,
    get (pet_types c) tid = Some pt -> lower (pt_type pt) = lower type_name ->
    get_pets_for_type c tid = [].

End Consistency.

(* ================================================================= *)
(** * Listing pet-types with query parameters: [list_pet_types] *)

Module Listing.
Import Py Models.

(** White space as [int] skips it around the digits of an ASCII string:
    tab, LF, VT, FF, CR and the space. *)
Definition is_int_space (c : ascii) : bool :=
  between 9 13 c || (code c =? 32)%nat.

Fixpoint lstrip_int (s : string) : string :=
  match s with
  | String c r => if is_int_space c then lstrip_int r else s
  | EmptyString => EmptyString
  end.

Definition strip_int (s : string) : string :=
  rev (lstrip_int (rev (lstrip_int s))).

(** The digits of [int(s)]: decimal digits, single underscores allowed
    between two digits. *)
Fixpoint digits_value (after_digit : bool) (acc : Z) (s : string) : option Z :=
  match s with
  | EmptyString => if after_digit then Some acc else None
  | String c r =>
      if is_digit c then digits_value true (10 * acc + digit_val c) r
      else if Ascii.eqb c "_" && after_digit then digits_value false acc r
      else None
  end.

Fixpoint count_digits (s : string) : nat :=
  match s with
  | EmptyString => O
  | String c r => if is_digit c then S (count_digits r) else count_digits r
  end.

(** The interpreter's limit on the digits of a decimal string it converts
    ([sys.int_info.default_max_str_digits]). *)
Definition MAX_STR_DIGITS : nat := 4300.

Definition limited_digits (s : string) : option Z :=
  if (count_digits s <=? MAX_STR_DIGITS)%nat then digits_value false 0 s else None.

(** [int(s)] on an ASCII string: surrounding white space, an optional sign,
    then the digits, at most [MAX_STR_DIGITS] of them; [None] stands for
    the [ValueError]. *)
Definition py_int (s : string) : option Z :=
  match strip_int s with
  | String "+" r => limited_digits r
  | String "-" r => option_map Z.opp (limited_digits r)
  | t => limited_digits t
  end.

(** [str(pt[field])] for the four text fields. *)
Definition text_field (field : string) (pt : pet_type) : string :=
  if field =? "id" then pt_id pt
  else if field =? "type" then pt_type pt
  else if field =? "family" then pt_family pt
  else pt_genus pt.

Definition lifespan_is (value_int : Z) (pt : pet_type) : bool :=
  match pt_lifespan pt with
  | Some l => (l =? value_int)%Z
  | None => false
  end.

Definition text_is (field value : string) (pt : pet_type) : bool :=
  lower (text_field field pt) =? lower value.

Definition has_attribute (has_attr : string) (pt : pet_type) : bool :=
  existsb (fun a => lower a =? lower has_attr) (pt_attributes pt).

(** One [field=value] filter; [None] is the 400 of a lifespan that is no
    integer. *)
Definition keep_by (field value : string) (result : list pet_type)
  : option (list pet_type) :=
  if field =? "lifespan" then
    match py_int value with
    | None => None
    | Some value_int => Some (filter (lifespan_is value_int) result)
    end
  else Some (filter (text_is field value) result).

(** The loop over the fields present among the query parameters. *)
Fixpoint apply_field_filters (fields : list string) (args : dict string)
         (result : list pet_type) : option (list pet_type) :=
  match fields with
  | [] => Some result
  | field :: rest =>
      match get args field with
      | None => apply_field_filters rest args result
      | Some value =>
          match keep_by field value result with
          | None => None
          | Some kept => apply_field_filters rest args kept
          end
      end
  end.

Definition query_fields : list string :=
  ["id"; "type"; "family"; "genus"; "lifespan"].

(** What the filter [field=value] asks of a pet-type. *)
Definition meets (field value : string) (pt : pet_type) : Prop :=
  if field =? "lifespan"
  then exists z, py_int value = Some z /\ pt_lifespan pt = Some z
  else lower (text_field field pt) = lower value.

(** [list_pet_types]; [args] holds the first value of each query
    parameter. *)
Definition list_pet_types (c : catalog) (args : dict string) : Petstore.response :=
  match apply_field_filters query_fields args (values (pet_types c)) with
  | None => Petstore.json_error "Malformed data" 400
  | Some result =>
      let result :=
        match get args "hasAttribute" with
        | Some has_attr => filter (has_attribute has_attr) result
        | None => result
        end in
      (Petstore.PetTypeArray result, 200%N)
  end.

End Listing.

(* ================================================================= *)
(** * Listing the transactions: [list_transactions] *)

Module Transactions.
Import Py PetOrder.

Definition OWNER_HEADER : string := "OwnerPC".
Definition OWNER_VALUE : string := "LovesPetsL2M3n4".

(** A value of the query document. *)
Inductive qvalue : Type :=
| QInt (z : Z)
| QStr (s : string).

(** The loop that builds [query] from the query parameters: a store that is
    no integer is skipped. *)
Fixpoint build_query (args : dict string) (query : dict qvalue) : dict qvalue :=
  match args with
  | [] => query
  | (k, v) :: rest =>
      if k =? "store" then
        match Listing.py_int v with
        | Some z => build_query rest (set query k (QInt z))
        | None => build_query rest query
        end
      else build_query rest (set query k (QStr v))
  end.

Inductive body : Type :=
| Nothing
| TransactionArray (l : list transaction)
| Unhandled (e : exn).

(** What [transactions.find(query, {"_id": 0})] gives for a query document:
    the documents the database selects, without their [_id], or the
    exception the driver raises.  The database is no code of the
    repository: its answer is an argument. *)
Definition collection : Type := dict qvalue -> result (list transaction).

(** [list_transactions], given the value of the [OwnerPC] header, the first
    value of each query parameter and the collection. *)
Definition list_transactions (owner : option string) (args : dict string)
           (transactions : collection) : body * N :=
  let authorized :=
    match owner with
    | Some v => v =? OWNER_VALUE
    | None => false
    end in
  if negb authorized then (Nothing, 401%N)
  else
    let query := build_query args [] in
    match transactions query with
    | Return result => (TransactionArray result, 200%N)
    | Raise e => (Unhandled e, 500%N)
    end.

End Transactions.

(* ================================================================= *)
(** * Further invariants of a catalogue *)

Module Tidiness.
Import Py Models.

(** The calendar order on dates. *)
Definition before (a b : Dates.date) : Prop :=
  (Dates.year a < Dates.year b \/
   (Dates.year a = Dates.year b /\
    (Dates.month a < Dates.month b \/
     (Dates.month a = Dates.month b /\ Dates.day a < Dates.day b))))%Z.

Definition birthdate_ok (p : pet) : Prop :=
  birthdate p = "NA" \/ Dates.parse_date (birthdate p) <> None.

(** Ids come from the counter, the name index points at registered types,
    pets are stored for registered types only, and stored birthdates are
    unset or parse. *)
Record tidy (c : catalog) : Prop := mkTidy {
  ids_issued : forall tid pt,
    get (pet_types c) tid = Some pt ->
    exists n, tid = str_of_N n /\ (n < next_pet_type_id c)%N;
  index_keys : NoDup (keys (type_name_to_id c));
  index_sound : forall k tid,
    get (type_name_to_id c) k = Some tid ->
    exists pt, get (pet_types c) tid = Some pt /\ lower (pt_type pt) = k;
  pets_of_types : forall tid,
    mem (pets_by_type c) tid = true -> mem (pet_types c) tid = true;
  birthdates : forall tid pets k p,
    get (pets_by_type c) tid = Some pets -> get pets k = Some p ->
    birthdate_ok p
}.

End Tidiness.

(* ================================================================= *)
(** * Texts *)

Module Text.
Import Py.

(** The strings on which [str.lower], [str.split], [\d] and [int] are
    modelled exactly: those of 7-bit characters. *)
Definition ascii_char (c : ascii) : bool := (code c <? 128)%nat.

Definition ascii_text (s : string) : bool :=
  forallb ascii_char (list_ascii_of_string s).

(** A number written in a text: a non-empty string of digits that occurs
    in the text with no digit right before it and no digit right after
    it. *)
Definition run_in (text : list ascii) (r : string) : Prop :=
  r <> "" /\ all_digits r = true /\
  exists pre post,
    text = (pre ++ list_ascii_of_string r ++ post)%list /\
    (forall pre' c, pre = (pre' ++ [c])%list -> is_digit c = false) /\
    (forall c post', post = c :: post' -> is_digit c = false).

Definition written_in (text r : string) : Prop :=
  run_in (list_ascii_of_string text) r.

End Text.

(* ================================================================= *)
(** * The requests of a purchase *)

Module Traffic.
Import PetOrder.

Definition is_deletion (k : call) : bool :=
  match k with
  | DeletePet _ _ _ => true
  | _ => false
  end.

(** The address of the instance with a given store number. *)
Definition store_url (n : Z) : string :=
  if (n =? 1)%Z then PETSTORE1 else PETSTORE2.


End Traffic.

(* ================================================================= *)
(** * Properties *)

Import Py Models.
Open Scope list_scope.

(** ** Dictionaries *)

Section DictFacts.
Context {V : Type}.
Implicit Types (d : dict V) (k : string) (v : V).

Lemma get_set_same d k v : get (set d k v) k = Some v.
Proof.
  induction d as [|[k' v'] d IH]; simpl.
  - now rewrite String.eqb_refl.
  - destruct (k' =? k) eqn:E; simpl; now rewrite E.
Qed.

Lemma get_set_other d k k' v : k <> k' -> get (set d k v) k' = get d k'.
Proof.
  intros Hne.
  induction d as [|[k0 v0] d IH]; simpl.
  - destruct (k =? k') eqn:E; [apply String.eqb_eq in E; contradiction | reflexivity].
  - destruct (k0 =? k) eqn:E; simpl.
    + apply String.eqb_eq in E; subst k0.
      destruct (k =? k') eqn:E'; [apply String.eqb_eq in E'; contradiction | reflexivity].
    + now rewrite IH.
Qed.

Lemma get_set d k k' v :
  get (set d k v) k' = if k =? k' then Some v else get d k'.
Proof.
  destruct (k =? k') eqn:E.
  - apply String.eqb_eq in E; subst; apply get_set_same.
  - apply String.eqb_neq in E; now apply get_set_other.
Qed.

Lemma mem_get d k : mem d k = true <-> exists v, get d k = Some v.
Proof.
  unfold mem; destruct (get d k); split; intros H; eauto; try discriminate.
  now destruct H.
Qed.

Lemma mem_false d k : mem d k = false <-> get d k = None.
Proof. unfold mem; destruct (get d k); split; intros; congruence. Qed.

Lemma mem_In_keys d k : mem d k = true <-> In k (keys d).
Proof.
  unfold mem. induction d as [|[k' v'] d IH]; simpl.
  - split; [discriminate | contradiction].
  - destruct (String.eqb_spec k' k) as [->|Hne].
    + split; auto.
    + rewrite IH. split; [auto | intros [E|H]; [contradiction | exact H]].
Qed.

Lemma get_In d k v : get d k = Some v -> In (k, v) d.
Proof.
  induction d as [|[k' v'] d IH]; simpl; [discriminate|].
  destruct (String.eqb_spec k' k) as [->|Hne].
  - intros [= ->]. now left.
  - intros H. right. auto.
Qed.

Lemma In_get d k v : NoDup (keys d) -> In (k, v) d -> get d k = Some v.
Proof.
  induction d as [|[k' v'] d IH]; simpl; [contradiction|].
  intros Hnd [E|Hin].
  - injection E as -> ->. now rewrite String.eqb_refl.
  - inversion Hnd as [|? ? Hnotin Hnd']; subst.
    destruct (String.eqb_spec k' k) as [->|Hne]; [|auto].
    exfalso. apply Hnotin. unfold keys.
    change k with (fst (k, v)). now apply in_map.
Qed.

Lemma keys_set d k v :
  keys (set d k v) = if mem d k then keys d else keys d ++ [k].
Proof.
  unfold mem. induction d as [|[k' v'] d IH]; simpl; [reflexivity|].
  destruct (k' =? k) eqn:E; simpl; [reflexivity|].
  rewrite IH. now destruct (get d k).
Qed.

Lemma NoDup_keys_set d k v : NoDup (keys d) -> NoDup (keys (set d k v)).
Proof.
  intros Hnd. rewrite keys_set.
  destruct (mem d k) eqn:E; [exact Hnd|].
  apply NoDup_app; [exact Hnd | repeat constructor; intros [] |].
  intros x Hx [<-|[]].
  apply mem_In_keys in Hx. congruence.
Qed.

Lemma In_keys_pop d k k' : In k' (keys (pop d k)) -> In k' (keys d).
Proof.
  induction d as [|[k0 v0] d IH]; simpl; [auto|].
  destruct (k0 =? k); simpl; [auto|].
  intros [E|H]; auto.
Qed.

Lemma NoDup_keys_pop d k : NoDup (keys d) -> NoDup (keys (pop d k)).
Proof.
  induction d as [|[k0 v0] d IH]; simpl; [auto|].
  intros Hnd. inversion Hnd as [|? ? Hnotin Hnd']; subst.
  destruct (k0 =? k); simpl; [exact Hnd'|].
  constructor; [|auto].
  intros Hin. apply Hnotin. eapply In_keys_pop; eauto.
Qed.

Lemma get_pop_other d k k' : k <> k' -> get (pop d k) k' = get d k'.
Proof.
  intros Hne. induction d as [|[k0 v0] d IH]; simpl; [reflexivity|].
  destruct (String.eqb_spec k0 k) as [->|Hk]; simpl.
  - destruct (String.eqb_spec k k'); [contradiction | reflexivity].
  - now rewrite IH.
Qed.

Lemma get_pop_same d k : NoDup (keys d) -> get (pop d k) k = None.
Proof.
  induction d as [|[k0 v0] d IH]; simpl; [reflexivity|].
  intros Hnd. inversion Hnd as [|? ? Hnotin Hnd']; subst.
  destruct (String.eqb_spec k0 k) as [->|Hk]; simpl.
  - apply mem_false. destruct (mem d k) eqn:E; [|reflexivity].
    apply mem_In_keys in E. contradiction.
  - destruct (String.eqb_spec k0 k); [contradiction | auto].
Qed.

Lemma get_pop_Some d k k' v :
  NoDup (keys d) -> get (pop d k) k' = Some v -> k <> k' /\ get d k' = Some v.
Proof.
  intros Hnd H.
  destruct (String.eqb_spec k k') as [->|Hne].
  - rewrite get_pop_same in H by exact Hnd. discriminate.
  - split; [exact Hne|]. now rewrite get_pop_other in H.
Qed.

End DictFacts.

(** ** Dates *)

(** C10: for valid day-month-year strings A and B, [compare_dates] returns
    on both orders of the pair, compare(A,B) > 0 exactly when
    compare(B,A) < 0, and compare(A,A) = 0. *)
Theorem compare_dates_antisymmetric (A B : string) :
  Dates.valid_date A -> Dates.valid_date B ->
  exists ab ba : Z,
    Dates.compare_dates A B = Some ab /\
    Dates.compare_dates B A = Some ba /\
    (ab > 0 <-> ba < 0)%Z /\
    Dates.compare_dates A A = Some 0%Z.
Proof.
  unfold Dates.valid_date, Dates.compare_dates.
  destruct (Dates.parse_date A) as [a|]; [|congruence].
  destruct (Dates.parse_date B) as [b|]; [|congruence].
  intros _ _.
  exists (Dates.toordinal a - Dates.toordinal b)%Z,
         (Dates.toordinal b - Dates.toordinal a)%Z.
  repeat split; try lia.
  f_equal; lia.
Qed.

Lemma compare_dates_antisymmetric_witness :
  exists ab ba : Z,
    Dates.compare_dates "01-03-2020" "28-02-2020" = Some ab /\
    Dates.compare_dates "28-02-2020" "01-03-2020" = Some ba /\
    (ab > 0 <-> ba < 0)%Z /\
    Dates.compare_dates "01-03-2020" "01-03-2020" = Some 0%Z.
Proof.
  apply (compare_dates_antisymmetric "01-03-2020" "28-02-2020");
    vm_compute; discriminate.
Defined.

(** ** The deterministic taxonomy mapping *)

(** C2, as the code has it: registering "Australian Shepherd" when no such
    type exists answers 201 with family "Canidae", genus "Canis", lifespan 15
    and the attribute list of the mapping, whose first word is capitalised:
    ["Loyal", "outgoing", "and", "friendly"].  The live service is not
    asked. *)
Theorem australian_shepherd_created (ev : Petstore.env) (c : catalog) :
  pet_type_exists_by_name c "Australian Shepherd" = false ->
  exists pt c',
    Petstore.create_pet_type ev c
      (Deploy.post [("type", JStr "Australian Shepherd")])
    = ((Petstore.PetTypeObject pt, 201%N), c',
       [Petstore.Resolve "Australian Shepherd"]) /\
    pt_type pt = "Australian Shepherd" /\
    pt_family pt = "Canidae" /\
    pt_genus pt = "Canis" /\
    pt_attributes pt = ["Loyal"; "outgoing"; "and"; "friendly"] /\
    pt_lifespan pt = Some 15%Z /\
    pt_pets pt = [] /\
    get (pet_types c') (pt_id pt) = Some pt.
Proof.
  intros Hnew.
  unfold Petstore.create_pet_type, Deploy.post; simpl.
  rewrite Hnew.
  change (Ninja.fetch_pet_type_data (Petstore.ninja ev) "Australian Shepherd")
    with (@Return Ninja.info
            (Ninja.mkInfo "Canidae" "Canis"
               ["Loyal"; "outgoing"; "and"; "friendly"] (Some 15%Z)), false).
  cbv iota beta.
  eexists; eexists; split; [reflexivity|].
  repeat split.
  unfold register_pet_type; simpl. apply get_set_same.
Qed.

Lemma australian_shepherd_created_witness :
  exists pt c',
    Petstore.create_pet_type Deploy.offline empty_catalog
      (Deploy.post [("type", JStr "Australian Shepherd")])
    = ((Petstore.PetTypeObject pt, 201%N), c',
       [Petstore.Resolve "Australian Shepherd"]) /\
    pt_type pt = "Australian Shepherd" /\
    pt_family pt = "Canidae" /\
    pt_genus pt = "Canis" /\
    pt_attributes pt = ["Loyal"; "outgoing"; "and"; "friendly"] /\
    pt_lifespan pt = Some 15%Z /\
    pt_pets pt = [] /\
    get (pet_types c') (pt_id pt) = Some pt.
Proof.
  apply (australian_shepherd_created Deploy.offline empty_catalog).
  reflexivity.
Defined.

(** C2, as stated, fails on a fresh catalogue: the answer to the request
    does not carry the all-lower-case list ["loyal", "outgoing", "and",
    "friendly"]. *)
Lemma australian_shepherd_lowercase_counterexample :
  ~ exists pt c' fx,
      Petstore.create_pet_type Deploy.offline empty_catalog
        (Deploy.post [("type", JStr "Australian Shepherd")])
      = ((Petstore.PetTypeObject pt, 201%N), c', fx) /\
      pt_family pt = "Canidae" /\
      pt_genus pt = "Canis" /\
      pt_attributes pt = ["loyal"; "outgoing"; "and"; "friendly"] /\
      pt_lifespan pt = Some 15%Z.
Proof.
  intros (pt & c' & fx & Hrun & _ & _ & Hattrs & _).
  vm_compute in Hrun.
  injection Hrun as Hpt _ _.
  subst pt. simpl in Hattrs. discriminate.
Qed.

(** ** Updating a pet *)

Lemma get_pets_for_type_add_pet (c : catalog) (tid : string) (p : pet) :
  get_pets_for_type (snd (add_pet c tid p)) tid
  = set (get_pets_for_type c tid) (lower (name p)) p.
Proof.
  unfold add_pet.
  destruct (get (pet_types c) tid); simpl;
    unfold get_pets_for_type at 1; simpl; now rewrite get_set_same.
Qed.

(** Without birthdate and picture-url in the body, the rebuilt pet carries
    the existing pet's three values and nothing is fetched or removed. *)
Lemma build_without_optionals (ev : Petstore.env) (data : dict json) (ex : pet) :
  mem data "birthdate" = false ->
  mem data "picture-url" = false ->
  Petstore._build_or_update_pet ev data (Some ex)
  = match get data "name" with
    | Some (JStr n) =>
        (Return (mkPet n (birthdate ex) (picture ex) (picture_url ex)), [])
    | _ => (Raise ValueError, [])
    end.
Proof.
  intros Hb Hp.
  unfold Petstore._build_or_update_pet.
  destruct (get data "name") as [[| |z|n]|]; try reflexivity.
  unfold Petstore.field_or.
  rewrite Hb, Hp.
  apply mem_false in Hb; apply mem_false in Hp. rewrite Hb, Hp.
  simpl. rewrite String.eqb_refl, andb_false_r. reflexivity.
Qed.

(** X22: a PUT whose body supplies neither birthdate nor picture-url leaves
    the pet stored under the name of the path with its birthdate, picture
    file name and picture URL as they were, whatever it answers (404, 415,
    400 or 200); it fetches nothing and removes nothing, and a 200 answer
    shows the birthdate and picture of the pet the path names. *)
Theorem update_without_optionals_preserves
        (ev : Petstore.env) (c : catalog) (tid pet_name : string)
        (rq : Petstore.request) (data : dict json) (existing : pet) :
  Petstore.get_json rq = Petstore.Object data ->
  mem data "birthdate" = false ->
  mem data "picture-url" = false ->
  get (get_pets_for_type c tid) (lower pet_name) = Some existing ->
  exists resp c',
    Petstore.update_pet ev c tid pet_name rq = (resp, c', []) /\
    (exists p,
        get (get_pets_for_type c' tid) (lower pet_name) = Some p /\
        birthdate p = birthdate existing /\
        picture p = picture existing /\
        picture_url p = picture_url existing) /\
    (forall pj, resp = (Petstore.PetObject pj, 200%N) ->
                pj_birthdate pj = birthdate existing /\
                pj_picture pj = picture existing).
Proof.
  intros Hbody Hb Hp Hex.
  assert (Hsame : exists p, get (get_pets_for_type c tid) (lower pet_name) = Some p /\
                            birthdate p = birthdate existing /\
                            picture p = picture existing /\
                            picture_url p = picture_url existing)
    by (exists existing; auto).
  unfold Petstore.update_pet.
  destruct (mem (pet_types c) tid); simpl;
    [|do 2 eexists; split; [reflexivity|split; [exact Hsame|discriminate]]].
  destruct (Petstore.is_json rq); simpl;
    [|do 2 eexists; split; [reflexivity|split; [exact Hsame|discriminate]]].
  rewrite Hbody, Hex, (build_without_optionals ev data existing Hb Hp).
  destruct (get data "name") as [[| |z|n]|];
    try (do 2 eexists; split; [reflexivity|split; [exact Hsame|discriminate]]).
  set (p' := mkPet n (birthdate existing) (picture existing) (picture_url existing)).
  pose proof (get_pets_for_type_add_pet c tid p') as Hadd.
  destruct (add_pet c tid p') as [[u|e] c'] eqn:Eadd; simpl in Hadd;
    do 2 eexists; (split; [reflexivity|]); split.
  - rewrite Hadd, get_set. simpl.
    destruct (lower n =? lower pet_name); [exists p'; auto | exact Hsame].
  - intros pj Hpj. injection Hpj as <-. auto.
  - rewrite Hadd, get_set. simpl.
    destruct (lower n =? lower pet_name); [exists p'; auto | exact Hsame].
  - discriminate.
Qed.

Lemma update_without_optionals_preserves_witness :
  let before :=
    Deploy.run [Deploy.new_type "Bulldog";
                Deploy.CreatePet Deploy.pictures_ok "1"
                  (Deploy.post [("name", JStr "Rex"); ("birthdate", JStr "01-01-2020");
                                ("picture-url", JStr "http://img/a.png")])] in
  let rex := mkPet "Rex" "01-01-2020" "pet_16.png" (JStr "http://img/a.png") in
  exists resp c',
    Petstore.update_pet Deploy.pictures_ok before
      "1" "REX" (Deploy.post [("name", JStr "Rex")]) = (resp, c', []) /\
    (exists p,
        get (get_pets_for_type c' "1") (lower "REX") = Some p /\
        birthdate p = birthdate rex /\
        picture p = picture rex /\
        picture_url p = picture_url rex) /\
    (forall pj, resp = (Petstore.PetObject pj, 200%N) ->
                pj_birthdate pj = birthdate rex /\
                pj_picture pj = picture rex).
Proof.
  intros before rex.
  apply (update_without_optionals_preserves Deploy.pictures_ok before
           "1" "REX" (Deploy.post [("name", JStr "Rex")]) [("name", JStr "Rex")]
           rex); reflexivity.
Defined.

(** C9 at a failing input.  The catalogue holds the pets Rex (born
    01-01-2020, without picture) and Max (born 02-02-2021, with the picture
    file pet_16.png fetched from http://img/m.png).  PUT on Rex with the
    body {"name": "Max"} supplies neither birthdate nor picture-url; it is
    answered 200, and afterwards Max has the birthdate of Rex, no picture
    and no picture URL, while no file was removed. *)
Theorem update_under_other_name_overwrites :
  let before :=
    Deploy.run [Deploy.new_type "Bulldog";
                Deploy.CreatePet Deploy.offline "1"
                  (Deploy.post [("name", JStr "Rex"); ("birthdate", JStr "01-01-2020")]);
                Deploy.CreatePet Deploy.pictures_ok "1"
                  (Deploy.post [("name", JStr "Max"); ("birthdate", JStr "02-02-2021");
                                ("picture-url", JStr "http://img/m.png")])] in
  let data := [("name", JStr "Max")] in
  let '(resp, after, fx) :=
    Petstore.update_pet Deploy.pictures_ok before "1" "Rex" (Deploy.post data) in
  mem data "birthdate" = false /\ mem data "picture-url" = false /\
  get (get_pets_for_type before "1") "max"
  = Some (mkPet "Max" "02-02-2021" "pet_16.png" (JStr "http://img/m.png")) /\
  resp = (Petstore.PetObject (mkPetJson "Max" "01-01-2020" "NA"), 200%N) /\
  get (get_pets_for_type after "1") "max" = Some (mkPet "Max" "01-01-2020" "NA" JNull) /\
  get (get_pets_for_type after "1") "rex" = Some (mkPet "Rex" "01-01-2020" "NA" JNull) /\
  fx = [].
Proof. vm_compute. repeat split. Qed.

(** ** Picture downloads on update *)

(** Re-submitting the stored URL fetches nothing and removes nothing. *)
Lemma build_same_url (ev : Petstore.env) (data : dict json) (ex : pet) (url : json) :
  get data "picture-url" = Some url ->
  eqb url (picture_url ex) = true ->
  snd (Petstore._build_or_update_pet ev data (Some ex)) = [].
Proof.
  intros Hurl Hsame.
  unfold Petstore._build_or_update_pet.
  destruct (get data "name") as [[| |z|n]|]; try reflexivity.
  destruct (Petstore.check_birthdate _); [|reflexivity].
  unfold Petstore.field_or, mem. rewrite Hurl. simpl. rewrite Hsame.
  rewrite String.eqb_refl, andb_false_r. reflexivity.
Qed.

(** A new URL for a pet that has a picture: one download, then one removal
    of the old file, provided the download answers 200. *)
Lemma build_new_url_replaces_picture
      (ev : Petstore.env) (data : dict json) (ex : pet)
      (n bd ct : string) (url : json) :
  get data "name" = Some (JStr n) ->
  Petstore.check_birthdate (Petstore.field_or data "birthdate" (JStr "NA")) = Return bd ->
  get data "picture-url" = Some url ->
  eqb url (picture_url ex) = false ->
  truthy url = true ->
  picture ex <> "NA" -> picture ex <> "" ->
  Petstore.picture_get ev url = Return (200%N, ct) ->
  exists p file_name,
    Petstore._build_or_update_pet ev data (Some ex)
    = (Return p,
       [Petstore.Download url; Petstore.WriteFile file_name;
        Petstore.RemoveFile (picture ex)]) /\
    picture p = file_name /\ picture_url p = url.
Proof.
  intros Hn Hbd Hurl Hdiff Htrue Hna Hempty Hget.
  unfold Petstore._build_or_update_pet.
  rewrite Hn, Hbd.
  unfold Petstore.field_or, mem. rewrite Hurl. simpl. rewrite Hdiff, Htrue.
  assert (E1 : ("NA" =? picture ex) = false)
    by (apply String.eqb_neq; congruence).
  assert (E2 : (picture ex =? "NA") = false) by (now apply String.eqb_neq).
  assert (E3 : (picture ex =? "") = false) by (now apply String.eqb_neq).
  rewrite E1. simpl.
  unfold Petstore._download_picture. rewrite Hget. simpl.
  rewrite E2, E3. simpl.
  do 2 eexists; split; [reflexivity|]. split; reflexivity.
Qed.

(** A new URL for a pet that has no picture: nothing is fetched, the pet
    keeps no picture, and the new URL is stored all the same. *)
Lemma build_new_url_without_picture
      (ev : Petstore.env) (data : dict json) (ex : pet)
      (n bd : string) (url : json) :
  get data "name" = Some (JStr n) ->
  Petstore.check_birthdate (Petstore.field_or data "birthdate" (JStr "NA")) = Return bd ->
  get data "picture-url" = Some url ->
  eqb url (picture_url ex) = false ->
  picture ex = "NA" ->
  exists bd',
    Petstore._build_or_update_pet ev data (Some ex)
    = (Return (mkPet n bd' "NA" url), []).
Proof.
  intros Hn Hbd Hurl Hdiff Hna.
  unfold Petstore._build_or_update_pet.
  rewrite Hn, Hbd.
  unfold Petstore.field_or, mem. rewrite Hurl. simpl. rewrite Hdiff, Hna.
  simpl. rewrite andb_false_r. simpl.
  eexists; reflexivity.
Qed.

(** The effects of a PUT that reaches the rebuild of the pet are those of
    the rebuild. *)
Lemma update_pet_effects (ev : Petstore.env) (c : catalog) (tid pet_name : string)
      (data : dict json) (ex : pet) :
  mem (pet_types c) tid = true ->
  get (get_pets_for_type c tid) (lower pet_name) = Some ex ->
  snd (Petstore.update_pet ev c tid pet_name (Deploy.post data))
  = snd (Petstore._build_or_update_pet ev data (Some ex)).
Proof.
  intros Hmem Hex. unfold Petstore.update_pet, Deploy.post.
  cbn [Petstore.is_json Petstore.get_json negb]. rewrite Hmem, Hex. simpl negb. cbv iota.
  destruct (Petstore._build_or_update_pet ev data (Some ex)) as [[p|e] fx].
  - destruct (add_pet c tid p) as [[u|e] c']; reflexivity.
  - destruct e; reflexivity.
Qed.

(** A new URL for a pet that has a picture is fetched once, whatever the
    answer; unless the answer is 200 nothing else happens. *)
Lemma build_new_url_downloads_once
      (ev : Petstore.env) (data : dict json) (ex : pet)
      (n bd : string) (url : json) :
  get data "name" = Some (JStr n) ->
  Petstore.check_birthdate (Petstore.field_or data "birthdate" (JStr "NA")) = Return bd ->
  get data "picture-url" = Some url ->
  eqb url (picture_url ex) = false ->
  truthy url = true ->
  picture ex <> "NA" ->
  let fx := snd (Petstore._build_or_update_pet ev data (Some ex)) in
  Petstore.downloads fx = 1 /\
  ((forall ct, Petstore.picture_get ev url <> Return (200%N, ct)) ->
   fx = [Petstore.Download url]).
Proof.
  intros Hn Hbd Hurl Hdiff Htrue Hna.
  unfold Petstore._build_or_update_pet.
  rewrite Hn, Hbd.
  unfold Petstore.field_or, mem. rewrite Hurl. simpl. rewrite Hdiff, Htrue.
  assert (E1 : ("NA" =? picture ex) = false)
    by (apply String.eqb_neq; congruence).
  rewrite E1. simpl.
  unfold Petstore._download_picture.
  destruct (Petstore.picture_get ev url) as [[st ct]|e].
  - destruct (N.eqb_spec st 200) as [->|Hst]; simpl.
    + split; [|intros H; now elim (H ct)].
      destruct (negb (picture ex =? "") && negb (picture ex =? "NA")); reflexivity.
    + split; [reflexivity | now intros _].
  - simpl. split; [reflexivity | now intros _].
Qed.

(** C3, as the code has it: for an existing pet, a PUT that re-submits the
    stored picture-url makes no download and removes no file.  A PUT with a
    well-formed body whose non-empty picture-url differs from the stored one,
    for a pet that has a picture file, makes exactly one download, whatever
    the picture server answers; when the download is answered 200 it makes
    exactly one removal, that of the old file, and otherwise none. *)
Theorem picture_url_change_on_update
        (ev : Petstore.env) (c : catalog) (tid pet_name : string)
        (data : dict json) (ex : pet) (url : json) :
  mem (pet_types c) tid = true ->
  get (get_pets_for_type c tid) (lower pet_name) = Some ex ->
  get data "picture-url" = Some url ->
  let fx := snd (Petstore.update_pet ev c tid pet_name (Deploy.post data)) in
  (eqb url (picture_url ex) = true ->
   Petstore.downloads fx = 0 /\ Petstore.removals fx = 0) /\
  (eqb url (picture_url ex) = false ->
   truthy url = true ->
   Petstore.has_picture ex = true ->
   (exists n, get data "name" = Some (JStr n)) ->
   (exists bd, Petstore.check_birthdate
                 (Petstore.field_or data "birthdate" (JStr "NA")) = Return bd) ->
   Petstore.downloads fx = 1 /\
   (forall ct,
       Petstore.picture_get ev url = Return (200%N, ct) ->
       Petstore.removals fx = 1 /\
       exists file_name,
         fx = [Petstore.Download url; Petstore.WriteFile file_name;
               Petstore.RemoveFile (picture ex)]) /\
   ((forall ct, Petstore.picture_get ev url <> Return (200%N, ct)) ->
    Petstore.removals fx = 0 /\ fx = [Petstore.Download url])).
Proof.
  intros Hmem Hex Hurl fx. subst fx.
  rewrite (update_pet_effects ev c tid pet_name data ex Hmem Hex).
  split.
  - intros Hsame. now rewrite (build_same_url ev data ex url Hurl Hsame).
  - intros Hdiff Htrue Hpic (n & Hn) (bd & Hbd).
    unfold Petstore.has_picture in Hpic.
    apply andb_true_iff in Hpic as [Hne Hna].
    apply negb_true_iff, String.eqb_neq in Hne, Hna.
    destruct (build_new_url_downloads_once ev data ex n bd url
                Hn Hbd Hurl Hdiff Htrue Hna) as [Hone Hrest].
    split; [exact Hone|]. split.
    + intros ct Hget.
      destruct (build_new_url_replaces_picture ev data ex n bd ct url
                  Hn Hbd Hurl Hdiff Htrue Hna Hne Hget) as (p & f & Hrun & _).
      rewrite Hrun. simpl. split; [reflexivity | now exists f].
    + intros Hno. rewrite (Hrest Hno). split; reflexivity.
Qed.

Lemma picture_url_change_on_update_witness :
  let pictured :=
    Deploy.run [Deploy.new_type "Bulldog";
                Deploy.new_pet_with_picture "1" "Rex" "http://img/a.png"] in
  let data := [("name", JStr "Rex"); ("picture-url", JStr "http://img/b.jpeg")] in
  let put ev := snd (Petstore.update_pet ev pictured "1" "Rex" (Deploy.post data)) in
  (Petstore.downloads (put Deploy.pictures_ok) = 1 /\
   Petstore.removals (put Deploy.pictures_ok) = 1 /\
   exists file_name,
     put Deploy.pictures_ok
     = [Petstore.Download (JStr "http://img/b.jpeg"); Petstore.WriteFile file_name;
        Petstore.RemoveFile "pet_16.png"]) /\
  (Petstore.downloads (put Deploy.pictures_missing) = 1 /\
   Petstore.removals (put Deploy.pictures_missing) = 0).
Proof.
  intros pictured data put.
  split.
  - destruct (picture_url_change_on_update Deploy.pictures_ok pictured "1" "Rex" data
                (mkPet "Rex" "NA" "pet_16.png" (JStr "http://img/a.png"))
                (JStr "http://img/b.jpeg") eq_refl eq_refl eq_refl) as [_ H].
    destruct (H eq_refl eq_refl eq_refl) as (Hone & Hok & _);
      [now exists "Rex" | now exists "NA" |].
    destruct (Hok "image/png" eq_refl) as [Hrem Hfx].
    split; [exact Hone|]. split; [exact Hrem | exact Hfx].
  - destruct (picture_url_change_on_update Deploy.pictures_missing pictured "1" "Rex" data
                (mkPet "Rex" "NA" "pet_16.png" (JStr "http://img/a.png"))
                (JStr "http://img/b.jpeg") eq_refl eq_refl eq_refl) as [_ H].
    destruct (H eq_refl eq_refl eq_refl) as (Hone & _ & Hno);
      [now exists "Rex" | now exists "NA" |].
    split; [exact Hone|]. apply Hno. intros ct. discriminate.
Defined.

(** The first picture of a pet cannot be set by a PUT: Rex was created
    without picture; a PUT that supplies a picture-url answers 200 with
    picture "NA", no download is made although the picture server would
    answer 200, and the new URL is stored. *)
Lemma first_picture_url_on_update_not_fetched :
  let before := Deploy.run [Deploy.new_type "Bulldog"; Deploy.new_pet "1" "Rex"] in
  let '(resp, after, fx) :=
    Petstore.update_pet Deploy.pictures_ok before "1" "Rex"
      (Deploy.post [("name", JStr "Rex"); ("picture-url", JStr "http://img/rex.png")]) in
  get (get_pets_for_type before "1") "rex" = Some (mkPet "Rex" "NA" "NA" JNull) /\
  resp = (Petstore.PetObject (mkPetJson "Rex" "NA" "NA"), 200%N) /\
  get (get_pets_for_type after "1") "rex"
  = Some (mkPet "Rex" "NA" "NA" (JStr "http://img/rex.png")) /\
  Petstore.downloads fx = 0 /\ Petstore.removals fx = 0.
Proof. vm_compute. repeat split. Qed.

(** C3, as stated, fails at four inputs.  Each PUT supplies a picture-url
    that differs from the stored one, and none makes one download and one
    removal: the pet without picture (nothing fetched, nothing to remove), the
    pet with a picture whose new URL is empty (nothing fetched, old file
    removed), the pet with a picture whose download is answered 404 (one
    download, old file kept), and the body without a name (answered 400
    before anything is fetched). *)
Lemma picture_url_change_counterexample :
  let plain := Deploy.run [Deploy.new_type "Bulldog"; Deploy.new_pet "1" "Rex"] in
  let pictured :=
    Deploy.run [Deploy.new_type "Bulldog";
                Deploy.new_pet_with_picture "1" "Rex" "http://img/a.png"] in
  let put ev c data := snd (Petstore.update_pet ev c "1" "Rex" (Deploy.post data)) in
  let once fx := Petstore.downloads fx = 1 /\ Petstore.removals fx = 1 in
  ~ once (put Deploy.pictures_ok plain
              [("name", JStr "Rex"); ("picture-url", JStr "http://img/rex.png")]) /\
  ~ once (put Deploy.pictures_ok pictured
              [("name", JStr "Rex"); ("picture-url", JStr "")]) /\
  ~ once (put Deploy.pictures_missing pictured
              [("name", JStr "Rex"); ("picture-url", JStr "http://img/b.png")]) /\
  ~ once (put Deploy.pictures_ok pictured
              [("picture-url", JStr "http://img/b.png")]).
Proof.
  vm_compute. repeat split; intros [H1 H2]; discriminate.
Qed.

(** ** The purchase flow against any remote *)

Section Purchase.
Context {W : Type} {R : PetOrder.Remote W}.
Import PetOrder.

Lemma get_pet_type_id_frame (url ty : string) (s : state W) :
  let s' := snd (get_pet_type_id url ty s) in
  transactions s' = transactions s /\
  trace s' = trace s ++ [GetPetTypes url].
Proof.
  unfold get_pet_type_id.
  destruct (http_get_pet_types url (world s)) as [[[st l]|e] w]; [|simpl; auto].
  destruct (negb (st =? 200)%N); simpl; auto.
Qed.

Lemma get_pets_frame (url tid : string) (s : state W) :
  let s' := snd (get_pets url tid s) in
  transactions s' = transactions s /\
  trace s' = trace s ++ [GetPets url tid].
Proof.
  unfold get_pets.
  destruct (http_get_pets url tid (world s)) as [[[st l]|e] w]; [|simpl; auto].
  destruct (negb (st =? 200)%N); simpl; auto.
Qed.


Lemma random_choice_frame (p0 : pet_json) (l : list pet_json) (s : state W) :
  let r := random_choice p0 l s in
  In (fst r) (p0 :: l) /\
  transactions (snd r) = transactions s /\ trace (snd r) = trace s.
Proof.
  unfold random_choice.
  destruct (random_index (length (p0 :: l)) (world s)) as [i w].
  cbn [fst snd transactions trace].
  split; [|auto].
  apply nth_In. apply Nat.mod_upper_bound. simpl; lia.
Qed.

(** The answer of one store to the selection loop: the loop goes on to the
    next store, or it ends here with a selection at this store or with an
    exception.  Either way the store was sent one or two requests, none a
    deletion, and the ledger was not written. *)
Lemma choose_step (sid : Z) (url : string) (rest : list (Z * string))
      (ty : string) (pn : json) (s : state W) :
  exists calls s1,
    calls <> [] /\
    Forall (fun k => call_url k = url /\ Traffic.is_deletion k = false) calls /\
    trace s1 = trace s ++ calls /\
    transactions s1 = transactions s /\
    (choose ((sid, url) :: rest) ty pn s = choose rest ty pn s1 \/
     (exists e, choose ((sid, url) :: rest) ty pn s = (Raise e, s1)) \/
     (exists tid pname w,
         choose ((sid, url) :: rest) ty pn s
         = (Return (Some (sid, url, tid, pname)), s1) /\
         tid <> "" /\
         exists st pets w',
           http_get_pets url tid w = (Return (st, pets), w') /\
           st = 200%N /\ In pname (map pj_name pets))).
Proof.
  cbn [choose].
  pose proof (get_pet_type_id_frame url ty s) as [Hl1 Ht1].
  assert (Hone : Forall (fun k => call_url k = url /\ Traffic.is_deletion k = false)
                        [GetPetTypes url]) by now repeat constructor.
  destruct (get_pet_type_id url ty s) as [[[tid|]|e] s1]; cbn [snd] in Hl1, Ht1.
  3:{ exists [GetPetTypes url], s1. repeat (split; [easy|]). right. left. now exists e. }
  2:{ exists [GetPetTypes url], s1. repeat (split; [easy|]). now left. }
  destruct (String.eqb_spec tid "") as [_|Hne].
  { exists [GetPetTypes url], s1. repeat (split; [easy|]). now left. }
  pose proof (get_pets_frame url tid s1) as [Hl2 Ht2].
  assert (Hlisted : forall pets, fst (get_pets url tid s1) = Return pets ->
            forall p, In p pets ->
            exists st l w',
              http_get_pets url tid (world s1) = (Return (st, l), w') /\
              st = 200%N /\ In (pj_name p) (map pj_name l)).
  { unfold get_pets.
    destruct (http_get_pets url tid (world s1)) as [[[st l]|e] w'];
      [|discriminate].
    destruct (N.eqb_spec st 200) as [->|_]; cbn [negb fst].
    - intros pets [= <-] p Hin. exists 200%N, l, w'.
      split; [reflexivity|]. split; [reflexivity | now apply in_map].
    - intros pets [= <-] p []. }
  assert (Htwo : Forall (fun k => call_url k = url /\ Traffic.is_deletion k = false)
                        [GetPetTypes url; GetPets url tid]) by now repeat constructor.
  destruct (get_pets url tid s1) as [[[|p0 others]|e] s2]; cbn [fst snd] in Hl2, Ht2, Hlisted.
  3:{ exists [GetPetTypes url; GetPets url tid], s2.
      split; [easy|]. split; [exact Htwo|].
      split; [rewrite Ht2, Ht1; now rewrite <- app_assoc|].
      split; [congruence|]. right. left. now exists e. }
  1:{ exists [GetPetTypes url; GetPets url tid], s2.
      split; [easy|]. split; [exact Htwo|].
      split; [rewrite Ht2, Ht1; now rewrite <- app_assoc|].
      split; [congruence | now left]. }
  assert (Htr2 : trace s2 = trace s ++ [GetPetTypes url; GetPets url tid])
    by (rewrite Ht2, Ht1; now rewrite <- app_assoc).
  assert (Hl : transactions s2 = transactions s) by congruence.
  destruct (truthy pn).
  - destruct (find_named pn (p0 :: others)) as [[p|]|e] eqn:Hfind.
    + exists [GetPetTypes url; GetPets url tid], s2.
      split; [easy|]. split; [exact Htwo|]. split; [exact Htr2|]. split; [exact Hl|].
      right. right. exists tid, (pj_name p), (world s1).
      split; [reflexivity|]. split; [exact Hne|].
      apply (Hlisted _ eq_refl).
      unfold find_named in Hfind. destruct pn; try discriminate.
      injection Hfind as Hfind.
      exact (proj1 (find_some _ (p0 :: others) Hfind)).
    + exists [GetPetTypes url; GetPets url tid], s2.
      split; [easy|]. split; [exact Htwo|]. split; [exact Htr2|]. split; [exact Hl|].
      now left.
    + exists [GetPetTypes url; GetPets url tid], s2.
      split; [easy|]. split; [exact Htwo|]. split; [exact Htr2|]. split; [exact Hl|].
      right. left. now exists e.
  - pose proof (random_choice_frame p0 others s2) as (Hin & Hl3 & Ht3).
    destruct (random_choice p0 others s2) as [p s3]. cbn [fst snd] in *.
    exists [GetPetTypes url; GetPets url tid], s3.
    split; [easy|]. split; [exact Htwo|].
    split; [congruence|]. split; [congruence|].
    right. right. exists tid, (pj_name p), (world s1).
    split; [reflexivity|]. split; [exact Hne|].
    now apply (Hlisted _ eq_refl).
Qed.

(** The selection loop writes nothing to the ledger. *)
Lemma choose_transactions (stores : list (Z * string)) (ty : string)
      (pn : json) (s : state W) :
  transactions (snd (choose stores ty pn s)) = transactions s.
Proof.
  revert s. induction stores as [|[sid url] rest IH]; intros s; [reflexivity|].
  destruct (choose_step sid url rest ty pn s)
    as (calls & s1 & _ & _ & _ & Hl & [H|[(e & H)|(tid & pname & w & H & _)]]);
    rewrite H; [rewrite IH|cbn [snd]..]; exact Hl.
Qed.

(** The selection loop only reads: it sends no deletion, it asks only the
    stores it was given, and what it selects is a store of the list, a
    non-empty pet-type id and the name of a pet which that store listed for
    the id with status 200. *)
Lemma choose_reads_only (stores : list (Z * string)) (ty : string)
      (pn : json) (s : state W) :
  exists calls,
    trace (snd (choose stores ty pn s)) = trace s ++ calls /\
    Forall (fun k => Traffic.is_deletion k = false /\
                     In (call_url k) (map snd stores)) calls /\
    forall sid url tid pname,
      fst (choose stores ty pn s) = Return (Some (sid, url, tid, pname)) ->
      In (sid, url) stores /\ tid <> "" /\
      exists w st pets w',
        http_get_pets url tid w = (Return (st, pets), w') /\
        st = 200%N /\ In pname (map pj_name pets).
Proof.
  revert s. induction stores as [|[sid0 url0] rest IH]; intros s.
  - exists []. cbn [choose fst snd]. rewrite app_nil_r.
    split; [reflexivity|]. split; [constructor | discriminate].
  - destruct (choose_step sid0 url0 rest ty pn s)
      as (calls & s1 & _ & Hcalls & Htr & _ & Hcase).
    assert (Hhere : Forall (fun k => Traffic.is_deletion k = false /\
                                     In (call_url k) (map snd ((sid0, url0) :: rest)))
                           calls).
    { eapply Forall_impl; [|exact Hcalls].
      intros k [Hu Hd]. split; [exact Hd | now left]. }
    destruct Hcase as [H|[(e & H)|(tid & pname & w & H & Hne & Hlisted)]]; rewrite H.
    + destruct (IH s1) as (more & Hm & Hall & Hsel).
      exists (calls ++ more). split; [rewrite Hm, Htr; now rewrite app_assoc|].
      split.
      * apply Forall_app. split; [exact Hhere|].
        eapply Forall_impl; [|exact Hall].
        intros k [Hd Hin]. split; [exact Hd | now right].
      * intros sid url tid pname E.
        destruct (Hsel sid url tid pname E) as (Hin & Hne & Hw).
        split; [now right | now split].
    + exists calls. cbn [fst snd]. split; [exact Htr|]. split; [exact Hhere|].
      discriminate.
    + exists calls. cbn [fst snd]. split; [exact Htr|]. split; [exact Hhere|].
      intros sid url tid' pname' [= <- <- <- <-].
      split; [now left|]. split; [exact Hne|]. now exists w.
Qed.

Lemma stores_for_numbers (store : json) (sid : Z) (url : string) :
  In (sid, url) (stores_for store) ->
  (sid = 1 \/ sid = 2)%Z /\ url = Traffic.store_url sid.
Proof.
  unfold stores_for.
  destruct (eqb store (JInt 1)); [|destruct (eqb store (JInt 2))]; simpl;
    intuition (try congruence);
    match goal with H : (_, _) = (_, _) |- _ => injection H as <- <- end;
    auto.
Qed.

Lemma stores_for_pinned (store : json) (n : Z) :
  eqb store (JInt n) = true -> (n = 1 \/ n = 2)%Z ->
  stores_for store = [(n, Traffic.store_url n)].
Proof.
  intros E Hn. unfold stores_for.
  assert (Hint : as_int store = Some n).
  { destruct store; simpl in E; try discriminate.
    - destruct b; apply Z.eqb_eq in E; now subst.
    - apply Z.eqb_eq in E. now subst. }
  assert (Heq : forall m, eqb store (JInt m) = (n =? m)%Z).
  { intros m. destruct store; simpl in Hint |- *; try discriminate.
    - destruct b; injection Hint as <-; reflexivity.
    - now injection Hint as <-. }
  rewrite !Heq. destruct Hn as [-> | ->]; reflexivity.
Qed.


End Purchase.

(** ** Consistency is kept by the store's operations *)

Import Consistency.

Lemma inb_In (x : string) (l : list string) : inb x l = true <-> In x l.
Proof.
  induction l as [|y l IH]; simpl.
  - split; [discriminate | contradiction].
  - rewrite orb_true_iff, IH, String.eqb_eq. reflexivity.
Qed.

Lemma mem_set {V} (d : dict V) (k k' : string) (v : V) :
  mem (set d k v) k' = (k =? k') || mem d k'.
Proof. unfold mem. rewrite get_set. now destruct (k =? k'). Qed.

Lemma str_of_N_nonempty (n : N) : str_of_N n <> "".
Proof.
  unfold str_of_N. destruct (N.to_uint n); simpl; discriminate.
Qed.

Lemma consistent_empty : consistent empty_catalog.
Proof.
  constructor; simpl; try discriminate; try constructor.
Qed.

(** The id counter plays no part in consistency. *)
Lemma consistent_counter (c : catalog) (n : N) :
  consistent c ->
  consistent (mkCatalog (pet_types c) (pets_by_type c) (type_name_to_id c) n).
Proof. intros [K I U X SK PK PKy SL LS L1]. constructor; assumption. Qed.

Lemma consistent_register (c : catalog) (obj : pet_type) :
  consistent c ->
  pt_pets obj = [] -> pt_id obj <> "" ->
  pet_type_exists_by_name c (pt_type obj) = false ->
  consistent (register_pet_type c obj).
Proof.
  intros [K I U X SK PK PKy SL LS L1] Hpets Hid Hnew.
  unfold pet_type_exists_by_name in Hnew.
  assert (Hfresh : forall t p, get (pet_types c) t = Some p ->
                               lower (pt_type p) <> lower (pt_type obj)).
  { intros t p Hg E. apply X in Hg. rewrite E in Hg. congruence. }
  constructor; unfold get_pets_for_type in *; simpl.
  - now apply NoDup_keys_set.
  - intros tid pt. rewrite get_set.
    destruct (String.eqb_spec (pt_id obj) tid) as [<-|Hne]; [|apply I].
    intros [= <-]. auto.
  - intros t1 p1 t2 p2. rewrite !get_set.
    destruct (String.eqb_spec (pt_id obj) t1) as [<-|H1],
             (String.eqb_spec (pt_id obj) t2) as [<-|H2]; auto.
    + intros [= <-] Hg E. symmetry in E. now apply Hfresh in Hg.
    + intros Hg [= <-] E. now apply Hfresh in Hg.
    + apply U.
  - intros tid pt. rewrite get_set, mem_set.
    destruct (String.eqb_spec (pt_id obj) tid) as [<-|Hne].
    + intros [= <-]. now rewrite String.eqb_refl.
    + intros Hg. rewrite (X _ _ Hg). apply orb_true_r.
  - now apply NoDup_keys_set.
  - intros tid pets. rewrite get_set.
    destruct (pt_id obj =? tid); [intros [= <-]; constructor | apply PK].
  - intros tid pets k p. rewrite get_set.
    destruct (pt_id obj =? tid); [intros [= <-]; discriminate | apply PKy].
  - intros tid pt k p. rewrite !get_set.
    destruct (pt_id obj =? tid); [intros _; discriminate | apply SL].
  - intros tid pt n. rewrite !get_set.
    destruct (pt_id obj =? tid); [|apply LS].
    intros [= <-]. rewrite Hpets. contradiction.
  - intros tid pt. rewrite get_set.
    destruct (pt_id obj =? tid); [|apply L1].
    intros [= <-]. rewrite Hpets. constructor.
Qed.

Lemma consistent_remove (c : catalog) (tid : string) :
  consistent c -> consistent (remove_pet_type c tid).
Proof.
  intros Hc. unfold remove_pet_type.
  destruct (get (pet_types c) tid) as [pt0|] eqn:E0; [|exact Hc].
  destruct Hc as [K I U X SK PK PKy SL LS L1].
  constructor; unfold get_pets_for_type in *; simpl.
  - now apply NoDup_keys_pop.
  - intros t pt Hg. apply get_pop_Some in Hg as [_ Hg]; eauto.
  - intros t1 p1 t2 p2 H1 H2.
    apply get_pop_Some in H1 as [_ H1]; [|exact K].
    apply get_pop_Some in H2 as [_ H2]; [|exact K]. eauto.
  - intros t pt Hg. apply get_pop_Some in Hg as [Hne Hg]; [|exact K].
    unfold mem. rewrite get_pop_other; [apply (X _ _ Hg)|].
    intros E. apply Hne. eapply U; eauto.
  - now apply NoDup_keys_pop.
  - intros t pets Hg. apply get_pop_Some in Hg as [_ Hg]; eauto.
  - intros t pets k p Hg. apply get_pop_Some in Hg as [_ Hg]; eauto.
  - intros t pt k p Hg. apply get_pop_Some in Hg as [Hne Hg]; [|exact K].
    rewrite get_pop_other by exact Hne. eauto.
  - intros t pt n Hg. apply get_pop_Some in Hg as [Hne Hg]; [|exact K].
    rewrite get_pop_other by exact Hne. eauto.
  - intros t pt Hg. apply get_pop_Some in Hg as [_ Hg]; eauto.
Qed.

(** Replacing the entry of [tid] by a pet-type that differs in its name list
    only keeps the facts about ids and type names. *)
Lemma get_set_pets (c : catalog) (tid : string) (pt : pet_type) (l : list string)
      (pt' : pet_type) (t : string) (x : pet_type) :
  get (pet_types c) tid = Some pt ->
  pt_id pt' = pt_id pt -> pt_type pt' = pt_type pt ->
  get (set (pet_types c) tid pt') t = Some x ->
  (t = tid /\ x = pt') \/ (t <> tid /\ get (pet_types c) t = Some x).
Proof.
  intros Hpt Hid Hty. rewrite get_set.
  destruct (String.eqb_spec tid t) as [<-|Hne].
  - intros [= <-]. now left.
  - intros H. right. split; [congruence | exact H].
Qed.

Lemma consistent_add_pet (c : catalog) (tid : string) (p : pet) :
  consistent c -> mem (pet_types c) tid = true ->
  consistent (snd (add_pet c tid p)).
Proof.
  intros [K I U X SK PK PKy SL LS L1] Hmem.
  apply mem_get in Hmem as [pt Hpt].
  unfold add_pet. rewrite Hpt. cbn [snd].
  set (pets := get_pets_for_type c tid).
  set (k := lower (name p)).
  set (pt' := if inb (name p) (pt_pets pt) then pt
              else with_pets pt (pt_pets pt ++ [name p])).
  assert (Hid : pt_id pt' = pt_id pt) by (subst pt'; now destruct (inb _ _)).
  assert (Hty : pt_type pt' = pt_type pt) by (subst pt'; now destruct (inb _ _)).
  assert (Hin : forall n, In n (pt_pets pt') <-> In n (pt_pets pt) \/ n = name p).
  { intros n. subst pt'. destruct (inb (name p) (pt_pets pt)) eqn:E; simpl.
    - apply inb_In in E. split; [auto | intros [H| ->]; auto].
    - rewrite in_app_iff. simpl. split.
      + intros [H|[<-|[]]]; auto.
      + intros [H| ->]; auto. }
  assert (Hnd : NoDup (pt_pets pt')).
  { subst pt'. destruct (inb (name p) (pt_pets pt)) eqn:E; simpl; [eauto|].
    apply NoDup_app; [eauto | repeat constructor; intros [] |].
    intros x Hx [<-|[]]. apply inb_In in Hx. congruence. }
  assert (Hpets_nd : NoDup (keys pets)).
  { subst pets. unfold get_pets_for_type.
    destruct (get (pets_by_type c) tid) eqn:E; [eauto | constructor]. }
  assert (Hpets_key : forall k' q, get pets k' = Some q -> k' = lower (name q)).
  { subst pets. unfold get_pets_for_type.
    destruct (get (pets_by_type c) tid) eqn:E; [eauto | discriminate]. }
  constructor; unfold get_pets_for_type; simpl.
  - now apply NoDup_keys_set.
  - intros t x Hg.
    destruct (get_set_pets c tid pt (pt_pets pt') pt' t x Hpt Hid Hty Hg)
      as [[-> ->]|[_ Hold]]; [|eauto].
    rewrite Hid. eauto.
  - intros t1 p1 t2 p2 H1 H2.
    destruct (get_set_pets c tid pt (pt_pets pt') pt' t1 p1 Hpt Hid Hty H1)
      as [[-> ->]|[_ O1]];
    destruct (get_set_pets c tid pt (pt_pets pt') pt' t2 p2 Hpt Hid Hty H2)
      as [[-> ->]|[_ O2]]; auto; rewrite ?Hty; eauto.
  - intros t x Hg.
    destruct (get_set_pets c tid pt (pt_pets pt') pt' t x Hpt Hid Hty Hg)
      as [[-> ->]|[_ Hold]]; [|eauto].
    rewrite Hty. eauto.
  - now apply NoDup_keys_set.
  - intros t ps. rewrite get_set.
    destruct (tid =? t); [|apply PK].
    intros [= <-]. now apply NoDup_keys_set.
  - intros t ps k' q. rewrite get_set.
    destruct (tid =? t); [|apply PKy].
    intros [= <-]. rewrite get_set.
    destruct (String.eqb_spec k k') as [<-|Hne]; [|apply Hpets_key].
    now intros [= <-].
  - intros t x k' q Hg.
    destruct (get_set_pets c tid pt (pt_pets pt') pt' t x Hpt Hid Hty Hg)
      as [[-> ->]|[Hne Hold]].
    + rewrite get_set_same, get_set.
      destruct (String.eqb_spec k k') as [<-|Hk].
      * intros [= <-]. apply Hin. now right.
      * intros Hq. apply Hin. left. apply (SL tid pt k' q Hpt Hq).
    + rewrite get_set_other by congruence. apply (SL t x k' q Hold).
  - intros t x n Hg.
    destruct (get_set_pets c tid pt (pt_pets pt') pt' t x Hpt Hid Hty Hg)
      as [[-> ->]|[Hne Hold]].
    + rewrite get_set_same, mem_set. intros Hn. apply Hin in Hn as [Hn| ->].
      * apply (LS tid pt n Hpt) in Hn. fold pets in Hn. rewrite Hn. apply orb_true_r.
      * subst k. now rewrite String.eqb_refl.
    + rewrite get_set_other by congruence. apply (LS t x n Hold).
  - intros t x Hg.
    destruct (get_set_pets c tid pt (pt_pets pt') pt' t x Hpt Hid Hty Hg)
      as [[-> ->]|[_ Hold]]; eauto.
Qed.

Lemma consistent_delete_pet (c : catalog) (tid n : string) :
  consistent c -> consistent (snd (delete_pet c tid n)).
Proof.
  intros Hc. unfold delete_pet.
  destruct (get (pets_by_type c) tid) as [pets|] eqn:Epets; [|exact Hc].
  destruct (get pets (lower n)) as [q|] eqn:Eq; [|exact Hc].
  destruct Hc as [K I U X SK PK PKy SL LS L1].
  assert (Hstored : get_pets_for_type c tid = pets)
    by (unfold get_pets_for_type; now rewrite Epets).
  destruct (get (pet_types c) tid) as [pt|] eqn:Hpt; cbn [snd].
  2:{ constructor; unfold get_pets_for_type; simpl; auto.
      - now apply NoDup_keys_set.
      - intros t ps. rewrite get_set.
        destruct (tid =? t); [|apply PK].
        intros [= <-]. apply NoDup_keys_pop; eauto.
      - intros t ps k' q'. rewrite get_set.
        destruct (tid =? t); [|apply PKy].
        intros [= <-] Hg. apply get_pop_Some in Hg as [_ Hg]; eauto.
      - intros t x k' q' Hx. rewrite get_set_other by congruence.
        apply (SL t x k' q' Hx).
      - intros t x n' Hx. rewrite get_set_other by congruence.
        apply (LS t x n' Hx). }
  set (kept := filter (fun m => negb (lower m =? lower n)) (pt_pets pt)).
  set (pt' := with_pets pt kept).
  assert (Hid : pt_id pt' = pt_id pt) by reflexivity.
  assert (Hty : pt_type pt' = pt_type pt) by reflexivity.
  assert (Hpets_nd : NoDup (keys pets)) by eauto.
  constructor; unfold get_pets_for_type; simpl.
  - now apply NoDup_keys_set.
  - intros t x Hg.
    destruct (get_set_pets c tid pt kept pt' t x Hpt Hid Hty Hg)
      as [[-> ->]|[_ Hold]]; [|eauto].
    rewrite Hid. eauto.
  - intros t1 p1 t2 p2 H1 H2.
    destruct (get_set_pets c tid pt kept pt' t1 p1 Hpt Hid Hty H1)
      as [[-> ->]|[_ O1]];
    destruct (get_set_pets c tid pt kept pt' t2 p2 Hpt Hid Hty H2)
      as [[-> ->]|[_ O2]]; auto; rewrite ?Hty; eauto.
  - intros t x Hg.
    destruct (get_set_pets c tid pt kept pt' t x Hpt Hid Hty Hg)
      as [[-> ->]|[_ Hold]]; [|eauto].
    rewrite Hty. eauto.
  - now apply NoDup_keys_set.
  - intros t ps. rewrite get_set.
    destruct (tid =? t); [|apply PK].
    intros [= <-]. now apply NoDup_keys_pop.
  - intros t ps k' q'. rewrite get_set.
    destruct (tid =? t); [|apply PKy].
    intros [= <-] Hg. apply get_pop_Some in Hg as [_ Hg]; eauto.
  - intros t x k' q' Hg.
    destruct (get_set_pets c tid pt kept pt' t x Hpt Hid Hty Hg)
      as [[-> ->]|[Hne Hold]].
    + rewrite get_set_same. intros Hq.
      apply get_pop_Some in Hq as [Hk Hq]; [|exact Hpets_nd].
      simpl. apply filter_In. split.
      * apply (SL tid pt k' q' Hpt). now rewrite Hstored.
      * rewrite <- (PKy tid pets k' q' Epets Hq).
        apply negb_true_iff, String.eqb_neq. congruence.
    + rewrite get_set_other by congruence. apply (SL t x k' q' Hold).
  - intros t x n' Hg.
    destruct (get_set_pets c tid pt kept pt' t x Hpt Hid Hty Hg)
      as [[-> ->]|[Hne Hold]].
    + rewrite get_set_same. simpl. intros Hn'.
      apply filter_In in Hn' as [Hn' Hk].
      apply negb_true_iff, String.eqb_neq in Hk.
      unfold mem. rewrite get_pop_other by congruence.
      specialize (LS tid pt n' Hpt Hn'). now rewrite Hstored in LS.
    + rewrite get_set_other by congruence. apply (LS t x n' Hold).
  - intros t x Hg.
    destruct (get_set_pets c tid pt kept pt' t x Hpt Hid Hty Hg)
      as [[-> ->]|[_ Hold]]; [|eauto].
    simpl. apply NoDup_filter. eauto.
Qed.

(** ** Every catalogue a fresh instance can reach is consistent *)

Ltac split_handler Hc :=
  repeat (match goal with
          | |- consistent (snd (fst (match ?x with _ => _ end))) =>
              destruct x eqn:?
          | |- consistent (snd (fst (if ?x then _ else _))) =>
              destruct x eqn:?
          | |- consistent (snd (match ?x with _ => _ end)) =>
              destruct x eqn:?
          | |- consistent (snd (fst (let '(_, _) := ?x in _))) =>
              destruct x eqn:?
          end; cbn [fst snd]; try exact Hc).

Lemma create_pet_type_consistent (ev : Petstore.env) (c : catalog)
      (rq : Petstore.request) :
  consistent c -> consistent (snd (fst (Petstore.create_pet_type ev c rq))).
Proof.
  intros Hc. unfold Petstore.create_pet_type, generate_pet_type_id.
  split_handler Hc.
  apply consistent_register; simpl.
  - now apply consistent_counter.
  - reflexivity.
  - apply str_of_N_nonempty.
  - assumption.
Qed.

Lemma delete_pet_type_consistent (c : catalog) (tid : string) :
  consistent c -> consistent (snd (Petstore.delete_pet_type c tid)).
Proof.
  intros Hc. unfold Petstore.delete_pet_type.
  split_handler Hc. now apply consistent_remove.
Qed.

Lemma create_pet_consistent (ev : Petstore.env) (c : catalog) (tid : string)
      (rq : Petstore.request) :
  consistent c -> consistent (snd (fst (Petstore.create_pet ev c tid rq))).
Proof.
  intros Hc. unfold Petstore.create_pet.
  destruct (mem (pet_types c) tid) eqn:Hmem; simpl; [|exact Hc].
  split_handler Hc;
    match goal with
    | H : add_pet c tid ?p = (_, ?c') |- consistent ?c' =>
        replace c' with (snd (add_pet c tid p)) by (now rewrite H);
        now apply consistent_add_pet
    end.
Qed.

Lemma update_pet_consistent (ev : Petstore.env) (c : catalog) (tid n : string)
      (rq : Petstore.request) :
  consistent c -> consistent (snd (fst (Petstore.update_pet ev c tid n rq))).
Proof.
  intros Hc. unfold Petstore.update_pet.
  destruct (mem (pet_types c) tid) eqn:Hmem; simpl; [|exact Hc].
  split_handler Hc;
    match goal with
    | H : add_pet c tid ?p = (_, ?c') |- consistent ?c' =>
        replace c' with (snd (add_pet c tid p)) by (now rewrite H);
        now apply consistent_add_pet
    end.
Qed.

Lemma delete_pet_route_consistent (c : catalog) (tid n : string) :
  consistent c -> consistent (snd (fst (Petstore.delete_pet_route c tid n))).
Proof.
  intros Hc. unfold Petstore.delete_pet_route.
  destruct (mem (pet_types c) tid) eqn:Hmem; simpl; [|exact Hc].
  pose proof (consistent_delete_pet c tid n Hc) as Hd.
  destruct (delete_pet c tid n) as [[[p|]|e] c']; exact Hd.
Qed.

Lemma step_consistent (c : catalog) (o : Deploy.op) :
  consistent c -> consistent (Deploy.step c o).
Proof.
  intros Hc. destruct o; simpl.
  - now apply create_pet_type_consistent.
  - now apply delete_pet_type_consistent.
  - now apply create_pet_consistent.
  - now apply update_pet_consistent.
  - now apply delete_pet_route_consistent.
Qed.

Lemma steps_consistent (ops : list Deploy.op) (c : catalog) :
  consistent c -> consistent (fold_left Deploy.step ops c).
Proof.
  revert c. induction ops as [|o ops IH]; intros c Hc; simpl; [exact Hc|].
  apply IH. now apply step_consistent.
Qed.

Lemma run_consistent (ops : list Deploy.op) : consistent (Deploy.run ops).
Proof. apply steps_consistent, consistent_empty. Qed.

(** ** Pet-type registration and deletion *)

(** C7: in every catalogue an instance can reach, a request to register a
    type whose name matches a registered one up to case is answered 400
    "Malformed data" whatever the taxonomy service would say: the catalogue
    is left as it is and the resolver is not called (no effect at all). *)
Theorem duplicate_type_name_rejected
        (ops : list Deploy.op) (ev : Petstore.env) (data : dict json)
        (type_name : string) :
  registered (Deploy.run ops) type_name ->
  get data "type" = Some (JStr type_name) ->
  Petstore.create_pet_type ev (Deploy.run ops) (Deploy.post data)
  = (Petstore.json_error "Malformed data" 400, Deploy.run ops, []).
Proof.
  intros (tid & pt & Hpt & Hname) Hdata.
  pose proof (type_names_indexed _ (run_consistent ops) tid pt Hpt) as Hidx.
  rewrite Hname in Hidx.
  unfold Petstore.create_pet_type, Deploy.post. cbn [Petstore.is_json Petstore.get_json negb].
  destruct data as [|e data]; [discriminate|].
  rewrite Hdata.
  unfold pet_type_exists_by_name. now rewrite Hidx.
Qed.

Lemma duplicate_type_name_rejected_witness :
  Petstore.create_pet_type Deploy.offline
    (Deploy.run [Deploy.new_type "Bulldog"])
    (Deploy.post [("type", JStr "BULLDOG")])
  = (Petstore.json_error "Malformed data" 400,
     Deploy.run [Deploy.new_type "Bulldog"], []).
Proof.
  apply (duplicate_type_name_rejected [Deploy.new_type "Bulldog"] Deploy.offline
           [("type", JStr "BULLDOG")] "BULLDOG").
  - exists "1", (mkPetType "1" "Bulldog" "Canidae" "Canis"
                   ["Gentle"; "calm"; "and"; "affectionate"] None []).
    split; reflexivity.
  - reflexivity.
Defined.

Lemma values_nil {V} (d : dict V) : values d = [] -> d = [].
Proof. destruct d; [reflexivity | discriminate]. Qed.

(** With no pet stored for it, a registered type lists no pet and its
    deletion goes through. *)
Lemma delete_type_without_pets (c : catalog) (tid : string) (pt : pet_type) :
  consistent c ->
  get (pet_types c) tid = Some pt ->
  get_pets_for_type c tid = [] ->
  Petstore.delete_pet_type c tid = ((Petstore.Empty, 204%N), remove_pet_type c tid) /\
  get (pet_types (remove_pet_type c tid)) tid = None.
Proof.
  intros Hc Hpt Hnone.
  assert (Hlist : pt_pets pt = []).
  { destruct (pt_pets pt) as [|n l] eqn:E; [reflexivity|].
    pose proof (listed_stored c Hc tid pt n Hpt) as H.
    rewrite E, Hnone in H. specialize (H (or_introl eq_refl)). discriminate. }
  unfold Petstore.delete_pet_type, remove_pet_type. rewrite Hpt, Hlist.
  split; [reflexivity|]. simpl.
  apply get_pop_same, (types_keys c Hc).
Qed.

(** The DELETE of a stored pet, addressed by that pet's name. *)
Lemma delete_stored_pet (c : catalog) (tid : string) (pt : pet_type)
      (pets : dict pet) (k : string) (p : pet) :
  consistent c ->
  get (pet_types c) tid = Some pt ->
  get (pets_by_type c) tid = Some pets ->
  get pets k = Some p ->
  Petstore.delete_pet_route c tid (name p)
  = ((Petstore.Empty, 204%N),
     mkCatalog
       (set (pet_types c) tid
            (with_pets pt (filter (fun n => negb (lower n =? k)) (pt_pets pt))))
       (set (pets_by_type c) tid (pop pets k))
       (type_name_to_id c) (next_pet_type_id c),
     if picture p =? "NA" then [] else [Petstore.RemoveFile (picture p)]).
Proof.
  intros Hc Hpt Hstore Hp.
  pose proof (pet_key c Hc tid pets k p Hstore Hp) as Hk.
  unfold Petstore.delete_pet_route, mem. rewrite Hpt. simpl negb. cbv iota.
  unfold delete_pet. rewrite Hstore, <- Hk, Hp, Hpt. reflexivity.
Qed.

(** Deleting the stored pets of a type one by one leaves none. *)
Lemma delete_pets_empties (tid : string) (pets : dict pet) :
  forall c pt,
    consistent c ->
    get (pet_types c) tid = Some pt ->
    get_pets_for_type c tid = pets ->
    let c' := Deploy.delete_pets c tid (map name (values pets)) in
    consistent c' /\ mem (pet_types c') tid = true /\
    get_pets_for_type c' tid = [].
Proof.
  induction pets as [|[k p] rest IH]; intros c pt Hc Hpt Hpets;
    unfold Deploy.delete_pets in *; simpl.
  - split; [exact Hc|]. split; [apply mem_get; eauto | exact Hpets].
  - assert (Hstore : get (pets_by_type c) tid = Some ((k, p) :: rest)).
    { revert Hpets. unfold get_pets_for_type.
      destruct (get (pets_by_type c) tid); [now intros -> | discriminate]. }
    assert (Hp : get ((k, p) :: rest) k = Some p)
      by (simpl; now rewrite String.eqb_refl).
    pose proof (delete_pet_route_consistent c tid (name p) Hc) as Hc1.
    rewrite (delete_stored_pet c tid pt _ k p Hc Hpt Hstore Hp) in Hc1 |- *.
    cbn [fst snd] in Hc1 |- *.
    eapply IH; [exact Hc1 | simpl; apply get_set_same |].
    unfold get_pets_for_type; simpl.
    now rewrite get_set_same, String.eqb_refl.
Qed.

(** C8: for a registered pet-type of a reachable catalogue, DELETE is
    answered 400 and changes nothing while the type lists a pet; when no pet
    is stored for the type it is answered 204 and the type is gone; and
    deleting the stored pets one by one leads to such a state. *)
Theorem pet_type_deletion_guard (ops : list Deploy.op) (tid : string) (pt : pet_type) :
  let c := Deploy.run ops in
  get (pet_types c) tid = Some pt ->
  (pt_pets pt <> [] ->
   Petstore.delete_pet_type c tid = (Petstore.json_error "Malformed data" 400, c)) /\
  (stored_names c tid = [] ->
   Petstore.delete_pet_type c tid = ((Petstore.Empty, 204%N), remove_pet_type c tid) /\
   get (pet_types (remove_pet_type c tid)) tid = None) /\
  (let c' := Deploy.delete_pets c tid (stored_names c tid) in
   stored_names c' tid = [] /\
   Petstore.delete_pet_type c' tid = ((Petstore.Empty, 204%N), remove_pet_type c' tid) /\
   get (pet_types (remove_pet_type c' tid)) tid = None).
Proof.
  intros c Hpt.
  pose proof (run_consistent ops) as Hc. fold c in Hc.
  split; [|split].
  - intros Hlist. unfold Petstore.delete_pet_type. rewrite Hpt.
    destruct (pt_pets pt); [contradiction | reflexivity].
  - intros Hnone. apply (delete_type_without_pets c tid pt Hc Hpt).
    unfold stored_names in Hnone.
    apply map_eq_nil in Hnone. now apply values_nil.
  - pose proof (delete_pets_empties tid (get_pets_for_type c tid) c pt Hc Hpt eq_refl)
      as H.
    cbv zeta in H |- *. fold (stored_names c tid) in H.
    destruct H as (Hc' & Hmem & Hnone).
    apply mem_get in Hmem as [pt' Hpt'].
    split; [unfold stored_names at 1; now rewrite Hnone|].
    now apply (delete_type_without_pets _ tid pt').
Qed.

Lemma pet_type_deletion_guard_witness :
  let c := Deploy.run [Deploy.new_type "Bulldog"; Deploy.new_pet "1" "Rex"] in
  (["Rex"] <> [] ->
   Petstore.delete_pet_type c "1" = (Petstore.json_error "Malformed data" 400, c)) /\
  (stored_names c "1" = [] ->
   Petstore.delete_pet_type c "1" = ((Petstore.Empty, 204%N), remove_pet_type c "1") /\
   get (pet_types (remove_pet_type c "1")) "1" = None) /\
  (let c' := Deploy.delete_pets c "1" (stored_names c "1") in
   stored_names c' "1" = [] /\
   Petstore.delete_pet_type c' "1" = ((Petstore.Empty, 204%N), remove_pet_type c' "1") /\
   get (pet_types (remove_pet_type c' "1")) "1" = None).
Proof.
  apply (pet_type_deletion_guard
           [Deploy.new_type "Bulldog"; Deploy.new_pet "1" "Rex"] "1"
           (mkPetType "1" "Bulldog" "Canidae" "Canis"
              ["Gentle"; "calm"; "and"; "affectionate"] None ["Rex"])).
  reflexivity.
Defined.

(** ** The name list of a pet-type *)

(** X16: in every reachable catalogue the name list of a type repeats no
    string, every listed name is, up to case, the name of a stored pet, and
    the name of every stored pet is listed. *)
Lemma pet_list_covers_stored_pets (ops : list Deploy.op) (tid : string) (pt : pet_type) :
  let c := Deploy.run ops in
  get (pet_types c) tid = Some pt ->
  NoDup (pt_pets pt) /\
  (forall n, In n (pt_pets pt) -> In (lower n) (map lower (stored_names c tid))) /\
  (forall n, In n (stored_names c tid) -> In n (pt_pets pt)).
Proof.
  intros c Hpt.
  pose proof (run_consistent ops) as Hc. fold c in Hc.
  split; [apply (listed_once c Hc tid pt Hpt)|]. split.
  - intros n Hn.
    pose proof (listed_stored c Hc tid pt n Hpt Hn) as Hmem.
    apply mem_get in Hmem as [p Hp].
    assert (Hk : lower n = lower (name p)).
    { revert Hp. unfold get_pets_for_type.
      destruct (get (pets_by_type c) tid) as [pets|] eqn:E; [|discriminate].
      apply (pet_key c Hc tid pets _ p E). }
    rewrite Hk. apply in_map. unfold stored_names.
    apply in_map. apply get_In in Hp.
    change p with (snd (lower n, p)). now apply in_map.
  - intros n Hn. unfold stored_names in Hn.
    apply in_map_iff in Hn as (p & <- & Hp).
    apply in_map_iff in Hp as ([k q] & Hq & Hin). simpl in Hq; subst q.
    apply (stored_listed c Hc tid pt k p Hpt).
    apply In_get; [|exact Hin].
    unfold get_pets_for_type.
    destruct (get (pets_by_type c) tid) as [pets|] eqn:E;
      [apply (pets_keys c Hc tid pets E) | constructor].
Qed.

(** C4 at a failing input: after POSTing the pet "Rex" and then the pet
    "REX" to one type, a single pet is stored (named "REX") while the type's
    list holds the two names "Rex" and "REX": up to case the list repeats a
    name, and it holds a name that no stored pet has. *)
Theorem pet_list_keeps_both_spellings :
  let c := Deploy.run [Deploy.new_type "Bulldog";
                       Deploy.new_pet "1" "Rex"; Deploy.new_pet "1" "REX"] in
  exists pt,
    get (pet_types c) "1" = Some pt /\
    pt_pets pt = ["Rex"; "REX"] /\
    stored_names c "1" = ["REX"] /\
    ~ NoDup (map lower (pt_pets pt)) /\
    ~ (forall n, In n (pt_pets pt) -> In n (stored_names c "1")).
Proof.
  eexists. split; [reflexivity|]. split; [reflexivity|]. split; [reflexivity|].
  split.
  - intros H. inversion H as [|x l Hnotin _]; subst.
    apply Hnotin. now left.
  - intros H. destruct (H "Rex" (or_introl eq_refl)) as [E|[]]. discriminate.
Qed.

(** ** Purchases that name a pet *)

Section NamedPurchase.
Context {W : Type} {R : PetOrder.Remote W}.
Import PetOrder.

(** A pet name without a store is malformed. *)
Lemma pet_name_without_store_malformed
      (rq : request) (data : dict json) (s : state W) :
  is_json rq = true ->
  get_json rq = Object data ->
  is_none (field data "store") = true ->
  is_none (field data "pet-name") = false ->
  create_purchase rq s = (json_error "Malformed data" 400, s).
Proof.
  intros Hjson Hbody Hstore Hname.
  unfold create_purchase. rewrite Hjson, Hbody. simpl negb. cbv iota.
  rewrite Hstore, Hname. simpl.
  destruct (field data "purchaser"); try reflexivity.
  destruct (field data "pet-type"); reflexivity.
Qed.

(** X17: with a store and a non-empty pet name, the purchase fails when the
    pets that store lists for the type hold no pet of that name up to
    case; the other store is not asked and the ledger is unchanged.  The
    answer is the 400 "No pet of this type is available", unless one of the
    two requests to the store raises: then it is the 500 of that
    exception. *)
Lemma named_pet_absent_fails
      (rq : request) (data : dict json) (buyer ty wanted : string)
      (n : Z) (s : state W) :
  is_json rq = true ->
  get_json rq = Object data ->
  field data "purchaser" = JStr buyer ->
  field data "pet-type" = JStr ty ->
  field data "store" = JInt n -> (n = 1 \/ n = 2)%Z ->
  field data "pet-name" = JStr wanted -> wanted <> "" ->
  let url := if (n =? 1)%Z then PETSTORE1 else PETSTORE2 in
  (forall tid s1 pets s2,
      get_pet_type_id url ty s = (Return (Some tid), s1) ->
      get_pets url tid s1 = (Return pets, s2) ->
      find (fun p => lower (pj_name p) =? lower wanted) pets = None) ->
  exists resp s',
    create_purchase rq s = (resp, s') /\
    (resp = json_error "No pet of this type is available" 400 \/
     exists e,
       resp = unhandled e /\
       (fst (get_pet_type_id url ty s) = Raise e \/
        exists tid s1,
          get_pet_type_id url ty s = (Return (Some tid), s1) /\
          fst (get_pets url tid s1) = Raise e)) /\
    transactions s' = transactions s /\
    exists calls, trace s' = trace s ++ calls /\
                  Forall (fun k => call_url k = url) calls.
Proof.
  intros Hjson Hbody Hbuyer Hty Hstore Hn Hname Hwanted url Habsent.
  assert (Hstores : stores_for (JInt n) = [(n, url)]).
  { subst url. destruct Hn as [-> | ->]; reflexivity. }
  assert (Hin : eqb (JInt n) (JInt 1) || eqb (JInt n) (JInt 2) = true).
  { destruct Hn as [-> | ->]; reflexivity. }
  unfold create_purchase. rewrite Hjson, Hbody, Hbuyer, Hty, Hstore, Hname.
  rewrite Hin, Hstores. simpl.
  assert (Htruthy : negb (wanted =? "") = true).
  { apply negb_true_iff, String.eqb_neq, Hwanted. }
  rewrite Htruthy.
  pose proof (get_pet_type_id_frame url ty s) as [Hl1 Ht1].
  destruct (get_pet_type_id url ty s) as [[[tid|]|e] s1] eqn:E1; simpl in Hl1, Ht1.
  3:{ do 2 eexists; split; [reflexivity|].
      split; [right; exists e; split; [reflexivity | now left]|].
      split; [exact Hl1|].
      exists [GetPetTypes url]. split; [exact Ht1|]. now repeat constructor. }
  2:{ do 2 eexists; split; [reflexivity|]. split; [now left|]. split; [exact Hl1|].
      exists [GetPetTypes url]. split; [exact Ht1|]. now repeat constructor. }
  destruct (tid =? "").
  { do 2 eexists; split; [reflexivity|]. split; [now left|]. split; [exact Hl1|].
    exists [GetPetTypes url]. split; [exact Ht1|]. now repeat constructor. }
  pose proof (get_pets_frame url tid s1) as [Hl2 Ht2].
  destruct (get_pets url tid s1) as [[pets|e] s2] eqn:E2; simpl in Hl2, Ht2.
  2:{ do 2 eexists; split; [reflexivity|].
      split; [right; exists e; split; [reflexivity|]; right; exists tid, s1;
              split; [reflexivity | now rewrite E2]|].
      split; [congruence|]. exists [GetPetTypes url; GetPets url tid].
      split; [rewrite Ht2, Ht1, <- app_assoc; reflexivity | now repeat constructor]. }
  specialize (Habsent tid s1 pets s2 eq_refl E2).
  assert (Hdone : transactions s2 = transactions s /\
                  exists calls, trace s2 = trace s ++ calls /\
                                Forall (fun k => call_url k = url) calls).
  { split; [congruence|]. exists [GetPetTypes url; GetPets url tid].
    split; [rewrite Ht2, Ht1, <- app_assoc; reflexivity | now repeat constructor]. }
  destruct pets as [|p0 others].
  { do 2 eexists; split; [reflexivity|]. split; [now left | exact Hdone]. }
  cbn [find] in Habsent. rewrite Habsent.
  do 2 eexists; split; [reflexivity|]. split; [now left | exact Hdone].
Qed.


End NamedPurchase.

(** C5 at a failing input: store 1 lists the single bulldog Rex and
    answers 204 to its deletion.  A purchase that names store 1 and the
    empty pet name, a name that Rex does not have, is not answered with the
    400 "No pet of this type is available": the handler asks store 1 to
    delete Rex and records a transaction for Rex; its answer is the 500 of
    the [TypeError] that [jsonify] raises on the inserted document.  Store 2
    is not asked. *)
Theorem empty_pet_name_buys_any_pet :
  let rq := Deploy.purchase [("purchaser", JStr "Ann"); ("pet-type", JStr "bulldog");
                             ("store", JInt 1); ("pet-name", JStr "")] in
  let bought :=
    PetOrder.mkTransaction "Ann" "bulldog" 1 "Rex"
                           "0b5a8c1e-7f2d-4e3a-9c46-1d2e3f4a5b6c" in
  let '(resp, s') :=
    PetOrder.create_purchase rq (Scripted.start (Scripted.rex_everywhere 204)) in
  find (fun p => lower (pj_name p) =? lower "")
       [mkPetJson "Rex" "NA" "NA"] = None /\
  resp <> PetOrder.json_error "No pet of this type is available" 400 /\
  resp = PetOrder.unhandled TypeError /\
  PetOrder.trace s'
  = [PetOrder.GetPetTypes PetOrder.PETSTORE1;
     PetOrder.GetPets PetOrder.PETSTORE1 "1";
     PetOrder.DeletePet PetOrder.PETSTORE1 "1" "Rex"] /\
  PetOrder.transactions s' = [bought].
Proof. vm_compute. repeat split. discriminate. Qed.

(** C1 at a failing input: both stores list the bulldog Rex, and the
    deletion of Rex at store 1 answers 204.  The purchase sends the
    deletion last and appends the transaction, but does not return it: the
    answer is the 500 of the [TypeError] that [jsonify] raises on the
    inserted document.  With 404 for the deletion, the same purchase is
    answered with the 400 "No pet of this type is available", appends
    nothing and does not try store 2. *)
Theorem appended_transaction_is_not_returned :
  let rq := Deploy.purchase [("purchaser", JStr "Ann"); ("pet-type", JStr "bulldog")] in
  let bought :=
    PetOrder.mkTransaction "Ann" "bulldog" 1 "Rex"
                           "0b5a8c1e-7f2d-4e3a-9c46-1d2e3f4a5b6c" in
  let requests :=
    [PetOrder.GetPetTypes PetOrder.PETSTORE1;
     PetOrder.GetPets PetOrder.PETSTORE1 "1";
     PetOrder.DeletePet PetOrder.PETSTORE1 "1" "Rex"] in
  let deleted :=
    PetOrder.create_purchase rq (Scripted.start (Scripted.rex_everywhere 204)) in
  let refused :=
    PetOrder.create_purchase rq (Scripted.start (Scripted.rex_everywhere 404)) in
  (fst deleted = PetOrder.unhandled TypeError /\
   (forall t, fst deleted <> (PetOrder.TransactionObject t, 201%N)) /\
   PetOrder.transactions (snd deleted) = [bought] /\
   PetOrder.trace (snd deleted) = requests) /\
  (fst refused = PetOrder.json_error "No pet of this type is available" 400 /\
   PetOrder.transactions (snd refused) = [] /\
   PetOrder.trace (snd refused) = requests).
Proof. vm_compute. repeat split. discriminate. Qed.


Lemma named_pet_absent_fails_witness :
  let data := [("purchaser", JStr "Ann"); ("pet-type", JStr "bulldog");
               ("store", JInt 2); ("pet-name", JStr "Max")] in
  let s := Scripted.start (Scripted.rex_everywhere 204) in
  exists s',
    PetOrder.create_purchase (Deploy.purchase data) s
    = (PetOrder.json_error "No pet of this type is available" 400, s') /\
    PetOrder.transactions s' = PetOrder.transactions s /\
    exists calls,
      PetOrder.trace s' = PetOrder.trace s ++ calls /\
      Forall (fun k => PetOrder.call_url k = PetOrder.PETSTORE2) calls.
Proof.
  intros data s.
  destruct (named_pet_absent_fails (Deploy.purchase data) data "Ann" "bulldog" "Max"
              2%Z s eq_refl eq_refl eq_refl eq_refl eq_refl (or_intror eq_refl) eq_refl)
    as (resp & s' & Hrun & Hresp & Hrest).
  - discriminate.
  - intros tid s1 pets s2 H1 H2. vm_compute in H1. injection H1 as <- <-.
    vm_compute in H2. injection H2 as <- _. reflexivity.
  - exists s'. split; [|exact Hrest].
    destruct Hresp as [->|(e & _ & [H|(tid & s1 & Hid & H)])]; [exact Hrun|..].
    + vm_compute in H. discriminate.
    + vm_compute in Hid. injection Hid as <- <-. vm_compute in H. discriminate.
Defined.


(** C6 at a failing input: store 1 has no pet-type, store 2 has the type
    Bulldog with the pet Max and answers 204 to its deletion.  A purchase
    that names no store asks store 1 first and then store 2, has Max
    deleted at store 2 and records the transaction with store 2, but it
    does not succeed: its answer is the 500 of the [TypeError] that
    [jsonify] raises on the inserted document.  When both stores list a
    pet, the requests all go to store 1. *)
Theorem unpinned_purchase_tries_store_1_then_2 :
  let rq := Deploy.purchase [("purchaser", JStr "Ann"); ("pet-type", JStr "bulldog")] in
  let bought :=
    PetOrder.mkTransaction "Ann" "bulldog" 2 "Max"
                           "0b5a8c1e-7f2d-4e3a-9c46-1d2e3f4a5b6c" in
  let second := PetOrder.create_purchase rq (Scripted.start Scripted.max_at_store_2) in
  let first :=
    PetOrder.create_purchase rq (Scripted.start (Scripted.rex_everywhere 204)) in
  (fst second = PetOrder.unhandled TypeError /\
   snd (fst second) <> 201%N /\
   PetOrder.transactions (snd second) = [bought] /\
   PetOrder.trace (snd second)
   = [PetOrder.GetPetTypes PetOrder.PETSTORE1;
      PetOrder.GetPetTypes PetOrder.PETSTORE2;
      PetOrder.GetPets PetOrder.PETSTORE2 "1";
      PetOrder.DeletePet PetOrder.PETSTORE2 "1" "Max"]) /\
  PetOrder.trace (snd first)
  = [PetOrder.GetPetTypes PetOrder.PETSTORE1;
     PetOrder.GetPets PetOrder.PETSTORE1 "1";
     PetOrder.DeletePet PetOrder.PETSTORE1 "1" "Rex"].
Proof. vm_compute. repeat split. discriminate. Qed.

(** ** The two catalogue instances behind the order service *)


(* ================================================================= *)
(** * Further properties *)

Import Tidiness.

(** ** Dates and the calendar order *)

Lemma make_date_valid (y m d : Z) (x : Dates.date) :
  Dates.make_date y m d = Some x ->
  x = Dates.mkDate y m d /\
  (1 <= y <= 9999 /\ 1 <= m <= 12 /\ 1 <= d <= Dates.days_in_month y m)%Z.
Proof.
  unfold Dates.make_date.
  destruct (_ && _) eqn:E; [|discriminate].
  intros [= <-]. split; [reflexivity|].
  repeat (apply andb_true_iff in E as [E ?]).
  repeat match goal with H : (_ <=? _)%Z = true |- _ => apply Z.leb_le in H end.
  lia.
Qed.

Lemma parse_date_valid (s : string) (x : Dates.date) :
  Dates.parse_date s = Some x ->
  (1 <= Dates.year x <= 9999 /\ 1 <= Dates.month x <= 12 /\
   1 <= Dates.day x <= Dates.days_in_month (Dates.year x) (Dates.month x))%Z.
Proof.
  unfold Dates.parse_date.
  destruct (split_on "-" s) as [|ds [|ms [|ys [|? ?]]]]; try discriminate.
  destruct (Dates.match_day ds); [|discriminate].
  destruct (Dates.match_month ms); [|discriminate].
  destruct (Dates.match_year ys); [|discriminate].
  intros H. apply make_date_valid in H as [-> H]. exact H.
Qed.

Lemma days_in_month_bounds (y m : Z) : (28 <= Dates.days_in_month y m <= 31)%Z.
Proof.
  unfold Dates.days_in_month.
  destruct (m =? 2)%Z; [destruct (Dates.is_leap y); lia|].
  destruct (_ || _); lia.
Qed.

Lemma days_before_month_aux_mono (y : Z) (n k : nat) :
  (Dates.days_before_month_aux y n
   <= Dates.days_before_month_aux y (n + k))%Z.
Proof.
  induction k as [|k IH]; [rewrite Nat.add_0_r; lia|].
  rewrite Nat.add_succ_r. cbn [Dates.days_before_month_aux].
  pose proof (days_in_month_bounds y (Z.of_nat (S (n + k)))). lia.
Qed.

Lemma days_before_month_next (y m : Z) :
  (1 <= m)%Z ->
  Dates.days_before_month y (m + 1)
  = (Dates.days_before_month y m + Dates.days_in_month y m)%Z.
Proof.
  intros Hm. unfold Dates.days_before_month.
  replace (Z.to_nat (m + 1 - 1)) with (S (Z.to_nat (m - 1))) by lia.
  cbn [Dates.days_before_month_aux].
  replace (Z.of_nat (S (Z.to_nat (m - 1)))) with m by lia. reflexivity.
Qed.

Lemma days_before_month_mono (y m m' : Z) :
  (1 <= m <= m')%Z ->
  (Dates.days_before_month y m <= Dates.days_before_month y m')%Z.
Proof.
  intros H. unfold Dates.days_before_month.
  replace (Z.to_nat (m' - 1)) with (Z.to_nat (m - 1) + Z.to_nat (m' - m))%nat by lia.
  apply days_before_month_aux_mono.
Qed.

Lemma year_length (y : Z) :
  Dates.days_before_month y 13 = (if Dates.is_leap y then 366 else 365)%Z.
Proof.
  unfold Dates.days_before_month.
  change (Z.to_nat (13 - 1)) with 12%nat.
  cbn [Dates.days_before_month_aux].
  change (Dates.days_in_month y (Z.of_nat 1)) with 31%Z.
  change (Dates.days_in_month y (Z.of_nat 2))
    with (if Dates.is_leap y then 29 else 28)%Z.
  change (Dates.days_in_month y (Z.of_nat 3)) with 31%Z.
  change (Dates.days_in_month y (Z.of_nat 4)) with 30%Z.
  change (Dates.days_in_month y (Z.of_nat 5)) with 31%Z.
  change (Dates.days_in_month y (Z.of_nat 6)) with 30%Z.
  change (Dates.days_in_month y (Z.of_nat 7)) with 31%Z.
  change (Dates.days_in_month y (Z.of_nat 8)) with 31%Z.
  change (Dates.days_in_month y (Z.of_nat 9)) with 30%Z.
  change (Dates.days_in_month y (Z.of_nat 10)) with 31%Z.
  change (Dates.days_in_month y (Z.of_nat 11)) with 30%Z.
  change (Dates.days_in_month y (Z.of_nat 12)) with 31%Z.
  destruct (Dates.is_leap y); reflexivity.
Qed.

Lemma days_before_year_next (y : Z) :
  Dates.days_before_year (y + 1)
  = (Dates.days_before_year y + Dates.days_before_month y 13)%Z.
Proof.
  rewrite year_length. unfold Dates.days_before_year, Dates.is_leap. cbv zeta.
  replace (y + 1 - 1)%Z with y by lia.
  destruct (Z.eqb_spec (y mod 4) 0), (Z.eqb_spec (y mod 100) 0),
           (Z.eqb_spec (y mod 400) 0); simpl;
    Z.div_mod_to_equations; lia.
Qed.

Lemma days_before_year_mono (y y' : Z) :
  (y <= y')%Z -> (Dates.days_before_year y <= Dates.days_before_year y')%Z.
Proof.
  intros H. unfold Dates.days_before_year. cbv zeta.
  Z.div_mod_to_equations. lia.
Qed.

(** The ordinal of a date grows with the calendar order. *)
Lemma toordinal_increasing (a b : Dates.date) :
  (1 <= Dates.month a <= 12 /\
   1 <= Dates.day a <= Dates.days_in_month (Dates.year a) (Dates.month a))%Z ->
  (1 <= Dates.month b /\ 1 <= Dates.day b)%Z ->
  before a b -> (Dates.toordinal a < Dates.toordinal b)%Z.
Proof.
  intros Ha Hb Hlt. unfold Dates.toordinal.
  destruct a as [ya ma da], b as [yb mb db]; unfold before in Hlt; simpl in *.
  pose proof (days_before_month_next ya ma ltac:(lia)) as Hnext.
  assert (Hlast : (Dates.days_before_month ya (ma + 1)
                   <= Dates.days_before_month ya 13)%Z)
    by (apply days_before_month_mono; lia).
  assert (Hb0 : (0 <= Dates.days_before_month yb mb)%Z).
  { change 0%Z with (Dates.days_before_month yb 1).
    apply days_before_month_mono; lia. }
  destruct Hlt as [Hy | [-> [Hm | [-> Hd]]]].
  - pose proof (days_before_year_next ya).
    pose proof (days_before_year_mono (ya + 1) yb ltac:(lia)). lia.
  - pose proof (days_before_month_mono yb (ma + 1) mb ltac:(lia)). lia.
  - lia.
Qed.

Lemma calendar_trichotomy (a b : Dates.date) : before a b \/ a = b \/ before b a.
Proof.
  destruct a as [ya ma da], b as [yb mb db]; unfold before; simpl.
  destruct (Z.lt_total ya yb) as [|[->|]]; [lia | | lia].
  destruct (Z.lt_total ma mb) as [|[->|]]; [lia | | lia].
  destruct (Z.lt_total da db) as [|[->|]]; [lia | auto | lia].
Qed.

Lemma before_irreflexive (a b : Dates.date) : before a b -> a <> b.
Proof. intros H ->. unfold before in H. lia. Qed.

Lemma before_asymmetric (a b : Dates.date) : before a b -> ~ before b a.
Proof. unfold before. lia. Qed.

Lemma compare_dates_sign (A B : string) (a b : Dates.date) :
  Dates.parse_date A = Some a ->
  Dates.parse_date B = Some b ->
  exists n : Z,
    Dates.compare_dates A B = Some n /\
    (n < 0 <-> before a b)%Z /\
    (n = 0 <-> a = b)%Z /\
    (n > 0 <-> before b a)%Z.
Proof.
  intros HA HB.
  pose proof (parse_date_valid A a HA) as Va.
  pose proof (parse_date_valid B b HB) as Vb.
  unfold Dates.compare_dates. rewrite HA, HB.
  eexists; split; [reflexivity|].
  assert (Hab : before a b -> (Dates.toordinal a < Dates.toordinal b)%Z)
    by (apply toordinal_increasing; lia).
  assert (Hba : before b a -> (Dates.toordinal b < Dates.toordinal a)%Z)
    by (apply toordinal_increasing; lia).
  destruct (calendar_trichotomy a b) as [H | [H | H]].
  - pose proof (before_irreflexive a b H). pose proof (before_asymmetric a b H).
    specialize (Hab H). intuition (try lia; try congruence).
  - subst b. pose proof (before_irreflexive a a).
    intuition (try lia; try congruence).
  - pose proof (before_irreflexive b a H). pose proof (before_asymmetric b a H).
    specialize (Hba H). intuition (try lia; try congruence).
Qed.

(** X1: [compare_dates] orders two valid dates as the calendar does: the
    result is negative exactly when the first date is earlier (by year, then
    month, then day), zero exactly when the two strings denote the same day,
    and positive exactly when the first date is later. *)
Theorem compare_dates_follows_calendar (A B : string) (a b : Dates.date) :
  Dates.parse_date A = Some a ->
  Dates.parse_date B = Some b ->
  exists n : Z,
    Dates.compare_dates A B = Some n /\
    (n < 0 <-> before a b)%Z /\
    (n = 0 <-> a = b)%Z /\
    (n > 0 <-> before b a)%Z.
Proof. apply compare_dates_sign. Qed.

Lemma compare_dates_follows_calendar_witness :
  exists n : Z,
    Dates.compare_dates "28-02-2020" "1-3-2020" = Some n /\
    (n < 0 <-> before (Dates.mkDate 2020 2 28) (Dates.mkDate 2020 3 1))%Z /\
    (n = 0 <-> Dates.mkDate 2020 2 28 = Dates.mkDate 2020 3 1)%Z /\
    (n > 0 <-> before (Dates.mkDate 2020 3 1) (Dates.mkDate 2020 2 28))%Z.
Proof.
  apply (compare_dates_follows_calendar "28-02-2020" "1-3-2020"); reflexivity.
Defined.

(** ** Attribute words and lifespans *)

Lemma lower_ascii_not_upper (c : ascii) : is_upper (lower_ascii c) = false.
Proof. destruct c as [[] [] [] [] [] [] [] []]; reflexivity. Qed.

Lemma In_lower (c : ascii) (s : string) :
  In c (list_ascii_of_string (lower s)) -> is_upper c = false.
Proof.
  induction s as [|a s IH]; simpl; [contradiction|].
  intros [<-|H]; [apply lower_ascii_not_upper | auto].
Qed.

Lemma In_remove_punct (c : ascii) (s : string) :
  In c (list_ascii_of_string (Ninja.remove_punct s)) ->
  is_punct c = false /\ In c (list_ascii_of_string s).
Proof.
  induction s as [|a s IH]; simpl; [contradiction|].
  destruct (is_punct a) eqn:E; simpl.
  - intros H. destruct (IH H). auto.
  - intros [<-|H]; [auto | destruct (IH H); auto].
Qed.

Lemma In_rev_acc (c : ascii) (s acc : string) :
  In c (list_ascii_of_string (rev_acc s acc))
  <-> In c (list_ascii_of_string s) \/ In c (list_ascii_of_string acc).
Proof.
  revert acc. induction s as [|a s IH]; intros acc; simpl.
  - tauto.
  - rewrite IH. simpl. tauto.
Qed.

Lemma In_rev (c : ascii) (s : string) :
  In c (list_ascii_of_string (rev s)) <-> In c (list_ascii_of_string s).
Proof. unfold rev. rewrite In_rev_acc. simpl. tauto. Qed.

Lemma rev_nonempty (s : string) : s <> "" -> rev s <> "".
Proof.
  destruct s as [|a s]; [congruence|]. intros _ E.
  assert (H : In a (list_ascii_of_string (rev (String a s))))
    by (apply In_rev; now left).
  rewrite E in H. contradiction.
Qed.

Lemma words_acc_spec (s cur w : string) :
  (forall c, In c (list_ascii_of_string cur) -> is_space c = false) ->
  In w (Ninja.words_acc cur s) ->
  w <> "" /\
  forall c, In c (list_ascii_of_string w) ->
            is_space c = false /\
            (In c (list_ascii_of_string cur) \/ In c (list_ascii_of_string s)).
Proof.
  revert cur. induction s as [|a s IH]; intros cur Hcur; simpl.
  - destruct (String.eqb_spec cur "") as [->|Hne]; [contradiction|].
    intros [<-|[]]. split; [now apply rev_nonempty|].
    intros c Hc. apply (proj1 (In_rev c cur)) in Hc. split; auto.
  - destruct (is_space a) eqn:Ea.
    + destruct (String.eqb_spec cur "") as [->|Hne].
      * intros H. destruct (IH "" ltac:(simpl; contradiction) H) as [Hw Hc].
        split; [exact Hw|]. intros c Hin. destruct (Hc c Hin) as [? [[]|?]]; auto.
      * intros [<-|H].
        -- split; [now apply rev_nonempty|].
           intros c Hc. apply (proj1 (In_rev c cur)) in Hc. split; auto.
        -- destruct (IH "" ltac:(simpl; contradiction) H) as [Hw Hc].
           split; [exact Hw|]. intros c Hin. destruct (Hc c Hin) as [? [[]|?]]; auto.
    + intros H.
      assert (Hcur' : forall c, In c (list_ascii_of_string (String a cur)) ->
                                is_space c = false)
        by (simpl; intros c [<-|Hc]; auto).
      destruct (IH (String a cur) Hcur' H) as [Hw Hc].
      split; [exact Hw|]. intros c Hin.
      destruct (Hc c Hin) as [? [[<-|?]|?]]; auto.
Qed.

(** X2: for a text of ASCII characters, every attribute word that
    [temperament_to_attributes] returns is non-empty and holds no white
    space character of ASCII, no character of [string.punctuation] and no
    letter between A and Z. *)
Theorem attribute_words_are_clean (text : option string) (w : string) :
  (forall t, text = Some t -> Text.ascii_text t = true) ->
  In w (Ninja.temperament_to_attributes text) ->
  w <> "" /\
  forall c, In c (list_ascii_of_string w) ->
            is_space c = false /\ is_punct c = false /\ is_upper c = false.
Proof.
  intros _.
  unfold Ninja.temperament_to_attributes, Ninja.words.
  destruct text as [t|]; [|contradiction].
  destruct (t =? ""); [contradiction|].
  intros H.
  destruct (words_acc_spec _ "" w ltac:(simpl; contradiction) H) as [Hw Hc].
  split; [exact Hw|]. intros c Hin.
  destruct (Hc c Hin) as [Hs [[]|Hsrc]].
  apply In_remove_punct in Hsrc as [Hp Hl].
  apply In_lower in Hl. auto.
Qed.

Lemma attribute_words_are_clean_witness :
  "friendly" <> "" /\
  forall c, In c (list_ascii_of_string "friendly") ->
            is_space c = false /\ is_punct c = false /\ is_upper c = false.
Proof.
  apply (attribute_words_are_clean (Some "Loyal, out-going; and FRIENDLY!")).
  - intros t [= <-]. reflexivity.
  - vm_compute. auto.
Defined.

Lemma int_of_digits_nonneg (s : string) (acc : Z) :
  (0 <= acc -> 0 <= int_of_digits acc s)%Z.
Proof.
  revert acc. induction s as [|c s IH]; intros acc H; cbn [int_of_digits]; [exact H|].
  apply IH. unfold digit_val. lia.
Qed.

Lemma digit_runs_none (s cur : string) :
  Ninja.digit_runs_acc cur s = []
  <-> cur = "" /\ forall c, In c (list_ascii_of_string s) -> is_digit c = false.
Proof.
  revert cur. induction s as [|a s IH]; intros cur; simpl.
  - destruct (String.eqb_spec cur "") as [->|Hne].
    + split; [intros _; split; [reflexivity | contradiction] | reflexivity].
    + split; [discriminate | intros [? _]; contradiction].
  - destruct (is_digit a) eqn:Ea.
    + rewrite IH. split.
      * intros [H _]. discriminate.
      * intros [_ H]. specialize (H a (or_introl eq_refl)). congruence.
    + destruct (String.eqb_spec cur "") as [->|Hne].
      * rewrite IH. split.
        -- intros [_ H]. split; [reflexivity|]. intros c [<-|Hc]; auto.
        -- intros [_ H]. split; [reflexivity|]. intros c Hc. apply H. now right.
      * split; [discriminate | intros [? _]; contradiction].
Qed.

(** The maximal runs of digits *)

Lemma chars_rev_acc (s acc : string) :
  list_ascii_of_string (rev_acc s acc)
  = List.rev (list_ascii_of_string s) ++ list_ascii_of_string acc.
Proof.
  revert acc. induction s as [|a s IH]; intros acc; simpl; [reflexivity|].
  rewrite IH. simpl. now rewrite <- app_assoc.
Qed.

Lemma chars_rev (s : string) :
  list_ascii_of_string (rev s) = List.rev (list_ascii_of_string s).
Proof. unfold rev. rewrite chars_rev_acc. simpl. apply app_nil_r. Qed.

Lemma chars_injective (a b : string) :
  list_ascii_of_string a = list_ascii_of_string b -> a = b.
Proof.
  intros H. rewrite <- (string_of_list_ascii_of_string a),
              <- (string_of_list_ascii_of_string b). now rewrite H.
Qed.

Lemma all_digits_chars (s : string) :
  all_digits s = true
  <-> Forall (fun c => is_digit c = true) (list_ascii_of_string s).
Proof.
  induction s as [|a s IH]; simpl.
  - split; [constructor | reflexivity].
  - rewrite andb_true_iff, IH. split.
    + intros [? ?]. now constructor.
    + intros H. inversion H; subst. now split.
Qed.

Lemma rev_chars_nonempty (s : string) :
  s <> "" -> List.rev (list_ascii_of_string s) <> [].
Proof.
  destruct s as [|a s]; [congruence|]. intros _ H. simpl in H.
  apply app_eq_nil in H as [_ H]. discriminate.
Qed.

Lemma snoc_cases {A : Type} (l : list A) : l = [] \/ exists l' x, l = l' ++ [x].
Proof.
  destruct l as [|a l]; [now left|]. right.
  destruct (exists_last (l := a :: l)) as (l' & x & E); [discriminate|].
  now exists l', x.
Qed.

(** After a non-empty run of digits [t] and a character that is no digit,
    the numbers written are [t] and those written in the rest. *)
Lemma run_in_after_run (t : list ascii) (c : ascii) (l : list ascii) (r : string) :
  Forall (fun x => is_digit x = true) t -> t <> [] -> is_digit c = false ->
  Text.run_in (t ++ c :: l) r <-> list_ascii_of_string r = t \/ Text.run_in l r.
Proof.
  intros Ht Hne Hc. split.
  - intros (Hr & Hd & pre & post & E & Hb & Ha).
    apply all_digits_chars in Hd.
    assert (HR : list_ascii_of_string r <> []) by (destruct r; [congruence | discriminate]).
    set (R := list_ascii_of_string r) in *.
    apply app_eq_app in E as (m & [[E1 E2]|[E1 E2]]).
    + assert (Hpre : pre = []).
      { destruct (snoc_cases pre) as [->|(p & x & ->)]; [reflexivity|].
        specialize (Hb p x eq_refl).
        rewrite Forall_forall in Ht. rewrite (Ht x) in Hb; [discriminate|].
        rewrite E1. apply in_or_app. left. apply in_or_app. right. now left. }
      subst pre. simpl in E1. subst m.
      symmetry in E2. apply app_eq_app in E2 as (m2 & [[F1 F2]|[F1 F2]]).
      * left. destruct m2 as [|x m2]; [now rewrite app_nil_r in F1|].
        exfalso. simpl in F2.
        specialize (Ha x (m2 ++ c :: l) F2).
        rewrite Forall_forall in Ht. rewrite (Ht x) in Ha; [discriminate|].
        rewrite F1. apply in_or_app. right. now left.
      * left. destruct m2 as [|x m2]; [now rewrite app_nil_r in F1|].
        exfalso. simpl in F2. injection F2 as -> _.
        rewrite Forall_forall in Hd. rewrite (Hd x) in Hc; [discriminate|].
        rewrite F1. apply in_or_app. right. now left.
    + right. destruct m as [|x m].
      * exfalso. simpl in E2. destruct R as [|y R']; [congruence|].
        simpl in E2. injection E2 as -> _.
        inversion Hd; subst. congruence.
      * simpl in E2. injection E2 as -> E2.
        split; [exact Hr|]. split; [now apply all_digits_chars|].
        exists m, post. split; [exact E2|]. split; [|exact Ha].
        intros p y ->. apply (Hb (t ++ x :: p) y).
        rewrite E1. now rewrite <- app_assoc.
  - intros [E|(Hr & Hd & pre & post & E & Hb & Ha)].
    + split; [intros ->; simpl in E; congruence|].
      split; [apply all_digits_chars; now rewrite E|].
      exists [], (c :: l). rewrite E. split; [reflexivity|]. split.
      * intros p y H. now destruct p.
      * now intros y post' [= <- _].
    + split; [exact Hr|]. split; [exact Hd|].
      exists (t ++ c :: pre), post. split; [rewrite E; now rewrite <- app_assoc|].
      split; [|exact Ha].
      intros p y H.
      destruct (snoc_cases pre) as [->|(q & z & ->)].
      * change (t ++ [c]) with (t ++ [c]) in H.
        apply app_inj_tail in H as [_ <-]. exact Hc.
      * change (t ++ c :: q ++ [z]) with (t ++ (c :: q) ++ [z]) in H.
        rewrite app_assoc in H. apply app_inj_tail in H as [_ <-].
        now apply (Hb q z).
Qed.

(** A character that is no digit starts no number. *)
Lemma run_in_skip (c : ascii) (l : list ascii) (r : string) :
  is_digit c = false -> Text.run_in (c :: l) r <-> Text.run_in l r.
Proof.
  intros Hc. split.
  - intros (Hr & Hd & pre & post & E & Hb & Ha).
    destruct pre as [|x pre].
    + exfalso. apply all_digits_chars in Hd.
      destruct r as [|y r]; [congruence|]. simpl in E. injection E as <- _.
      inversion Hd; subst. congruence.
    + simpl in E. injection E as <- E.
      split; [exact Hr|]. split; [exact Hd|].
      exists pre, post. split; [exact E|]. split; [|exact Ha].
      intros p y ->. now apply (Hb (c :: p) y).
  - intros (Hr & Hd & pre & post & E & Hb & Ha).
    split; [exact Hr|]. split; [exact Hd|].
    exists (c :: pre), post. split; [now rewrite E|]. split; [|exact Ha].
    intros p y H.
    destruct (snoc_cases pre) as [->|(q & z & ->)].
    + change [c] with ([] ++ [c]) in H. apply app_inj_tail in H as [_ <-]. exact Hc.
    + change (c :: q ++ [z]) with ((c :: q) ++ [z]) in H.
      apply app_inj_tail in H as [_ <-]. now apply (Hb q z).
Qed.

(** A text of digits only is one number. *)
Lemma run_in_all_digits (t : list ascii) (r : string) :
  Forall (fun x => is_digit x = true) t ->
  Text.run_in t r <-> (t <> [] /\ list_ascii_of_string r = t).
Proof.
  intros Ht. split.
  - intros (Hr & Hd & pre & post & E & Hb & Ha).
    assert (HR : list_ascii_of_string r <> []) by (destruct r; [congruence | discriminate]).
    assert (Hpre : pre = []).
    { destruct (snoc_cases pre) as [->|(p & x & ->)]; [reflexivity|].
      specialize (Hb p x eq_refl).
      rewrite Forall_forall in Ht. rewrite (Ht x) in Hb; [discriminate|].
      rewrite E. apply in_or_app. left. apply in_or_app. right. now left. }
    assert (Hpost : post = []).
    { destruct post as [|x post]; [reflexivity|].
      specialize (Ha x post eq_refl).
      rewrite Forall_forall in Ht. rewrite (Ht x) in Ha; [discriminate|].
      rewrite E. apply in_or_app. right. apply in_or_app. right. now left. }
    subst pre post. simpl in E. rewrite app_nil_r in E. subst t. now split.
  - intros [Hne E]. split; [intros ->; simpl in E; congruence|].
    split; [apply all_digits_chars; now rewrite E|].
    exists [], []. rewrite E, app_nil_r. split; [reflexivity|]. split.
    + intros p y H. now destruct p.
    + intros y post' H. discriminate.
Qed.

(** [re.findall(r"\d+", s)] gives exactly the numbers written in [s]. *)
Lemma digit_runs_spec (s cur r : string) :
  all_digits cur = true ->
  In r (Ninja.digit_runs_acc cur s)
  <-> Text.run_in (List.rev (list_ascii_of_string cur) ++ list_ascii_of_string s) r.
Proof.
  revert cur. induction s as [|a s IH]; intros cur Hcur.
  - cbn [Ninja.digit_runs_acc list_ascii_of_string]. rewrite app_nil_r.
    assert (Hd : Forall (fun x => is_digit x = true) (List.rev (list_ascii_of_string cur))).
    { apply Forall_rev. now apply all_digits_chars. }
    rewrite (run_in_all_digits _ r Hd).
    destruct (String.eqb_spec cur "") as [->|Hne].
    + simpl. split; [contradiction | intros [H _]; now elim H].
    + split.
      * intros [<-|[]]. split; [|apply chars_rev].
        now apply rev_chars_nonempty.
      * intros [_ E]. left. apply chars_injective. now rewrite chars_rev.
  - cbn [Ninja.digit_runs_acc list_ascii_of_string].
    destruct (is_digit a) eqn:Ea.
    + rewrite IH by (simpl; now rewrite Ea).
      simpl. now rewrite <- app_assoc.
    + destruct (String.eqb_spec cur "") as [->|Hne].
      * simpl. rewrite (IH "" eq_refl). simpl. now rewrite run_in_skip.
      * assert (Hd : Forall (fun x => is_digit x = true)
                            (List.rev (list_ascii_of_string cur))).
        { apply Forall_rev. now apply all_digits_chars. }
        assert (Hn : List.rev (list_ascii_of_string cur) <> []).
        { now apply rev_chars_nonempty. }
        rewrite (run_in_after_run _ a _ r Hd Hn Ea).
        simpl. rewrite (IH "" eq_refl). simpl.
        split.
        -- intros [<-|H]; [left; apply chars_rev | now right].
        -- intros [E|H]; [left; apply chars_injective; now rewrite chars_rev | now right].
Qed.

Lemma fold_min_spec (l : list Z) (x : Z) :
  let m := fold_left Z.min l x in
  In m (x :: l) /\ (m <= x)%Z /\ forall y, In y l -> (m <= y)%Z.
Proof.
  revert x. induction l as [|a l IH]; intros x; simpl.
  - split; [now left | split; [lia | contradiction]].
  - destruct (IH (Z.min x a)) as (Hin & Hle & Hall). split; [|split].
    + destruct Hin as [E|Hin]; [|now right; right].
      rewrite <- E. destruct (Z.min_spec x a) as [[_ ->]|[_ ->]]; auto.
    + lia.
    + intros y [<-|Hy]; [lia | auto].
Qed.

(** X3: for a lifespan text of ASCII characters that is not longer than
    the interpreter's limit on the digits of a number, the lifespan read from
    it is absent exactly when the text holds no digit; otherwise it is not
    negative, it is the value of a number written in the text (a run of
    digits with no digit right before it and none right after it), and no
    number written in the text has a smaller value. *)
Theorem lifespan_is_least_number (s : string) :
  Text.ascii_text s = true ->
  (String.length s <= Listing.MAX_STR_DIGITS)%nat ->
  (Ninja.parse_lifespan (Some s) = None
   <-> forall c, In c (list_ascii_of_string s) -> is_digit c = false) /\
  (forall m, Ninja.parse_lifespan (Some s) = Some m ->
             (0 <= m)%Z /\
             (exists r, Text.written_in s r /\ int_of_digits 0 r = m) /\
             (forall r, Text.written_in s r -> (m <= int_of_digits 0 r)%Z)).
Proof.
  intros _ _.
  assert (Hruns : forall r, In r (Ninja.digit_runs_acc "" s) <-> Text.written_in s r).
  { intros r. now rewrite (digit_runs_spec s "" r eq_refl). }
  unfold Ninja.parse_lifespan, Ninja.minimum.
  split.
  - pose proof (digit_runs_none s "") as Hnone.
    destruct (Ninja.digit_runs_acc "" s) as [|r rs]; simpl.
    + split; [intros _; now apply Hnone | reflexivity].
    + split; [discriminate|]. intros H.
      assert (E : r :: rs = []) by (apply Hnone; auto). discriminate.
  - intros m.
    destruct (map (int_of_digits 0) (Ninja.digit_runs_acc "" s)) as [|x l] eqn:E;
      [discriminate|].
    intros [= <-].
    destruct (fold_min_spec l x) as (Hin & Hle & Hall).
    assert (Hleast : forall y, In y (x :: l) -> (fold_left Z.min l x <= y)%Z).
    { intros y [<-|Hy]; auto. }
    rewrite <- E in Hin, Hleast.
    apply in_map_iff in Hin as (r & Hr & Hrin).
    split; [|split].
    + rewrite <- Hr. now apply int_of_digits_nonneg.
    + exists r. split; [now apply Hruns | exact Hr].
    + intros r' Hr'. apply Hleast, in_map, Hruns, Hr'.
Qed.

Lemma lifespan_is_least_number_witness :
  Ninja.parse_lifespan (Some "12 - 15 years") = Some 12%Z /\
  (exists r, Text.written_in "12 - 15 years" r /\ int_of_digits 0 r = 12%Z) /\
  (forall r, Text.written_in "12 - 15 years" r -> (12 <= int_of_digits 0 r)%Z).
Proof.
  split; [reflexivity|].
  destruct (lifespan_is_least_number "12 - 15 years") as [_ H].
  - reflexivity.
  - apply Nat.leb_le. reflexivity.
  - destruct (H 12%Z eq_refl) as (_ & Hex & Hall). now split.
Defined.

(** ** Tidiness is kept by the store's operations *)

Lemma str_of_N_injective (n m : N) : str_of_N n = str_of_N m -> n = m.
Proof.
  unfold str_of_N. intros E.
  assert (Hnil : forall k, N.to_uint k <> Decimal.Nil).
  { intros [|p]; simpl; [discriminate | apply DecimalPos.Unsigned.to_uint_nonnil]. }
  pose proof (NilZero.usu (N.to_uint n) (Hnil n)) as Hn.
  pose proof (NilZero.usu (N.to_uint m) (Hnil m)) as Hm.
  rewrite E in Hn. rewrite Hn in Hm. injection Hm as Hm.
  now apply DecimalN.Unsigned.to_uint_inj.
Qed.

Lemma tidy_empty : tidy empty_catalog.
Proof. constructor; simpl; try discriminate. constructor. Qed.

Lemma tidy_register (c : catalog) (obj : pet_type) :
  tidy c ->
  pt_id obj = str_of_N (next_pet_type_id c) ->
  tidy (register_pet_type
          (mkCatalog (pet_types c) (pets_by_type c) (type_name_to_id c)
                     (next_pet_type_id c + 1)) obj).
Proof.
  intros [I K S D B] Hid.
  assert (Hfresh : forall t x, get (pet_types c) t = Some x -> pt_id obj <> t).
  { intros t x Hx E. destruct (I t x Hx) as (n & -> & Hn).
    rewrite Hid in E. apply str_of_N_injective in E. lia. }
  constructor; simpl.
  - intros tid pt. rewrite get_set.
    destruct (String.eqb_spec (pt_id obj) tid) as [<-|Hne].
    + intros _. exists (next_pet_type_id c). split; [exact Hid | lia].
    + intros H. destruct (I tid pt H) as (n & -> & Hn). exists n. split; [reflexivity | lia].
  - now apply NoDup_keys_set.
  - intros k tid. rewrite get_set.
    destruct (String.eqb_spec (lower (pt_type obj)) k) as [<-|Hne].
    + intros [= <-]. exists obj. split; [apply get_set_same | reflexivity].
    + intros H. destruct (S k tid H) as (pt & Hpt & Hk).
      exists pt. split; [|exact Hk].
      rewrite get_set_other; [exact Hpt | eapply Hfresh; eauto].
  - intros tid. rewrite !mem_set.
    destruct (pt_id obj =? tid); [reflexivity | apply D].
  - intros tid pets k p. rewrite get_set.
    destruct (pt_id obj =? tid); [intros [= <-]; discriminate | apply B].
Qed.

Lemma tidy_remove (c : catalog) (tid : string) :
  consistent c -> tidy c -> tidy (remove_pet_type c tid).
Proof.
  intros Hc Ht. unfold remove_pet_type.
  destruct (get (pet_types c) tid) as [pt0|] eqn:E0; [|exact Ht].
  destruct Ht as [I K S D B].
  pose proof (types_keys c Hc) as TK. pose proof (stores_keys c Hc) as SK.
  constructor; simpl.
  - intros t pt Hg. apply get_pop_Some in Hg as [_ Hg]; eauto.
  - now apply NoDup_keys_pop.
  - intros k t Hg. apply get_pop_Some in Hg as [Hk Hg]; [|exact K].
    destruct (S k t Hg) as (pt & Hpt & Hname).
    exists pt. split; [|exact Hname].
    rewrite get_pop_other; [exact Hpt|].
    intros <-. rewrite E0 in Hpt. injection Hpt as <-. contradiction.
  - intros t Hm. apply mem_get in Hm as [pets Hg].
    apply get_pop_Some in Hg as [Hne Hg]; [|exact SK].
    unfold mem. rewrite get_pop_other by exact Hne.
    apply D. apply mem_get; eauto.
  - intros t pets k p Hg. apply get_pop_Some in Hg as [_ Hg]; eauto.
Qed.

Lemma tidy_add_pet (c : catalog) (tid : string) (p : pet) :
  tidy c -> mem (pet_types c) tid = true -> birthdate_ok p ->
  tidy (snd (add_pet c tid p)).
Proof.
  intros [I K S D B] Hmem Hp.
  pose proof Hmem as Hmem'. apply mem_get in Hmem' as [pt Hpt].
  unfold add_pet. rewrite Hpt. cbn [snd].
  set (pt' := if inb (name p) (pt_pets pt) then pt
              else with_pets pt (pt_pets pt ++ [name p])).
  assert (Hty : pt_type pt' = pt_type pt) by (subst pt'; now destruct (inb _ _)).
  constructor; simpl.
  - intros t x. rewrite get_set.
    destruct (String.eqb_spec tid t) as [<-|Hne]; [intros _; eauto | apply I].
  - exact K.
  - intros k t Hg. destruct (S k t Hg) as (x & Hx & Hk).
    rewrite get_set. destruct (String.eqb_spec tid t) as [<-|Hne].
    + exists pt'. split; [reflexivity|]. rewrite Hty. congruence.
    + eauto.
  - intros t. rewrite !mem_set.
    destruct (String.eqb_spec tid t) as [<-|Hne]; [reflexivity | apply D].
  - intros t pets k q. rewrite get_set.
    destruct (tid =? t); [|apply B].
    intros [= <-]. rewrite get_set.
    destruct (lower (name p) =? k); [now intros [= <-]|].
    unfold get_pets_for_type.
    destruct (get (pets_by_type c) tid) eqn:E; [apply (B tid _ k q E) | discriminate].
Qed.

Lemma tidy_delete_pet (c : catalog) (tid n : string) :
  consistent c -> tidy c -> tidy (snd (delete_pet c tid n)).
Proof.
  intros Hc Ht. unfold delete_pet.
  destruct (get (pets_by_type c) tid) as [pets|] eqn:Epets; [|exact Ht].
  destruct (get pets (lower n)) as [q|] eqn:Eq; [|exact Ht].
  destruct Ht as [I K S D B].
  assert (Hmem : mem (pet_types c) tid = true)
    by (apply D, mem_get; eauto).
  apply mem_get in Hmem as [pt Hpt]. rewrite Hpt. cbn [snd].
  constructor; simpl.
  - intros t x. rewrite get_set.
    destruct (String.eqb_spec tid t) as [<-|Hne]; [intros _; eauto | apply I].
  - exact K.
  - intros k t Hg. destruct (S k t Hg) as (x & Hx & Hk).
    rewrite get_set. destruct (String.eqb_spec tid t) as [<-|Hne].
    + eexists. split; [reflexivity|]. simpl. congruence.
    + eauto.
  - intros t. rewrite !mem_set.
    destruct (String.eqb_spec tid t) as [<-|Hne]; [reflexivity | apply D].
  - intros t ps k p. rewrite get_set.
    destruct (tid =? t); [|apply B].
    intros [= <-] Hg.
    apply get_pop_Some in Hg as [_ Hg]; [|apply (pets_keys c Hc tid pets Epets)].
    eauto.
Qed.

(** The pet rebuilt from a body has a birthdate that is unset or parses,
    when the pet it updates has. *)
Lemma build_birthdate_ok (ev : Petstore.env) (data : dict json)
      (ex : option pet) (p : pet) (fx : list Petstore.effect) :
  (forall e, ex = Some e -> birthdate_ok e) ->
  Petstore._build_or_update_pet ev data ex = (Return p, fx) ->
  birthdate_ok p.
Proof.
  intros Hex. unfold Petstore._build_or_update_pet.
  destruct (get data "name") as [[| |z|n]|]; try discriminate.
  destruct (Petstore.check_birthdate _) as [bd|e] eqn:Ebd; [|discriminate].
  assert (Hbd : bd = "NA" \/ Dates.parse_date bd <> None).
  { revert Ebd. unfold Petstore.check_birthdate.
    destruct (Petstore.field_or data "birthdate" (JStr "NA")); try discriminate.
    destruct (String.eqb_spec s "NA") as [->|_]; [intros [= <-]; now left|].
    destruct (Dates.parse_date s) eqn:E; [|discriminate].
    intros [= <-]. right. congruence. }
  destruct ex as [e|].
  - specialize (Hex e eq_refl).
    assert (Hb' : (if mem data "birthdate" then bd else birthdate e) = "NA" \/
                  Dates.parse_date (if mem data "birthdate" then bd else birthdate e)
                  <> None)
      by (destruct (mem data "birthdate"); assumption).
    destruct (negb (mem data "picture-url")); [|destruct (eqb _ _)];
      cbv zeta; simpl fst; simpl snd;
      match goal with
      | |- (let '(_, _) := ?d in _) = _ -> _ =>
          destruct d as [[x|e'] fx1]; [|discriminate]; intros [= <- _]; exact Hb'
      end.
  - match goal with
    | |- (let '(_, _) := ?d in _) = _ -> _ =>
        destruct d as [[x|e'] fx1]; [|discriminate]; intros [= <- _]; exact Hbd
    end.
Qed.

Lemma stored_birthdate_ok (c : catalog) (tid k : string) (p : pet) :
  tidy c -> get (get_pets_for_type c tid) k = Some p -> birthdate_ok p.
Proof.
  intros Ht. unfold get_pets_for_type.
  destruct (get (pets_by_type c) tid) as [pets|] eqn:E; [|discriminate].
  apply (birthdates c Ht tid pets k p E).
Qed.

Lemma create_pet_type_tidy (ev : Petstore.env) (c : catalog) (rq : Petstore.request) :
  tidy c -> tidy (snd (fst (Petstore.create_pet_type ev c rq))).
Proof.
  intros Ht. unfold Petstore.create_pet_type, generate_pet_type_id.
  destruct (negb (Petstore.is_json rq)); [exact Ht|].
  destruct (Petstore.get_json rq) as [|data]; [exact Ht|].
  destruct data as [|e data]; [exact Ht|].
  destruct (get (e :: data) "type") as [[| |z|n]|]; try exact Ht.
  destruct (pet_type_exists_by_name c n); [exact Ht|].
  destruct (Ninja.fetch_pet_type_data (Petstore.ninja ev) n) as [[i|x] called].
  - cbn [fst snd]. now apply tidy_register.
  - destruct x; exact Ht.
Qed.

Lemma delete_pet_type_tidy (c : catalog) (tid : string) :
  consistent c -> tidy c -> tidy (snd (Petstore.delete_pet_type c tid)).
Proof.
  intros Hc Ht. unfold Petstore.delete_pet_type.
  destruct (get (pet_types c) tid) as [pt|]; [|exact Ht].
  destruct (pt_pets pt); [now apply tidy_remove | exact Ht].
Qed.

Lemma store_built_pet_tidy (c : catalog) (tid : string) (ok : N)
      (built : result pet * list Petstore.effect) :
  tidy c -> mem (pet_types c) tid = true ->
  (forall p fx, built = (Return p, fx) -> birthdate_ok p) ->
  tidy (snd (fst
    match built with
    | (Raise ValueError, effects) =>
        (Petstore.json_error "Malformed data" 400, c, effects)
    | (Raise (NinjaApiError code), effects) =>
        (Petstore.server_error_from_ninja code, c, effects)
    | (Raise e, effects) => (Petstore.unhandled e, c, effects)
    | (Return internal_pet, effects) =>
        match add_pet c tid internal_pet with
        | (Raise e, c') => (Petstore.unhandled e, c', effects)
        | (Return _, c') =>
            ((Petstore.PetObject (pet_to_json internal_pet), ok), c', effects)
        end
    end)).
Proof.
  intros Ht Hmem Hb. destruct built as [[p|e] fx].
  - pose proof (tidy_add_pet c tid p Ht Hmem (Hb p fx eq_refl)) as H.
    destruct (add_pet c tid p) as [[u|e] c']; exact H.
  - destruct e; exact Ht.
Qed.

Lemma create_pet_tidy (ev : Petstore.env) (c : catalog) (tid : string)
      (rq : Petstore.request) :
  tidy c -> tidy (snd (fst (Petstore.create_pet ev c tid rq))).
Proof.
  intros Ht. unfold Petstore.create_pet.
  destruct (mem (pet_types c) tid) eqn:Hmem; simpl negb; cbv iota; [|exact Ht].
  destruct (negb (Petstore.is_json rq)); [exact Ht|].
  destruct (Petstore.get_json rq) as [|data]; [exact Ht|].
  apply store_built_pet_tidy; auto.
  intros p fx. apply build_birthdate_ok. discriminate.
Qed.

Lemma update_pet_tidy (ev : Petstore.env) (c : catalog) (tid n : string)
      (rq : Petstore.request) :
  tidy c -> tidy (snd (fst (Petstore.update_pet ev c tid n rq))).
Proof.
  intros Ht. unfold Petstore.update_pet.
  destruct (mem (pet_types c) tid) eqn:Hmem; simpl negb; cbv iota; [|exact Ht].
  destruct (negb (Petstore.is_json rq)); [exact Ht|].
  destruct (Petstore.get_json rq) as [|data]; [exact Ht|].
  destruct (get (get_pets_for_type c tid) (lower n)) as [ex|] eqn:Eex; [|exact Ht].
  apply store_built_pet_tidy; auto.
  intros p fx. apply build_birthdate_ok.
  intros e [= <-]. eapply stored_birthdate_ok; eauto.
Qed.

Lemma delete_pet_route_tidy (c : catalog) (tid n : string) :
  consistent c -> tidy c -> tidy (snd (fst (Petstore.delete_pet_route c tid n))).
Proof.
  intros Hc Ht. unfold Petstore.delete_pet_route.
  destruct (mem (pet_types c) tid); simpl negb; cbv iota; [|exact Ht].
  pose proof (tidy_delete_pet c tid n Hc Ht) as Hd.
  destruct (delete_pet c tid n) as [[[p|]|e] c']; exact Hd.
Qed.

Lemma steps_tidy (ops : list Deploy.op) (c : catalog) :
  consistent c -> tidy c -> tidy (fold_left Deploy.step ops c).
Proof.
  revert c. induction ops as [|o ops IH]; intros c Hc Ht; simpl; [exact Ht|].
  apply IH; [now apply step_consistent|].
  destruct o; simpl.
  - now apply create_pet_type_tidy.
  - now apply delete_pet_type_tidy.
  - now apply create_pet_tidy.
  - now apply update_pet_tidy.
  - now apply delete_pet_route_tidy.
Qed.

Lemma run_tidy (ops : list Deploy.op) : tidy (Deploy.run ops).
Proof. apply steps_tidy; [apply consistent_empty | apply tidy_empty]. Qed.

(** ** Registering and deleting pet-types *)

(** X4: on every reachable catalogue, a POST /pet-types that is not answered
    201 leaves the catalogue as it was.  One answered 201 returns a type with
    an empty pet list under the id the counter showed, an id no registered
    type had; afterwards the type is read back by GET under that id, the
    counter has advanced by one, every type registered before is still
    there, and the pets stored for any type are the same. *)
Theorem registration_outcome (ops : list Deploy.op) (ev : Petstore.env)
        (rq : Petstore.request) :
  let c := Deploy.run ops in
  let '(resp, c', fx) := Petstore.create_pet_type ev c rq in
  (snd resp <> 201%N -> c' = c) /\
  (snd resp = 201%N ->
   exists pt,
     fst resp = Petstore.PetTypeObject pt /\
     pt_id pt = str_of_N (next_pet_type_id c) /\
     get (pet_types c) (pt_id pt) = None /\
     pt_pets pt = [] /\
     Petstore.get_pet_type c' (pt_id pt) = (Petstore.PetTypeObject pt, 200%N) /\
     next_pet_type_id c' = (next_pet_type_id c + 1)%N /\
     (forall tid x, get (pet_types c) tid = Some x -> get (pet_types c') tid = Some x) /\
     (forall tid, get_pets_for_type c' tid = get_pets_for_type c tid)).
Proof.
  intros c.
  pose proof (run_tidy ops) as Ht. fold c in Ht.
  unfold Petstore.create_pet_type, generate_pet_type_id.
  destruct (negb (Petstore.is_json rq)); [split; [reflexivity | discriminate]|].
  destruct (Petstore.get_json rq) as [|data]; [split; [reflexivity | discriminate]|].
  destruct data as [|e data]; [split; [reflexivity | discriminate]|].
  destruct (get (e :: data) "type") as [[| |z|n]|];
    try (split; [reflexivity | discriminate]).
  destruct (pet_type_exists_by_name c n); [split; [reflexivity | discriminate]|].
  destruct (Ninja.fetch_pet_type_data (Petstore.ninja ev) n) as [[i|x] called].
  2:{ destruct x; split; try reflexivity; discriminate. }
  cbn [fst snd]. split; [intros H; now elim H|]. intros _.
  set (id := str_of_N (next_pet_type_id c)).
  assert (Hfresh : get (pet_types c) id = None).
  { destruct (get (pet_types c) id) as [x|] eqn:E; [|reflexivity].
    destruct (ids_issued c Ht id x E) as (k & Hk & Hlt).
    apply str_of_N_injective in Hk. lia. }
  assert (Hnopets : get (pets_by_type c) id = None).
  { apply mem_false. destruct (mem (pets_by_type c) id) eqn:E; [|reflexivity].
    apply (pets_of_types c Ht) in E. apply mem_get in E as [x E]. congruence. }
  eexists. split; [reflexivity|]. cbn [pt_id pt_pets].
  split; [reflexivity|]. split; [exact Hfresh|]. split; [reflexivity|].
  split; [unfold Petstore.get_pet_type; simpl; now rewrite get_set_same|].
  split; [reflexivity|]. split.
  - intros tid x Hx. simpl. rewrite get_set_other; [exact Hx | congruence].
  - intros tid. unfold get_pets_for_type. simpl. rewrite get_set.
    destruct (String.eqb_spec id tid) as [<-|_]; [now rewrite Hnopets | reflexivity].
Qed.

(** X5: on every reachable catalogue the duplicate test of registration is
    exact: [pet_type_exists_by_name] holds for a name exactly when a
    registered type has that name up to case. *)
Theorem exists_by_name_is_exact (ops : list Deploy.op) (type_name : string) :
  pet_type_exists_by_name (Deploy.run ops) type_name = true
  <-> registered (Deploy.run ops) type_name.
Proof.
  split.
  - intros H. apply mem_get in H as [tid Hidx].
    destruct (index_sound _ (run_tidy ops) _ tid Hidx) as (pt & Hpt & Hname).
    exists tid, pt. auto.
  - intros (tid & pt & Hpt & Hname).
    unfold pet_type_exists_by_name. rewrite <- Hname.
    apply (type_names_indexed _ (run_consistent ops) tid pt Hpt).
Qed.

(** X6: on every reachable catalogue, a DELETE of a pet-type that is not
    answered 204 leaves the catalogue as it was.  One answered 204 removed a
    registered type without pets: GET on its id answers 404, its name passes
    the duplicate test of registration again, and every other type is
    unchanged. *)
Theorem type_deletion_outcome (ops : list Deploy.op) (tid : string) :
  let c := Deploy.run ops in
  let '(resp, c') := Petstore.delete_pet_type c tid in
  (snd resp <> 204%N -> c' = c) /\
  (snd resp = 204%N ->
   exists pt,
     get (pet_types c) tid = Some pt /\ pt_pets pt = [] /\
     Petstore.get_pet_type c' tid = Petstore.json_error "Not found" 404 /\
     pet_type_exists_by_name c' (pt_type pt) = false /\
     (forall t, t <> tid -> get (pet_types c') t = get (pet_types c) t) /\
     (forall t, t <> tid -> get_pets_for_type c' t = get_pets_for_type c t)).
Proof.
  intros c.
  pose proof (run_tidy ops) as Ht. pose proof (run_consistent ops) as Hc.
  fold c in Ht, Hc.
  unfold Petstore.delete_pet_type.
  destruct (get (pet_types c) tid) as [pt|] eqn:Hpt;
    [|split; [reflexivity | discriminate]].
  destruct (pt_pets pt) eqn:Hlist; [|split; [reflexivity | discriminate]].
  cbn [fst snd]. split; [intros H; now elim H|]. intros _.
  exists pt. split; [reflexivity|]. split; [exact Hlist|].
  unfold remove_pet_type, Petstore.get_pet_type, pet_type_exists_by_name,
    get_pets_for_type. rewrite Hpt. simpl.
  split; [now rewrite get_pop_same by apply (types_keys c Hc)|].
  split; [apply mem_false, get_pop_same, (index_keys c Ht)|].
  split; intros t Hne; now rewrite get_pop_other by congruence.
Qed.

(** ** Creating, reading and deleting pets *)

Lemma add_pet_registered (c : catalog) (tid : string) (p : pet) :
  mem (pet_types c) tid = true ->
  exists c',
    add_pet c tid p = (Return tt, c') /\
    mem (pet_types c') tid = true /\
    get_pets_for_type c' tid = set (get_pets_for_type c tid) (lower (name p)) p /\
    (exists pt', get (pet_types c') tid = Some pt' /\ In (name p) (pt_pets pt')).
Proof.
  intros Hmem. pose proof (get_pets_for_type_add_pet c tid p) as Hstore.
  apply mem_get in Hmem as [pt Hpt].
  unfold add_pet in *. rewrite Hpt in *. cbn [snd] in Hstore.
  eexists. split; [reflexivity|]. split; [|split; [exact Hstore|]].
  - unfold mem. simpl. now rewrite get_set_same.
  - simpl. rewrite get_set_same. eexists. split; [reflexivity|].
    destruct (inb (name p) (pt_pets pt)) eqn:E.
    + now apply inb_In.
    + simpl. apply in_or_app. right. now left.
Qed.

(** X7: the three handlers that write pets either answer with their success
    code or leave the catalogue as it was: POST answers 201, PUT 200 and
    DELETE 204, and every other answer (404, 415, 400, 500) changes
    nothing. *)
Theorem pet_writes_are_atomic (ev : Petstore.env) (c : catalog)
        (tid pet_name : string) (rq : Petstore.request) :
  (let '(resp, c', _) := Petstore.create_pet ev c tid rq in
   snd resp <> 201%N -> c' = c) /\
  (let '(resp, c', _) := Petstore.update_pet ev c tid pet_name rq in
   snd resp <> 200%N -> c' = c) /\
  (let '(resp, c', _) := Petstore.delete_pet_route c tid pet_name in
   snd resp <> 204%N -> c' = c).
Proof.
  split; [|split].
  - unfold Petstore.create_pet.
    destruct (mem (pet_types c) tid) eqn:Hmem; simpl negb; cbv iota; [|reflexivity].
    destruct (negb (Petstore.is_json rq)); [reflexivity|].
    destruct (Petstore.get_json rq) as [|data]; [reflexivity|].
    destruct (Petstore._build_or_update_pet ev data None) as [[p|e] fx].
    + destruct (add_pet_registered c tid p Hmem) as (c' & -> & _).
      cbn. intros H; now elim H.
    + destruct e; reflexivity.
  - unfold Petstore.update_pet.
    destruct (mem (pet_types c) tid) eqn:Hmem; simpl negb; cbv iota; [|reflexivity].
    destruct (negb (Petstore.is_json rq)); [reflexivity|].
    destruct (Petstore.get_json rq) as [|data]; [reflexivity|].
    destruct (get (get_pets_for_type c tid) (lower pet_name)) as [ex|]; [|reflexivity].
    destruct (Petstore._build_or_update_pet ev data (Some ex)) as [[p|e] fx].
    + destruct (add_pet_registered c tid p Hmem) as (c' & -> & _).
      cbn. intros H; now elim H.
    + destruct e; reflexivity.
  - unfold Petstore.delete_pet_route.
    destruct (mem (pet_types c) tid) eqn:Hmem; simpl negb; cbv iota; [|reflexivity].
    unfold delete_pet.
    destruct (get (pets_by_type c) tid) as [pets|]; [|reflexivity].
    destruct (get pets (lower pet_name)) as [q|]; [|reflexivity].
    apply mem_get in Hmem as [pt Hpt]. rewrite Hpt. cbn. intros H; now elim H.
Qed.

(** X8: a pet created with 201 is read back: GET with the pet's name in any
    spelling that differs only in case answers 200 with the object the POST
    returned, and the pet-type lists the name. *)
Theorem created_pet_is_read_back
        (ev : Petstore.env) (c c' : catalog) (tid spelling : string)
        (rq : Petstore.request) (pj : pet_json) (fx : list Petstore.effect) :
  Petstore.create_pet ev c tid rq = ((Petstore.PetObject pj, 201%N), c', fx) ->
  lower spelling = lower (pj_name pj) ->
  Petstore.get_pet c' tid spelling = (Petstore.PetObject pj, 200%N) /\
  exists pt, Petstore.get_pet_type c' tid = (Petstore.PetTypeObject pt, 200%N) /\
             In (pj_name pj) (pt_pets pt).
Proof.
  unfold Petstore.create_pet.
  destruct (mem (pet_types c) tid) eqn:Hmem; simpl negb; cbv iota; [|discriminate].
  destruct (negb (Petstore.is_json rq)); [discriminate|].
  destruct (Petstore.get_json rq) as [|data]; [discriminate|].
  destruct (Petstore._build_or_update_pet ev data None) as [[p|e] fx0];
    [|destruct e; discriminate].
  destruct (add_pet_registered c tid p Hmem) as (c1 & -> & Hm & Hstore & pt' & Hpt' & Hin).
  intros [= <- <- _] Hsp.
  unfold Petstore.get_pet, Petstore.get_pet_type.
  rewrite Hm, Hstore, Hsp, Hpt'. simpl. rewrite get_set_same.
  split; [reflexivity|]. exists pt'. auto.
Qed.

Lemma created_pet_is_read_back_witness :
  Petstore.get_pet
    (snd (fst (Petstore.create_pet Deploy.offline
                 (Deploy.run [Deploy.new_type "Bulldog"]) "1"
                 (Deploy.post [("name", JStr "Rex"); ("birthdate", JStr "01-02-2020")]))))
    "1" "REX"
  = (Petstore.PetObject (mkPetJson "Rex" "01-02-2020" "NA"), 200%N) /\
  exists pt,
    Petstore.get_pet_type
      (snd (fst (Petstore.create_pet Deploy.offline
                   (Deploy.run [Deploy.new_type "Bulldog"]) "1"
                   (Deploy.post [("name", JStr "Rex"); ("birthdate", JStr "01-02-2020")]))))
      "1" = (Petstore.PetTypeObject pt, 200%N) /\
    In (pj_name (mkPetJson "Rex" "01-02-2020" "NA")) (pt_pets pt).
Proof.
  apply (created_pet_is_read_back Deploy.offline
           (Deploy.run [Deploy.new_type "Bulldog"]) _ "1" "REX"
           (Deploy.post [("name", JStr "Rex"); ("birthdate", JStr "01-02-2020")])
           (mkPetJson "Rex" "01-02-2020" "NA") []); reflexivity.
Defined.

(** X9: on every reachable catalogue, DELETE of a pet that GET finds is
    answered 204; it removes the picture file exactly when the pet has one;
    afterwards GET and a second DELETE of that pet answer 404, the type's
    list holds no spelling of the name, and every other pet of the type is
    read as before. *)
Theorem deleted_pet_is_gone (ops : list Deploy.op) (tid pet_name : string)
        (pj : pet_json) :
  let c := Deploy.run ops in
  Petstore.get_pet c tid pet_name = (Petstore.PetObject pj, 200%N) ->
  exists c',
    Petstore.delete_pet_route c tid pet_name
    = ((Petstore.Empty, 204%N), c',
       if pj_picture pj =? "NA" then [] else [Petstore.RemoveFile (pj_picture pj)]) /\
    Petstore.get_pet c' tid pet_name = Petstore.json_error "Not found" 404 /\
    fst (fst (Petstore.delete_pet_route c' tid pet_name))
    = Petstore.json_error "Not found" 404 /\
    (exists pt, get (pet_types c') tid = Some pt /\
                forall n, In n (pt_pets pt) -> lower n <> lower pet_name) /\
    (forall other, lower other <> lower pet_name ->
                   Petstore.get_pet c' tid other = Petstore.get_pet c tid other).
Proof.
  intros c.
  pose proof (run_consistent ops) as Hc. fold c in Hc.
  unfold Petstore.get_pet.
  destruct (mem (pet_types c) tid) eqn:Hmem; simpl negb; cbv iota; [|discriminate].
  destruct (get (get_pets_for_type c tid) (lower pet_name)) as [p|] eqn:Hp;
    [|discriminate].
  intros [= <-].
  assert (Hstore : exists pets, get (pets_by_type c) tid = Some pets /\
                                get pets (lower pet_name) = Some p).
  { revert Hp. unfold get_pets_for_type.
    destruct (get (pets_by_type c) tid) as [pets|]; [eauto | discriminate]. }
  destruct Hstore as (pets & Hpets & Hget).
  apply mem_get in Hmem as [pt Hpt].
  pose proof (pets_keys c Hc tid pets Hpets) as Hnd.
  unfold Petstore.delete_pet_route, delete_pet, mem.
  rewrite Hpt, Hpets, Hget. simpl negb. cbv iota.
  eexists. split; [reflexivity|].
  unfold get_pets_for_type. simpl. rewrite !get_set_same. simpl.
  rewrite ?get_set_same. rewrite (get_pop_same pets (lower pet_name) Hnd). simpl.
  split; [reflexivity|]. split; [reflexivity|]. split.
  - eexists. split; [reflexivity|]. simpl. intros n Hn.
    apply filter_In in Hn as [_ Hn].
    now apply negb_true_iff, String.eqb_neq in Hn.
  - intros other Hne. rewrite get_pop_other by congruence.
    now rewrite Hpets.
Qed.

Lemma deleted_pet_is_gone_witness :
  let c := Deploy.run [Deploy.new_type "Bulldog"; Deploy.new_pet "1" "Rex"] in
  exists c',
    Petstore.delete_pet_route c "1" "REX"
    = ((Petstore.Empty, 204%N), c',
       if pj_picture (mkPetJson "Rex" "NA" "NA") =? "NA" then []
       else [Petstore.RemoveFile (pj_picture (mkPetJson "Rex" "NA" "NA"))]) /\
    Petstore.get_pet c' "1" "REX" = Petstore.json_error "Not found" 404 /\
    fst (fst (Petstore.delete_pet_route c' "1" "REX"))
    = Petstore.json_error "Not found" 404 /\
    (exists pt, get (pet_types c') "1" = Some pt /\
                forall n, In n (pt_pets pt) -> lower n <> lower "REX") /\
    (forall other, lower other <> lower "REX" ->
                   Petstore.get_pet c' "1" other = Petstore.get_pet c "1" other).
Proof.
  apply (deleted_pet_is_gone [Deploy.new_type "Bulldog"; Deploy.new_pet "1" "Rex"]
           "1" "REX" (mkPetJson "Rex" "NA" "NA")).
  reflexivity.
Defined.

(** ** Listing the pets of a type *)

Lemma filter_pets_spec (test : Z -> bool) (bound : string) (b : Dates.date)
      (l : list pet_json) :
  Dates.parse_date bound = Some b ->
  (forall pj, In pj l ->
              pj_birthdate pj = "NA" \/ Dates.parse_date (pj_birthdate pj) <> None) ->
  exists l',
    Petstore.filter_pets (Petstore.birthdate_passes test bound) l = Return l' /\
    forall pj, In pj l' <->
               In pj l /\
               exists d n, Dates.parse_date (pj_birthdate pj) = Some d /\
                           Dates.compare_dates (pj_birthdate pj) bound = Some n /\
                           test n = true.
Proof.
  intros Hb. induction l as [|p l IH]; intros Hok.
  - exists []. split; [reflexivity|]. simpl. tauto.
  - destruct IH as (l' & Hrun & Hspec); [intros; apply Hok; now right|].
    cbn [Petstore.filter_pets]. unfold Petstore.birthdate_passes at 1.
    destruct (String.eqb_spec (pj_birthdate p) "NA") as [Ena|Hna].
    + cbn [bind]. rewrite Hrun. cbn [bind]. exists l'. split; [reflexivity|].
      intros pj. rewrite Hspec. split.
      * intros [Hin H]. split; [now right | exact H].
      * intros [[<-|Hin] H]; [|auto].
        destruct H as (d & n & Hd & _). rewrite Ena in Hd. discriminate.
    + destruct (Hok p (or_introl eq_refl)) as [E|Hparse]; [contradiction|].
      destruct (Dates.parse_date (pj_birthdate p)) as [d|] eqn:Hd; [|contradiction].
      assert (Hcmp : Dates.compare_dates (pj_birthdate p) bound
                     = Some (Dates.toordinal d - Dates.toordinal b)%Z)
        by (unfold Dates.compare_dates; now rewrite Hd, Hb).
      rewrite Hcmp. cbn [bind]. rewrite Hrun. cbn [bind].
      destruct (test (Dates.toordinal d - Dates.toordinal b)%Z) eqn:Et;
        eexists; (split; [reflexivity|]); intros pj; simpl; rewrite Hspec.
      * split.
        -- intros [<-|[Hin H]]; [|split; [now right | exact H]].
           split; [now left|]. exists d. eexists. eauto.
        -- intros [[<-|Hin] H]; auto.
      * split.
        -- intros [Hin H]. split; [now right | exact H].
        -- intros [[<-|Hin] H]; [|auto].
           destruct H as (d' & n & Hd' & Hn & Htest).
           rewrite Hcmp in Hn. injection Hn as <-. congruence.
Qed.

Lemma listed_birthdates_ok (ops : list Deploy.op) (tid : string) (pj : pet_json) :
  In pj (map pet_to_json (values (get_pets_for_type (Deploy.run ops) tid))) ->
  pj_birthdate pj = "NA" \/ Dates.parse_date (pj_birthdate pj) <> None.
Proof.
  intros H. apply in_map_iff in H as (p & <- & Hp).
  apply in_map_iff in Hp as ([k q] & Hq & Hin). simpl in Hq; subst q.
  pose proof (run_consistent ops) as Hc. pose proof (run_tidy ops) as Ht.
  unfold get_pets_for_type in Hin.
  destruct (get (pets_by_type (Deploy.run ops)) tid) as [pets|] eqn:E; [|contradiction].
  apply In_get in Hin; [|apply (pets_keys _ Hc tid pets E)].
  apply (birthdates _ Ht tid pets k p E Hin).
Qed.

(** X10: on every reachable catalogue, GET on the pets of a registered
    type is never answered 500: it is answered 400 when a supplied
    birthdateGT or birthdateLT does not parse, and otherwise 200 with exactly
    the stored pets whose birthdate is strictly after birthdateGT and
    strictly before birthdateLT (for each bound that is supplied); a pet
    without birthdate passes no supplied bound. *)
Theorem pets_listed_between_bounds
        (ops : list Deploy.op) (tid : string) (gt lt : option string) :
  let c := Deploy.run ops in
  let stored := map pet_to_json (values (get_pets_for_type c tid)) in
  mem (pet_types c) tid = true ->
  (Petstore.parses gt && Petstore.parses lt = false ->
   Petstore.list_pets c tid gt lt = Petstore.json_error "Malformed data" 400) /\
  (Petstore.parses gt && Petstore.parses lt = true ->
   exists l,
     Petstore.list_pets c tid gt lt = (Petstore.PetArray l, 200%N) /\
     forall pj,
       In pj l <->
       In pj stored /\
       (forall s g, Petstore.given gt = Some s -> Dates.parse_date s = Some g ->
                    exists d, Dates.parse_date (pj_birthdate pj) = Some d /\ before g d) /\
       (forall s h, Petstore.given lt = Some s -> Dates.parse_date s = Some h ->
                    exists d, Dates.parse_date (pj_birthdate pj) = Some d /\ before d h)).
Proof.
  intros c stored Hmem. unfold Petstore.list_pets. rewrite Hmem.
  simpl negb at 1. cbv iota. fold c. cbv zeta. fold stored.
  split; [intros ->; reflexivity|]. intros Hparse. rewrite Hparse. simpl negb. cbv iota.
  apply andb_true_iff in Hparse as [Hgt Hlt].
  pose proof (listed_birthdates_ok ops tid) as Hok. fold c in Hok. fold stored in Hok.
  assert (Hstage1 : exists l1,
             match Petstore.given gt with
             | Some s => Petstore.filter_pets
                           (Petstore.birthdate_passes (fun d => (0 <? d)%Z) s) stored
             | None => Return stored
             end = Return l1 /\
             forall pj, In pj l1 <->
               In pj stored /\
               (forall s g, Petstore.given gt = Some s -> Dates.parse_date s = Some g ->
                  exists d, Dates.parse_date (pj_birthdate pj) = Some d /\ before g d)).
  { unfold Petstore.parses in Hgt.
    destruct (Petstore.given gt) as [s|].
    - destruct (Dates.parse_date s) as [g|] eqn:Hg; [|discriminate].
      destruct (filter_pets_spec (fun d => (0 <? d)%Z) s g stored Hg Hok)
        as (l1 & Hrun & Hspec).
      exists l1. split; [exact Hrun|]. intros pj. rewrite Hspec. split.
      + intros [Hin (d & n & Hd & Hn & Htest)]. split; [exact Hin|].
        intros s' g' [= <-] Hg'. rewrite Hg in Hg'. injection Hg' as <-.
        exists d. split; [exact Hd|].
        destruct (compare_dates_sign _ _ d g Hd Hg) as (n' & Hn' & _ & _ & Hpos).
        rewrite Hn in Hn'. injection Hn' as <-.
        apply Hpos. apply Z.ltb_lt in Htest. lia.
      + intros [Hin H]. split; [exact Hin|].
        destruct (H s g eq_refl Hg) as (d & Hd & Hbefore).
        destruct (compare_dates_sign _ _ d g Hd Hg) as (n & Hn & _ & _ & Hpos).
        exists d, n. repeat split; auto. apply Z.ltb_lt. apply Hpos in Hbefore. lia.
    - exists stored. split; [reflexivity|]. intros pj. split.
      + intros Hin. split; [exact Hin | discriminate].
      + tauto. }
  destruct Hstage1 as (l1 & -> & Hspec1). cbn [bind].
  assert (Hok1 : forall pj, In pj l1 ->
                   pj_birthdate pj = "NA" \/ Dates.parse_date (pj_birthdate pj) <> None)
    by (intros pj Hin; apply Hok, Hspec1, Hin).
  unfold Petstore.parses in Hlt.
  destruct (Petstore.given lt) as [s|].
  - destruct (Dates.parse_date s) as [h|] eqn:Hh; [|discriminate].
    destruct (filter_pets_spec (fun d => (d <? 0)%Z) s h l1 Hh Hok1)
      as (l2 & -> & Hspec2).
    exists l2. split; [reflexivity|]. intros pj. rewrite Hspec2, Hspec1. split.
    + intros [[Hin Hg] (d & n & Hd & Hn & Htest)]. split; [exact Hin|].
      split; [exact Hg|].
      intros s' h' [= <-] Hh'. rewrite Hh in Hh'. injection Hh' as <-.
      exists d. split; [exact Hd|].
      destruct (compare_dates_sign _ _ d h Hd Hh) as (n' & Hn' & Hneg & _).
      rewrite Hn in Hn'. injection Hn' as <-.
      apply Hneg. now apply Z.ltb_lt in Htest.
    + intros (Hin & Hg & H). split; [auto|].
      destruct (H s h eq_refl Hh) as (d & Hd & Hbefore).
      destruct (compare_dates_sign _ _ d h Hd Hh) as (n & Hn & Hneg & _).
      exists d, n. repeat split; auto. apply Z.ltb_lt. now apply Hneg.
  - exists l1. split; [reflexivity|]. intros pj. rewrite Hspec1. split.
    + intros [Hin Hg]. repeat split; auto. discriminate.
    + intros (Hin & Hg & _). auto.
Qed.

Lemma pets_listed_between_bounds_witness :
  exists l,
    Petstore.list_pets
      (Deploy.run [Deploy.new_type "Bulldog";
                   Deploy.CreatePet Deploy.offline "1"
                     (Deploy.post [("name", JStr "Rex"); ("birthdate", JStr "01-03-2020")]);
                   Deploy.new_pet "1" "Max"])
      "1" (Some "28-02-2020") None = (Petstore.PetArray l, 200%N) /\
    forall pj,
      In pj l <->
      In pj (map pet_to_json
               (values (get_pets_for_type
                  (Deploy.run [Deploy.new_type "Bulldog";
                     Deploy.CreatePet Deploy.offline "1"
                       (Deploy.post [("name", JStr "Rex");
                                     ("birthdate", JStr "01-03-2020")]);
                     Deploy.new_pet "1" "Max"]) "1"))) /\
      (forall s g, Petstore.given (Some "28-02-2020") = Some s ->
                   Dates.parse_date s = Some g ->
                   exists d, Dates.parse_date (pj_birthdate pj) = Some d /\ before g d) /\
      (forall s h, Petstore.given None = Some s -> Dates.parse_date s = Some h ->
                   exists d, Dates.parse_date (pj_birthdate pj) = Some d /\ before d h).
Proof.
  apply (pets_listed_between_bounds
           [Deploy.new_type "Bulldog";
            Deploy.CreatePet Deploy.offline "1"
              (Deploy.post [("name", JStr "Rex"); ("birthdate", JStr "01-03-2020")]);
            Deploy.new_pet "1" "Max"]
           "1" (Some "28-02-2020") None); reflexivity.
Defined.

(** ** Listing pet-types with filters *)

Lemma apply_field_filters_spec (args : dict string) (fields : list string) :
  forall input result,
    Listing.apply_field_filters fields args input = Some result ->
    forall pt, In pt result <->
               In pt input /\
               forall f v, In f fields -> get args f = Some v -> Listing.meets f v pt.
Proof.
  induction fields as [|field rest IH]; intros input result; simpl.
  - intros [= <-] pt. split; [intros H; split; [exact H | contradiction] | tauto].
  - destruct (get args field) as [value|] eqn:Harg.
    + unfold Listing.keep_by.
      destruct (String.eqb_spec field "lifespan") as [->|Hne].
      * destruct (Listing.py_int value) as [z|] eqn:Hz; [|discriminate].
        intros H pt. rewrite (IH _ _ H pt), filter_In. unfold Listing.lifespan_is.
        split.
        -- intros [[Hin Hl] Hrest]. split; [exact Hin|].
           intros f v [<-|Hf] Hv; [|auto].
           unfold Listing.meets. simpl. rewrite Harg in Hv. injection Hv as <-.
           exists z. split; [exact Hz|].
           destruct (pt_lifespan pt) as [x|]; [|discriminate].
           apply Z.eqb_eq in Hl. now subst.
        -- intros [Hin H']. split; [split; [exact Hin|] | intros; apply H'; auto].
           specialize (H' "lifespan" value (or_introl eq_refl) Harg).
           unfold Listing.meets in H'. simpl in H'.
           destruct H' as (z' & Hz' & ->). rewrite Hz in Hz'. injection Hz' as <-.
           apply Z.eqb_refl.
      * intros H pt. rewrite (IH _ _ H pt), filter_In. unfold Listing.text_is.
        assert (Hm : forall v, Listing.meets field v pt
                               <-> lower (Listing.text_field field pt) = lower v).
        { intros v. unfold Listing.meets.
          destruct (String.eqb_spec field "lifespan"); [contradiction | tauto]. }
        split.
        -- intros [[Hin Hl] Hrest]. split; [exact Hin|].
           intros f v [<-|Hf] Hv; [|auto].
           rewrite Harg in Hv. injection Hv as <-.
           apply Hm. now apply String.eqb_eq.
        -- intros [Hin H']. split; [split; [exact Hin|] | intros; apply H'; auto].
           apply String.eqb_eq, Hm. apply H'; auto.
    + intros H pt. rewrite (IH _ _ H pt). split.
      * intros [Hin Hrest]. split; [exact Hin|].
        intros f v [<-|Hf] Hv; [congruence | auto].
      * intros [Hin H']. split; [exact Hin | intros; apply H'; auto].
Qed.

Lemma apply_field_filters_fails (args : dict string) (fields : list string) :
  forall input,
    Listing.apply_field_filters fields args input = None <->
    In "lifespan" fields /\
    exists v, get args "lifespan" = Some v /\ Listing.py_int v = None.
Proof.
  induction fields as [|field rest IH]; intros input; simpl.
  - split; [discriminate | intros [[] _]].
  - destruct (get args field) as [value|] eqn:Harg.
    + unfold Listing.keep_by.
      destruct (String.eqb_spec field "lifespan") as [->|Hne].
      * destruct (Listing.py_int value) as [z|] eqn:Hz.
        -- rewrite IH. split.
           ++ intros [Hin H]. split; [now right | exact H].
           ++ intros [_ (v & Hv & Hnone)]. congruence.
        -- split; [intros _; split; [now left | eauto] | reflexivity].
      * rewrite IH. split.
        -- intros [Hin H]. split; [now right | exact H].
        -- intros [[E|Hin] H]; [congruence | auto].
    + rewrite IH. split.
      * intros [Hin H]. split; [now right | exact H].
      * intros [[E|Hin] (v & Hv & Hnone)]; [subst; congruence | eauto].
Qed.

(** [int] on some strings: white space around the digits is skipped, the
    separators FS..US are not; a sign and single underscores between
    digits are read; more than [MAX_STR_DIGITS] digits are refused. *)
Lemma py_int_examples :
  Listing.py_int " 15 " = Some 15%Z /\
  Listing.py_int (String (ascii_of_nat 9) "15" ++ String (ascii_of_nat 10) "") = Some 15%Z /\
  Listing.py_int (String (ascii_of_nat 31) "15") = None /\
  Listing.py_int (String (ascii_of_nat 28) "15") = None /\
  Listing.py_int "+7" = Some 7%Z /\
  Listing.py_int "-7" = Some (-7)%Z /\
  Listing.py_int "1_000" = Some 1000%Z /\
  Listing.py_int "1__0" = None /\
  Listing.py_int "_1" = None /\
  Listing.py_int "1_" = None /\
  Listing.py_int "+ 7" = None /\
  Listing.py_int "" = None /\
  Listing.py_int "12.0" = None /\
  Listing.py_int (string_of_list_ascii (List.repeat "1"%char 4300)) <> None /\
  Listing.py_int (string_of_list_ascii (List.repeat "1"%char 4301)) = None.
Proof. vm_compute. repeat split; discriminate. Qed.

(** X11: GET /pet-types with query parameters is answered 400 exactly when
    a lifespan parameter is supplied that [int] rejects, and otherwise 200
    with exactly the registered types that pass every supplied filter: id,
    type, family and genus equal up to case, lifespan equal as an integer (a
    type without lifespan never passes), and some attribute equal up to case
    to hasAttribute.  Without parameters all types are listed. *)
Theorem pet_types_listing_filters (c : catalog) (args : dict string) :
  (Listing.list_pet_types c args = Petstore.json_error "Malformed data" 400
   <-> exists v, get args "lifespan" = Some v /\ Listing.py_int v = None) /\
  (forall l,
     Listing.list_pet_types c args = (Petstore.PetTypeArray l, 200%N) ->
     forall pt,
       In pt l <->
       In pt (values (pet_types c)) /\
       (forall v, get args "id" = Some v -> lower (pt_id pt) = lower v) /\
       (forall v, get args "type" = Some v -> lower (pt_type pt) = lower v) /\
       (forall v, get args "family" = Some v -> lower (pt_family pt) = lower v) /\
       (forall v, get args "genus" = Some v -> lower (pt_genus pt) = lower v) /\
       (forall v, get args "lifespan" = Some v ->
                  exists z, Listing.py_int v = Some z /\ pt_lifespan pt = Some z) /\
       (forall v, get args "hasAttribute" = Some v ->
                  exists a, In a (pt_attributes pt) /\ lower a = lower v)) /\
  Listing.list_pet_types c [] = Petstore.list_pet_types c.
Proof.
  split; [|split; [|reflexivity]].
  - unfold Listing.list_pet_types.
    destruct (Listing.apply_field_filters _ _ _) as [result|] eqn:E.
    + split; [discriminate|]. intros H.
      assert (Hnone : Listing.apply_field_filters Listing.query_fields args
                        (values (pet_types c)) = None).
      { apply apply_field_filters_fails. split; [|exact H].
        unfold Listing.query_fields. simpl. tauto. }
      congruence.
    + split; [|reflexivity]. intros _.
      now apply apply_field_filters_fails in E as [_ H].
  - intros l. unfold Listing.list_pet_types.
    destruct (Listing.apply_field_filters _ _ _) as [result|] eqn:E; [|discriminate].
    intros [= <-] pt.
    pose proof (apply_field_filters_spec args _ _ _ E pt) as Hspec.
    assert (Hfields :
              (forall f v, In f Listing.query_fields -> get args f = Some v ->
                           Listing.meets f v pt) <->
              (forall v, get args "id" = Some v -> lower (pt_id pt) = lower v) /\
              (forall v, get args "type" = Some v -> lower (pt_type pt) = lower v) /\
              (forall v, get args "family" = Some v -> lower (pt_family pt) = lower v) /\
              (forall v, get args "genus" = Some v -> lower (pt_genus pt) = lower v) /\
              (forall v, get args "lifespan" = Some v ->
                         exists z, Listing.py_int v = Some z /\ pt_lifespan pt = Some z)).
    { split.
      - intros H. repeat split; intros v Hv.
        + apply (H "id" v); [simpl; tauto | exact Hv].
        + apply (H "type" v); [simpl; tauto | exact Hv].
        + apply (H "family" v); [simpl; tauto | exact Hv].
        + apply (H "genus" v); [simpl; tauto | exact Hv].
        + apply (H "lifespan" v); [simpl; tauto | exact Hv].
      - intros (Hid & Hty & Hfa & Hge & Hli) f v Hf Hv.
        simpl in Hf.
        destruct Hf as [<-|[<-|[<-|[<-|[<-|[]]]]]]; unfold Listing.meets; simpl; auto. }
    assert (Hattr : forall v, Listing.has_attribute v pt = true <->
                              exists a, In a (pt_attributes pt) /\ lower a = lower v).
    { intros v. unfold Listing.has_attribute. rewrite existsb_exists.
      split; intros (a & Ha & E'); exists a; (split; [exact Ha|]);
        now apply String.eqb_eq. }
    destruct (get args "hasAttribute") as [ha|].
    + rewrite filter_In, Hspec, Hfields, Hattr. split.
      * intros [[Hin H] Ha]. split; [exact Hin|].
        repeat split; try apply H. intros v [= <-]. exact Ha.
      * intros (Hin & H1 & H2 & H3 & H4 & H5 & H6). auto 10.
    + rewrite Hspec, Hfields. split.
      * intros [Hin H]. split; [exact Hin|].
        repeat split; try apply H. discriminate.
      * intros (Hin & H1 & H2 & H3 & H4 & H5 & H6). auto 10.
Qed.

(** ** Listing the transactions *)

Lemma build_query_keys (args : dict string) :
  forall query, NoDup (keys query) -> NoDup (keys (Transactions.build_query args query)).
Proof.
  induction args as [|[k v] rest IH]; intros query Hq; simpl; [exact Hq|].
  destruct (k =? "store").
  - destruct (Listing.py_int v); [apply IH; now apply NoDup_keys_set | now apply IH].
  - apply IH. now apply NoDup_keys_set.
Qed.

Lemma build_query_get (args : dict string) :
  NoDup (keys args) ->
  forall query k,
    get (Transactions.build_query args query) k
    = match get args k with
      | Some v =>
          if k =? "store"
          then match Listing.py_int v with
               | Some z => Some (Transactions.QInt z)
               | None => get query k
               end
          else Some (Transactions.QStr v)
      | None => get query k
      end.
Proof.
  induction args as [|[k0 v0] rest IH]; intros Hnd query k; simpl; [reflexivity|].
  inversion Hnd as [|? ? Hnotin Hnd']; subst.
  assert (Hrest : k0 = k -> get rest k = None).
  { intros <-. apply mem_false. destruct (mem rest k0) eqn:E; [|reflexivity].
    apply mem_In_keys in E. contradiction. }
  destruct (String.eqb_spec k0 k) as [<-|Hne].
  - specialize (Hrest eq_refl).
    destruct (k0 =? "store").
    + destruct (Listing.py_int v0); rewrite (IH Hnd'), Hrest; [apply get_set_same | reflexivity].
    + rewrite (IH Hnd'), Hrest. apply get_set_same.
  - destruct (k0 =? "store").
    + destruct (Listing.py_int v0); rewrite (IH Hnd');
        [now rewrite get_set_other | reflexivity].
    + rewrite (IH Hnd'). now rewrite get_set_other.
Qed.

(** X12: GET /transactions.  Without the owner header, or with another
    value in it, the answer is 401 with no body, whatever the query and
    whatever the collection holds.  With the header the collection is read
    with one query document, in which every parameter name is bound once: a
    store parameter to the integer that [int] reads from its value, and to
    nothing when [int] rejects the value; any other parameter to its value
    as a string.  The answer is 200 with the documents the collection
    gives for that query, or 500 when the driver raises. *)
Theorem transactions_listing
        (owner : option string) (args : dict string)
        (transactions : Transactions.collection) :
  NoDup (keys args) ->
  (owner <> Some Transactions.OWNER_VALUE ->
   Transactions.list_transactions owner args transactions
   = (Transactions.Nothing, 401%N)) /\
  (owner = Some Transactions.OWNER_VALUE ->
   exists query,
     NoDup (keys query) /\
     (forall k,
         get query k
         = match get args k with
           | Some v =>
               if k =? "store"
               then option_map Transactions.QInt (Listing.py_int v)
               else Some (Transactions.QStr v)
           | None => None
           end) /\
     Transactions.list_transactions owner args transactions
     = match transactions query with
       | Return result => (Transactions.TransactionArray result, 200%N)
       | Raise e => (Transactions.Unhandled e, 500%N)
       end).
Proof.
  intros Hnd. split.
  - intros Howner. unfold Transactions.list_transactions.
    destruct owner as [v|]; [|reflexivity].
    destruct (String.eqb_spec v Transactions.OWNER_VALUE) as [->|_];
      [congruence | reflexivity].
  - intros ->. exists (Transactions.build_query args []).
    split; [apply build_query_keys; constructor|].
    split.
    + intros k. rewrite (build_query_get args Hnd).
      destruct (get args k) as [v|]; [|reflexivity].
      destruct (k =? "store"); [|reflexivity].
      now destruct (Listing.py_int v).
    + unfold Transactions.list_transactions. now rewrite String.eqb_refl.
Qed.

Lemma transactions_listing_witness :
  let args := [("store", "two"); ("purchaser", "Ann"); ("pet-type", "bulldog")] in
  let ann := PetOrder.mkTransaction "Ann" "bulldog" 2 "Max" "p-1" in
  let transactions (query : dict Transactions.qvalue) :=
    match get query "store", get query "purchaser" with
    | None, Some (Transactions.QStr "Ann") => Return [ann]
    | _, _ => Raise RequestError
    end in
  Transactions.list_transactions (Some "LovesPetsL2M3n4") args transactions
  = (Transactions.TransactionArray [ann], 200%N) /\
  Transactions.list_transactions (Some "lovespetsl2m3n4") args transactions
  = (Transactions.Nothing, 401%N).
Proof.
  intros args ann transactions.
  destruct (transactions_listing (Some "LovesPetsL2M3n4") args transactions)
    as [_ Hyes]; [repeat constructor; simpl; intuition discriminate|].
  destruct (transactions_listing (Some "lovespetsl2m3n4") args transactions)
    as [Hno _]; [repeat constructor; simpl; intuition discriminate|].
  split; [|apply Hno; discriminate].
  destruct (Hyes eq_refl) as (query & _ & Hget & ->).
  unfold transactions. rewrite !Hget. reflexivity.
Defined.

(** ** The requests a purchase sends *)

Section PurchaseTraffic.
Context {W : Type} {R : PetOrder.Remote W}.
Import PetOrder.

(** X13: the requests of one POST /purchases, whatever the instances
    answer.  The answer is 400, 415 or 500, never 201.  The handler sends at
    most one deletion, and nothing after it.  Either the ledger is unchanged,
    or exactly one transaction was appended and the answer is the 500 of the
    [TypeError] that [jsonify] raises on the inserted document; an answer
    400 or 415 leaves the ledger unchanged.  An appended transaction
    carries the purchaser and pet-type of the request and store number 1 or
    2; the deletion was sent last, to the instance of that number, for the
    pet of the transaction, and was answered 204; it was sent under a
    non-empty pet-type id for which that instance had listed the pet with
    status 200.  When the request names store 1 or 2, every request goes to
    that instance and an appended transaction carries that number. *)
Theorem purchase_traffic (rq : request) (s : state W) :
  let r := create_purchase rq s in
  let code := snd (fst r) in
  exists calls,
    trace (snd r) = trace s ++ calls /\
    (code = 400 \/ code = 415 \/ code = 500)%N /\
    (exists reads,
        Forall (fun k => Traffic.is_deletion k = false) reads /\
        (calls = reads \/
         exists url tid pname, calls = reads ++ [DeletePet url tid pname])) /\
    (code <> 500%N -> transactions (snd r) = transactions s) /\
    (transactions (snd r) = transactions s \/
     exists t data tid reads,
       transactions (snd r) = transactions s ++ [t] /\
       fst r = unhandled TypeError /\
       get_json rq = Object data /\
       field data "purchaser" = JStr (purchaser t) /\
       field data "pet-type" = JStr (pet_type t) /\
       (store t = 1 \/ store t = 2)%Z /\
       calls = reads ++ [DeletePet (Traffic.store_url (store t)) tid (pet_name t)] /\
       Forall (fun k => Traffic.is_deletion k = false) reads /\
       tid <> "" /\
       (exists w w',
           http_delete_pet (Traffic.store_url (store t)) tid (pet_name t) w
           = (Return 204%N, w')) /\
       (exists w st pets w',
           http_get_pets (Traffic.store_url (store t)) tid w = (Return (st, pets), w') /\
           st = 200%N /\ In (pet_name t) (map pj_name pets))) /\
    (forall data n,
        get_json rq = Object data ->
        eqb (field data "store") (JInt n) = true -> (n = 1 \/ n = 2)%Z ->
        Forall (fun k => call_url k = Traffic.store_url n) calls /\
        forall t, transactions (snd r) = transactions s ++ [t] -> store t = n).
Proof.
  set (goal := fun (r : response * state W) =>
    exists calls,
    trace (snd r) = trace s ++ calls /\
    (snd (fst r) = 400 \/ snd (fst r) = 415 \/ snd (fst r) = 500)%N /\
    (exists reads,
        Forall (fun k => Traffic.is_deletion k = false) reads /\
        (calls = reads \/
         exists url tid pname, calls = reads ++ [DeletePet url tid pname])) /\
    (snd (fst r) <> 500%N -> transactions (snd r) = transactions s) /\
    (transactions (snd r) = transactions s \/
     exists t data tid reads,
       transactions (snd r) = transactions s ++ [t] /\
       fst r = unhandled TypeError /\
       get_json rq = Object data /\
       field data "purchaser" = JStr (purchaser t) /\
       field data "pet-type" = JStr (pet_type t) /\
       (store t = 1 \/ store t = 2)%Z /\
       calls = reads ++ [DeletePet (Traffic.store_url (store t)) tid (pet_name t)] /\
       Forall (fun k => Traffic.is_deletion k = false) reads /\
       tid <> "" /\
       (exists w w',
           http_delete_pet (Traffic.store_url (store t)) tid (pet_name t) w
           = (Return 204%N, w')) /\
       (exists w st pets w',
           http_get_pets (Traffic.store_url (store t)) tid w = (Return (st, pets), w') /\
           st = 200%N /\ In (pet_name t) (map pj_name pets))) /\
    (forall data n,
        get_json rq = Object data ->
        eqb (field data "store") (JInt n) = true -> (n = 1 \/ n = 2)%Z ->
        Forall (fun k => call_url k = Traffic.store_url n) calls /\
        forall t, transactions (snd r) = transactions s ++ [t] -> store t = n)).
  change (goal (create_purchase rq s)).
  assert (Hnot : forall t : transaction, transactions s <> transactions s ++ [t]).
  { intros t H. apply (f_equal (@length _)) in H.
    rewrite length_app in H. simpl in H. lia. }
  assert (Hquiet : forall msg code0,
             (code0 = 400 \/ code0 = 415)%N -> goal (json_error msg code0, s)).
  { intros msg code0 Hcode. exists []. cbn [fst snd json_error].
    rewrite app_nil_r. split; [reflexivity|].
    split; [destruct Hcode as [-> | ->]; auto|].
    split; [exists []; split; [constructor | now left]|].
    split; [reflexivity|].
    split; [now left|].
    intros data n _ _ _. split; [constructor|]. intros t H. now elim (Hnot t). }
  unfold create_purchase.
  destruct (is_json rq); cbn [negb]; [|apply Hquiet; now right].
  destruct (get_json rq) as [|data] eqn:Hbody; [apply Hquiet; now left|].
  destruct (field data "purchaser") as [| | |buyer] eqn:Hbuyer;
    try (apply Hquiet; now left).
  destruct (field data "pet-type") as [| | |ty] eqn:Hty;
    try (apply Hquiet; now left).
  destruct (negb (is_none (field data "store"))
            && negb (eqb (field data "store") (JInt 1)
                     || eqb (field data "store") (JInt 2)));
    [apply Hquiet; now left|].
  destruct (is_none (field data "store") && negb (is_none (field data "pet-name")));
    [apply Hquiet; now left|].
  clear Hquiet.
  pose proof (choose_reads_only (stores_for (field data "store")) ty
                (field data "pet-name") s) as (reads & Htr & Hreads & Hsel).
  pose proof (choose_transactions (stores_for (field data "store")) ty
                (field data "pet-name") s) as Hledger.
  assert (Hquietreads : Forall (fun k => Traffic.is_deletion k = false) reads).
  { eapply Forall_impl; [|exact Hreads]. now intros k [Hk _]. }
  assert (Hpinned : forall data' n,
             Object data = Object data' ->
             eqb (field data' "store") (JInt n) = true -> (n = 1 \/ n = 2)%Z ->
             Forall (fun k => call_url k = Traffic.store_url n) reads /\
             forall sid url, In (sid, url) (stores_for (field data "store")) ->
                             sid = n /\ url = Traffic.store_url n).
  { intros data' n [= <-] E Hn. rewrite (stores_for_pinned _ n E Hn) in *.
    split.
    - eapply Forall_impl; [|exact Hreads].
      intros k [_ [Hk|[]]]. now symmetry.
    - intros sid url [[= <- <-]|[]]. now split. }
  assert (Hsilent : forall resp s1,
             trace s1 = trace s ++ reads -> transactions s1 = transactions s ->
             (snd resp = 400 \/ snd resp = 500)%N -> goal (resp, s1)).
  { intros resp s1 Ht Hl Hcode. exists reads. cbn [fst snd].
    split; [exact Ht|]. split; [destruct Hcode; auto|].
    split; [exists reads; split; [exact Hquietreads | now left]|].
    split; [now intros _|]. split; [now left|].
    intros data' n Hd E Hn. split; [apply (Hpinned data' n Hd E Hn)|].
    intros t H. rewrite Hl in H. now elim (Hnot t). }
  destruct (choose (stores_for (field data "store")) ty (field data "pet-name") s)
    as [[[[[[sid url] tid] pname]|]|e] s1]; cbn [fst snd] in Htr, Hledger, Hsel.
  2:{ apply Hsilent; [exact Htr | exact Hledger | now left]. }
  2:{ apply Hsilent; [exact Htr | exact Hledger | now right]. }
  clear Hsilent.
  destruct (Hsel sid url tid pname eq_refl) as (Hin & Hne & Hlisted).
  destruct (stores_for_numbers _ _ _ Hin) as [Hsid Hurl].
  unfold delete_pet.
  destruct (http_delete_pet url tid pname (world s1)) as [outcome w2] eqn:Hdel.
  assert (Hfailed : forall resp,
             (snd resp = 400 \/ snd resp = 500)%N ->
             goal (resp, sent (DeletePet url tid pname) w2 s1)).
  { intros resp Hcode. exists (reads ++ [DeletePet url tid pname]).
    cbn [fst snd transactions trace sent].
    split; [rewrite Htr; now rewrite app_assoc|].
    split; [destruct Hcode; auto|].
    split; [exists reads; split; [exact Hquietreads | right; now exists url, tid, pname]|].
    split; [now intros _|]. split; [now left|].
    intros data' n Hd E Hn.
    destruct (Hpinned data' n Hd E Hn) as [Hall Hstore].
    destruct (Hstore sid url Hin) as [-> ->].
    split; [apply Forall_app; split; [exact Hall | now repeat constructor]|].
    intros t H. rewrite Hledger in H. now elim (Hnot t). }
  destruct outcome as [status|e]; [|apply Hfailed; now right].
  destruct (N.eqb_spec status 204) as [->|_]; cbn [negb]; [|apply Hfailed; now left].
  clear Hfailed.
  destruct (uuid4 (world (sent (DeletePet url tid pname) w2 s1))) as [pid w3].
  cbn [insert_one jsonify].
  exists (reads ++ [DeletePet url tid pname]). cbn [fst snd transactions trace sent unhandled].
  split; [rewrite Htr; now rewrite app_assoc|].
  split; [auto|].
  split; [exists reads; split; [exact Hquietreads | right; now exists url, tid, pname]|].
  split; [intros H; now elim H|].
  split.
  - right. exists (mkTransaction buyer ty sid pname pid), data, tid, reads.
    cbn [purchaser pet_type store pet_name].
    rewrite <- Hurl, Hledger.
    repeat (split; [first [reflexivity | assumption]|]).
    split; [now exists (world s1), w2 | exact Hlisted].
  - intros data' n Hd E Hn.
    destruct (Hpinned data' n Hd E Hn) as [Hall Hstore].
    destruct (Hstore sid url Hin) as [-> ->].
    split; [apply Forall_app; split; [exact Hall | now repeat constructor]|].
    intros t H. rewrite Hledger in H. apply app_inv_head in H.
    now injection H as <-.
Qed.

End PurchaseTraffic.

(** ** Registering a type through the live taxonomy service *)


Lemma find_no_match {A : Type} (f : A -> bool) (l : list A) :
  (forall y, In y l -> f y = false) -> find f l = None.
Proof.
  intros H. induction l as [|y l IH]; simpl; [reflexivity|].
  rewrite (H y (or_introl eq_refl)). apply IH. intros z Hz. apply H. now right.
Qed.



(** ** Stock and ledger of the deployment *)

Section StockAndLedger.
Import PetOrder.
Implicit Types (s : state Deploy.world) (c : catalog).









End StockAndLedger.

(** ** Instances of the property of name lists *)

Lemma pet_list_covers_stored_pets_witness :
  let c := Deploy.run [Deploy.new_type "Bulldog";
                       Deploy.new_pet "1" "Rex"; Deploy.new_pet "1" "REX";
                       Deploy.new_pet "1" "Max"] in
  let pt := mkPetType "1" "Bulldog" "Canidae" "Canis"
                      ["Gentle"; "calm"; "and"; "affectionate"] None
                      ["Rex"; "REX"; "Max"] in
  NoDup (pt_pets pt) /\
  (forall n, In n (pt_pets pt) -> In (lower n) (map lower (stored_names c "1"))) /\
  (forall n, In n (stored_names c "1") -> In n (pt_pets pt)).
Proof.
  intros c pt.
  apply (pet_list_covers_stored_pets
           [Deploy.new_type "Bulldog";
            Deploy.new_pet "1" "Rex"; Deploy.new_pet "1" "REX";
            Deploy.new_pet "1" "Max"] "1" pt).
  reflexivity.
Defined.

(** ** Creating a pet *)

(** X18: POST of a pet to a registered type, the body being a JSON object.
    Without a name that is a string, or with a birthdate that is neither
    "NA" nor a valid date, the answer is the 400 "Malformed data", nothing
    is stored and nothing is fetched.  Otherwise, without a picture URL
    (absent, null or empty) the pet is created with 201 and picture "NA",
    and nothing is fetched.  With a picture URL it is fetched once: when the
    fetch fails the answer is not 201, nothing is stored and no file is
    written; when it is answered with a status other than 200 the answer is
    the 500 "API response code" with that status, nothing is stored and no
    file is written; when it is answered 200 one file is written and the pet
    is created with 201 under that file name, which ends in .png when the
    content type mentions png in any case and in .jpg otherwise. *)
Theorem pet_creation_outcome (ev : Petstore.env) (c : catalog) (tid : string)
        (data : dict json) :
  mem (pet_types c) tid = true ->
  let r := Petstore.create_pet ev c tid (Deploy.post data) in
  let resp := fst (fst r) in
  let c' := snd (fst r) in
  let fx := snd r in
  let malformed := (Petstore.Error "Malformed data", 400%N) in
  let bd := Petstore.field_or data "birthdate" (JStr "NA") in
  let url := Petstore.field_or data "picture-url" JNull in
  ((forall n, get data "name" <> Some (JStr n)) ->
   resp = malformed /\ c' = c /\ fx = []) /\
  (forall n,
      get data "name" = Some (JStr n) ->
      ((forall b, bd = JStr b -> b <> "NA" /\ Dates.parse_date b = None) ->
       resp = malformed /\ c' = c /\ fx = []) /\
      (forall b,
          bd = JStr b -> b = "NA" \/ Dates.parse_date b <> None ->
          (truthy url = false ->
           resp = (Petstore.PetObject (mkPetJson n b "NA"), 201%N) /\ fx = []) /\
          (truthy url = true ->
           (forall e, Petstore.picture_get ev url = Raise e ->
                      snd resp <> 201%N /\ c' = c /\ fx = [Petstore.Download url]) /\
           (forall st ct,
               Petstore.picture_get ev url = Return (st, ct) ->
               (st <> 200%N ->
                resp = (Petstore.ServerError ("API response code " ++ str_of_N st)%string,
                        500%N) /\
                c' = c /\ fx = [Petstore.Download url]) /\
               (st = 200%N ->
                let f := ("pet_" ++ str_of_N (Z.abs_N (Petstore.py_hash ev url))
                          ++ (if contains "png" (lower ct) then ".png" else ".jpg"))%string in
                resp = (Petstore.PetObject (mkPetJson n b f), 201%N) /\
                fx = [Petstore.Download url; Petstore.WriteFile f]))))).
Proof.
  intros Hmem. cbv zeta.
  unfold Petstore.create_pet, Deploy.post. rewrite Hmem.
  cbn [negb Petstore.is_json Petstore.get_json].
  unfold Petstore._build_or_update_pet.
  destruct (get data "name") as [[| | |n]|] eqn:Hname;
    try (cbn [fst snd]; split; [now intros _ | discriminate]).
  split; [intros H; now elim (H n)|].
  intros n' [= <-].
  set (bd := Petstore.field_or data "birthdate" (JStr "NA")).
  set (url := Petstore.field_or data "picture-url" JNull).
  assert (Hcheck :
            (Petstore.check_birthdate bd = Raise ValueError /\
             forall b, bd = JStr b -> ~ (b = "NA" \/ Dates.parse_date b <> None)) \/
            (exists b, bd = JStr b /\ Petstore.check_birthdate bd = Return b /\
                       (b = "NA" \/ Dates.parse_date b <> None))).
  { unfold Petstore.check_birthdate.
    destruct bd as [| | |b]; try (left; split; [reflexivity | discriminate]).
    destruct (String.eqb_spec b "NA") as [->|Hna].
    - right. exists "NA". auto.
    - destruct (Dates.parse_date b) eqn:Hp.
      + right. exists b. repeat split. right. rewrite Hp. discriminate.
      + left. split; [reflexivity|].
        intros b' [= <-] [H|H]; [contradiction | now rewrite Hp in H]. }
  destruct Hcheck as [[-> Hbad]|(b & Hbd & -> & Hok)].
  { cbn [fst snd]. split; [now intros _|].
    intros b Hb Hvalid. now elim (Hbad b Hb). }
  split.
  { intros Hbad. destruct (Hbad b Hbd) as [Hna Hp].
    destruct Hok as [Hok|Hok]; [contradiction | now elim Hok]. }
  intros b' Hb' _. rewrite Hbd in Hb'. injection Hb' as <-.
  cbv beta iota zeta.
  destruct (truthy url) eqn:Htruthy; cbn [andb].
  - split; [discriminate|]. intros _.
    unfold Petstore._download_picture.
    destruct (Petstore.picture_get ev url) as [[st ct]|e] eqn:Hget.
    + split; [discriminate|].
      intros st' ct' [= <- <-].
      destruct (N.eqb_spec st 200) as [->|Hst]; cbn [negb].
      * split; [intros H; now elim H|]. intros _.
        cbn [app].
        destruct (add_pet_registered c tid
                    (mkPet n b ("pet_" ++ str_of_N (Z.abs_N (Petstore.py_hash ev url))
                                ++ (if contains "png" (lower ct) then ".png" else ".jpg"))%string
                           url) Hmem) as (c1 & -> & _).
        cbn [fst snd]. split; reflexivity.
      * split; [|intros H; now elim Hst]. intros _.
        cbn [fst snd]. repeat split.
    + split; [|discriminate].
      intros e' [= <-]. destruct e; cbn [fst snd]; repeat split; discriminate.
  - split; [|discriminate]. intros _.
    cbn [app].
    destruct (add_pet_registered c tid (mkPet n b "NA" url) Hmem) as (c1 & -> & _).
    cbn [fst snd]. split; reflexivity.
Qed.

Lemma pet_creation_outcome_witness :
  let r := Petstore.create_pet Deploy.pictures_ok
             (Deploy.run [Deploy.new_type "Bulldog"]) "1"
             (Deploy.post [("name", JStr "Rex"); ("birthdate", JStr "29-02-2020");
                           ("picture-url", JStr "http://pics/rex")]) in
  fst (fst r) = (Petstore.PetObject (mkPetJson "Rex" "29-02-2020" "pet_15.png"), 201%N) /\
  snd r = [Petstore.Download (JStr "http://pics/rex"); Petstore.WriteFile "pet_15.png"].
Proof.
  destruct (pet_creation_outcome Deploy.pictures_ok
              (Deploy.run [Deploy.new_type "Bulldog"]) "1"
              [("name", JStr "Rex"); ("birthdate", JStr "29-02-2020");
               ("picture-url", JStr "http://pics/rex")] eq_refl) as [_ H].
  destruct (H "Rex" eq_refl) as [_ Hb].
  destruct (Hb "29-02-2020" eq_refl) as [_ Hurl].
  - right. vm_compute. discriminate.
  - destruct (Hurl eq_refl) as [_ Hget].
    destruct (Hget 200%N "image/png" eq_refl) as [_ Hok].
    exact (Hok eq_refl).
Defined.

(** ** Updating a pet under another name *)

(** X19: after a PUT on a pet that is answered 200, GET on the name in the
    body answers 200 with the object the PUT returned, and every pet whose
    name differs from it up to case is read as before.  So when the name in
    the body differs up to case from the name in the path, the pet addressed
    by the path is still there, unchanged, beside the pet the PUT stored. *)
Theorem update_under_other_name_keeps_pet
        (ev : Petstore.env) (c c' : catalog) (tid old : string)
        (rq : Petstore.request) (pj : pet_json) (fx : list Petstore.effect) :
  Petstore.update_pet ev c tid old rq = ((Petstore.PetObject pj, 200%N), c', fx) ->
  Petstore.get_pet c' tid (pj_name pj) = (Petstore.PetObject pj, 200%N) /\
  (forall other, lower other <> lower (pj_name pj) ->
                 Petstore.get_pet c' tid other = Petstore.get_pet c tid other) /\
  (lower old <> lower (pj_name pj) ->
   exists before,
     Petstore.get_pet c tid old = (Petstore.PetObject before, 200%N) /\
     Petstore.get_pet c' tid old = (Petstore.PetObject before, 200%N)).
Proof.
  unfold Petstore.update_pet.
  destruct (mem (pet_types c) tid) eqn:Hmem; simpl negb; cbv iota; [|discriminate].
  destruct (negb (Petstore.is_json rq)); [discriminate|].
  destruct (Petstore.get_json rq) as [|data]; [discriminate|].
  destruct (get (get_pets_for_type c tid) (lower old)) as [ex|] eqn:Hex; [|discriminate].
  destruct (Petstore._build_or_update_pet ev data (Some ex)) as [[p|e] fx0];
    [|destruct e; discriminate].
  destruct (add_pet_registered c tid p Hmem) as (c1 & -> & Hm & Hstore & _).
  intros [= <- <- _]. cbn [pj_name pet_to_json].
  assert (Hother : forall other, lower other <> lower (name p) ->
                     Petstore.get_pet c1 tid other = Petstore.get_pet c tid other).
  { intros other Hne. unfold Petstore.get_pet.
    rewrite Hm, Hmem, Hstore. cbn [negb].
    rewrite get_set_other by congruence. reflexivity. }
  split; [|split; [exact Hother|]].
  - unfold Petstore.get_pet. rewrite Hm, Hstore. cbn [negb].
    now rewrite get_set_same.
  - intros Hne. exists (pet_to_json ex).
    rewrite (Hother old Hne). unfold Petstore.get_pet.
    rewrite Hmem, Hex. auto.
Qed.

Lemma update_under_other_name_keeps_pet_witness :
  let c := Deploy.run [Deploy.new_type "Bulldog"; Deploy.new_pet "1" "Rex"] in
  let c' := snd (fst (Petstore.update_pet Deploy.offline c "1" "Rex"
                        (Deploy.post [("name", JStr "Max")]))) in
  Petstore.get_pet c' "1" "Max" = (Petstore.PetObject (mkPetJson "Max" "NA" "NA"), 200%N) /\
  (forall other, lower other <> lower "Max" ->
                 Petstore.get_pet c' "1" other = Petstore.get_pet c "1" other) /\
  (lower "Rex" <> lower "Max" ->
   exists before,
     Petstore.get_pet c "1" "Rex" = (Petstore.PetObject before, 200%N) /\
     Petstore.get_pet c' "1" "Rex" = (Petstore.PetObject before, 200%N)).
Proof.
  intros c c'.
  apply (update_under_other_name_keeps_pet Deploy.offline c c' "1" "Rex"
           (Deploy.post [("name", JStr "Max")])
           (mkPetJson "Max" "NA" "NA") []).
  reflexivity.
Defined.

(** ** Buying a pet by name *)


Section NamedPurchaseAtStore.
Import PetOrder.
Implicit Types (s : state Deploy.world) (c : catalog).





End NamedPurchaseAtStore.


(** ** The invariants of a catalogue *)

(** X21: whatever requests a fresh catalogue instance has served (creating
    and deleting types, creating, updating and deleting pets, with any
    bodies and any answers of the outside world), its three dictionaries
    agree.  Every type is stored under its own id, a non-empty string the
    counter has already passed; no two types have the same name up to case,
    and the name index holds exactly the lower-cased names of the registered
    types, each pointing at its type.  Pets are stored for registered types
    only, each under its lower-cased name, with a birthdate that is "NA" or
    a valid date.  The name list of a type repeats no string, lists the name
    of every stored pet, and lists only names that some stored pet has up to
    case. *)
Theorem reachable_catalogue_invariants (ops : list Deploy.op) :
  consistent (Deploy.run ops) /\ tidy (Deploy.run ops).
Proof. split; [apply run_consistent | apply run_tidy]. Qed.
